(** * Trivy Web UI backend: task store, log hub and scan scheduler

    A shallow embedding of the Go backend (packages [models], [repository],
    [service] and the log-streaming handler) together with the properties
    of its task store, its log broadcast and its bounded worker pool.

    Conventions of the embedding:
    - Go [int] is a 64-bit two's-complement integer: values are [Z] and
      arithmetic results are wrapped with [wrap64].
    - [time.Time] is an instant on the time line, a [Z]; [Before] is [<].
    - A [chan string] is a handle (an index) into a store of channel states,
      because the producer and the subscribers share the channel.
    - A run-time panic (send on a closed channel, slice bounds out of range,
      nil dereference) is the result [None].
    - Go does not fix the iteration order of a map; the embedding iterates in
      the order of [map_to_list].  No statement below depends on that order. *)

From stdpp Require Import gmap strings list fin_maps sorting pretty.
From Stdlib Require Import ZArith Lia.

Open Scope Z_scope.

(** ** Machine integers *)

Definition wrap64 (z : Z) : Z := (z + 2 ^ 63) mod 2 ^ 64 - 2 ^ 63.

Definition int64_range (z : Z) : Prop := - 2 ^ 63 <= z < 2 ^ 63.

(** ** Package models *)

Module Models.

(** [type ScanStatus string] with its four constants.  A record read back
    from disk can carry any string here. *)
Definition ScanStatus : Set := string.
Definition ScanStatusQueued : ScanStatus := "queued".
Definition ScanStatusRunning : ScanStatus := "running".
Definition ScanStatusCompleted : ScanStatus := "completed".
Definition ScanStatusFailed : ScanStatus := "failed".

Record ScanConfig : Set := mkScanConfig {
  Username : string;
  Password : string;
  TLSVerify : bool;
  Severity : list string;
  IgnoreUnfixed : bool;
  Scanners : list string;
  DetectionPriority : string;
  PkgTypes : list string;
  Format : string
}.

Record VulnerabilitySummary : Set := mkVulnerabilitySummary {
  Total : Z; Critical : Z; High : Z; Medium : Z; Low : Z; Unknown : Z
}.

Record ScanResult : Set := mkScanResult {
  ResFormat : string;
  ResData : string;
  ResSummary : option VulnerabilitySummary
}.

Record DatabaseInfo : Set := mkDatabaseInfo {
  DBVersion : Z;
  NextUpdate : Z;
  UpdatedAt : Z;
  DownloadedAt : Z
}.

Record TrivyVersion : Set := mkTrivyVersion {
  Version : string;
  VulnerabilityDB : option DatabaseInfo;
  JavaDB : option DatabaseInfo
}.

(** A buffered [chan string]: pending elements, capacity, closed flag. *)
Record Chan : Set := mkChan {
  ch_buf : list string;
  ch_cap : nat;
  ch_closed : bool
}.

(** The channel store; a channel value is its index in it. *)
Abbreviation ChanStore := (list Chan).

Record ScanTask : Set := mkScanTask {
  ID : string;
  UserID : string;
  Image : string;
  Status : ScanStatus;
  Message : string;
  StartTime : Z;
  EndTime : option Z;
  Config : option ScanConfig;
  QueuePosition : Z;
  Result : option ScanResult;
  Output : string;
  ErrorOutput : string;
  Version_ : option TrivyVersion;
  LogLines : list string;
  LogListeners : list nat
}.

Definition set_LogLines (l : list string) (t : ScanTask) : ScanTask :=
  mkScanTask (ID t) (UserID t) (Image t) (Status t) (Message t) (StartTime t)
    (EndTime t) (Config t) (QueuePosition t) (Result t) (Output t)
    (ErrorOutput t) (Version_ t) l (LogListeners t).

Definition set_LogListeners (l : list nat) (t : ScanTask) : ScanTask :=
  mkScanTask (ID t) (UserID t) (Image t) (Status t) (Message t) (StartTime t)
    (EndTime t) (Config t) (QueuePosition t) (Result t) (Output t)
    (ErrorOutput t) (Version_ t) (LogLines t) l.

Definition set_Status (s : ScanStatus) (t : ScanTask) : ScanTask :=
  mkScanTask (ID t) (UserID t) (Image t) s (Message t) (StartTime t)
    (EndTime t) (Config t) (QueuePosition t) (Result t) (Output t)
    (ErrorOutput t) (Version_ t) (LogLines t) (LogListeners t).

Definition set_Message (m : string) (t : ScanTask) : ScanTask :=
  mkScanTask (ID t) (UserID t) (Image t) (Status t) m (StartTime t)
    (EndTime t) (Config t) (QueuePosition t) (Result t) (Output t)
    (ErrorOutput t) (Version_ t) (LogLines t) (LogListeners t).

Definition set_EndTime (e : option Z) (t : ScanTask) : ScanTask :=
  mkScanTask (ID t) (UserID t) (Image t) (Status t) (Message t) (StartTime t)
    e (Config t) (QueuePosition t) (Result t) (Output t)
    (ErrorOutput t) (Version_ t) (LogLines t) (LogListeners t).

Definition set_ErrorOutput (e : string) (t : ScanTask) : ScanTask :=
  mkScanTask (ID t) (UserID t) (Image t) (Status t) (Message t) (StartTime t)
    (EndTime t) (Config t) (QueuePosition t) (Result t) (Output t)
    e (Version_ t) (LogLines t) (LogListeners t).

Definition set_Result (r : option ScanResult) (t : ScanTask) : ScanTask :=
  mkScanTask (ID t) (UserID t) (Image t) (Status t) (Message t) (StartTime t)
    (EndTime t) (Config t) (QueuePosition t) r (Output t)
    (ErrorOutput t) (Version_ t) (LogLines t) (LogListeners t).

Definition set_Output (o : string) (t : ScanTask) : ScanTask :=
  mkScanTask (ID t) (UserID t) (Image t) (Status t) (Message t) (StartTime t)
    (EndTime t) (Config t) (QueuePosition t) (Result t) o
    (ErrorOutput t) (Version_ t) (LogLines t) (LogListeners t).

Definition set_Version (v : option TrivyVersion) (t : ScanTask) : ScanTask :=
  mkScanTask (ID t) (UserID t) (Image t) (Status t) (Message t) (StartTime t)
    (EndTime t) (Config t) (QueuePosition t) (Result t) (Output t)
    (ErrorOutput t) v (LogLines t) (LogListeners t).

(** [NewScanTask]: a fresh record in [queued] status; [now] is the value
    of [time.Now()]. *)
Definition NewScanTask (id userID image : string) (config : ScanConfig)
    (now : Z) : ScanTask :=
  mkScanTask id userID image ScanStatusQueued "Task created and queued"
    now None (Some config) 0 None "" "" None [] [].

(** [select { case ch <- line: default: }] on one channel.  The send
    succeeds when the buffer has room; otherwise the default branch runs.
    A send on a closed channel panics, also inside a [select]. *)
Definition try_send (line : string) (c : Chan) : option Chan :=
  if ch_closed c then None
  else if (length (ch_buf c) <? ch_cap c)%nat
       then Some (mkChan (ch_buf c ++ [line]) (ch_cap c) false)
       else Some c.

(** The loop [for _, ch := range t.LogListeners] of [AddLog]. *)
Fixpoint broadcast (line : string) (ls : list nat) (chans : ChanStore)
    : option ChanStore :=
  match ls with
  | [] => Some chans
  | h :: ls' =>
      match chans !! h with
      | None => None
      | Some c =>
          match try_send line c with
          | None => None
          | Some c' => broadcast line ls' (<[h := c']> chans)
          end
      end
  end.

(** [AddLog]: append the line, then offer it to every listener. *)
Definition AddLog (line : string) (t : ScanTask) (chans : ChanStore)
    : option (ScanTask * ChanStore) :=
  let t' := set_LogLines (LogLines t ++ [line]) t in
  match broadcast line (LogListeners t') chans with
  | None => None
  | Some chans' => Some (t', chans')
  end.

(** [AddLogListener]: [make(chan string, 100)] and register it. *)
Definition AddLogListener (t : ScanTask) (chans : ChanStore)
    : ScanTask * ChanStore * nat :=
  let ch := length chans in
  (set_LogListeners (LogListeners t ++ [ch]) t,
   chans ++ [mkChan [] 100 false],
   ch).

(** [close(ch)]; closing a closed channel panics. *)
Definition close_chan (h : nat) (chans : ChanStore) : option ChanStore :=
  match chans !! h with
  | None => None
  | Some c =>
      if ch_closed c then None
      else Some (<[h := mkChan (ch_buf c) (ch_cap c) true]> chans)
  end.

(** The loop of [RemoveLogListener]: the first entry equal to [ch] is cut
    out of the slice and the channel is closed. *)
Fixpoint remove_first (ch : nat) (ls : list nat) : option (list nat) :=
  match ls with
  | [] => None
  | l :: ls' =>
      if decide (l = ch) then Some ls'
      else match remove_first ch ls' with
           | None => None
           | Some r => Some (l :: r)
           end
  end.

Definition RemoveLogListener (ch : nat) (t : ScanTask) (chans : ChanStore)
    : option (ScanTask * ChanStore) :=
  match remove_first ch (LogListeners t) with
  | None => Some (t, chans)
  | Some ls' =>
      match close_chan ch chans with
      | None => None
      | Some chans' => Some (set_LogListeners ls' t, chans')
      end
  end.

Fixpoint close_all (ls : list nat) (chans : ChanStore) : option ChanStore :=
  match ls with
  | [] => Some chans
  | h :: ls' =>
      match close_chan h chans with
      | None => None
      | Some chans' => close_all ls' chans'
      end
  end.

(** [CloseAllLogListeners]. *)
Definition CloseAllLogListeners (t : ScanTask) (chans : ChanStore)
    : option (ScanTask * ChanStore) :=
  match close_all (LogListeners t) chans with
  | None => None
  | Some chans' => Some (set_LogListeners [] t, chans')
  end.

(** [GetLogLines] returns a copy of the lines. *)
Definition GetLogLines (t : ScanTask) : list string := LogLines t.

(** A receive [log, ok := <-ch] that is ready: an element of the buffer,
    or [ok = false] on a closed and drained channel.  [None] when the
    receive would block. *)
Inductive Recv : Set :=
| RecvLine (line : string)
| RecvClosed.

Definition recv (h : nat) (chans : ChanStore) : option (Recv * ChanStore) :=
  match chans !! h with
  | None => None
  | Some c =>
      match ch_buf c with
      | line :: rest =>
          Some (RecvLine line, <[h := mkChan rest (ch_cap c) (ch_closed c)]> chans)
      | [] => if ch_closed c then Some (RecvClosed, chans) else None
      end
  end.

(** The listeners of a task are channels that exist, are open, were made
    with capacity 100, and occur once in the slice. *)
Definition listener_ok (chans : ChanStore) (h : nat) : Prop :=
  exists c, chans !! h = Some c /\ ch_closed c = false /\ ch_cap c = 100%nat.

Definition hub_wf (t : ScanTask) (chans : ChanStore) : Prop :=
  NoDup (LogListeners t) /\ Forall (listener_ok chans) (LogListeners t).

End Models.

(** ** Package repository *)

Module Repository.
Import Models.

(** The map [tasks map[string]*models.ScanTask] of the repositories.  The
    value stored under a key is the current content of the record the
    pointer refers to. *)
Abbreviation TaskMap := (gmap string ScanTask).

(** The errors of the mutating operations, after the taxonomy of their
    messages: "already exists", "does not exist", and a failed file
    operation. *)
Inductive RepoError : Set :=
| ErrAlreadyExists (id : string)
| ErrNotExist (id : string)
| ErrStorage.

(** *** InMemoryScanRepository *)

Definition InMemory_Create (task : ScanTask) (m : TaskMap)
    : TaskMap * option RepoError :=
  match m !! ID task with
  | Some _ => (m, Some (ErrAlreadyExists (ID task)))
  | None => (<[ID task := task]> m, None)
  end.

Definition InMemory_Update (task : ScanTask) (m : TaskMap)
    : TaskMap * option RepoError :=
  match m !! ID task with
  | None => (m, Some (ErrNotExist (ID task)))
  | Some _ => (<[ID task := task]> m, None)
  end.

Definition InMemory_Delete (id : string) (m : TaskMap)
    : TaskMap * option RepoError :=
  match m !! id with
  | None => (m, Some (ErrNotExist id))
  | Some _ => (delete id m, None)
  end.

(** [GetByID]: the record, or [nil, nil] when the key is absent. *)
Definition GetByID (id : string) (m : TaskMap) : option ScanTask := m !! id.

(** [for _, task := range r.tasks]. *)
Definition range_tasks (m : TaskMap) : list ScanTask := (map_to_list m).*2.

Record TaskListRequest : Set := mkTaskListRequest {
  Page : Z;
  PageSize : Z;
  FilterStatus : string;
  SortBy : string;
  SortOrder : string
}.

(** The two [continue] tests of the filter loop of [List]. *)
Definition list_match (userID : string) (filter : TaskListRequest)
    (task : ScanTask) : bool :=
  bool_decide (UserID task = userID)
  && negb (negb (bool_decide (FilterStatus filter = ""))
           && negb (bool_decide (Status task = FilterStatus filter))).

(** The comparison closure that [sortTasks] hands to [sort.Slice]. *)
Definition task_less (sortBy sortOrder : string) (a b : ScanTask) : bool :=
  let less :=
    if bool_decide (sortBy = "startTime") then StartTime a <? StartTime b
    else if bool_decide (sortBy = "endTime") then
      match EndTime a, EndTime b with
      | None, _ => false
      | Some _, None => true
      | Some x, Some y => x <? y
      end
    else StartTime a <? StartTime b in
  if bool_decide (sortOrder = "desc") then negb less else less.

(** [sort.Slice] with a comparison: a merge sort driven by it.  Go leaves
    open where elements go that the comparison does not separate. *)
Definition sort_slice (less : ScanTask -> ScanTask -> bool)
    (l : list ScanTask) : list ScanTask :=
  merge_sort (fun a b => Is_true (less a b)) l.

Definition sortTasks (l : list ScanTask) (sortBy sortOrder : string)
    : list ScanTask :=
  sort_slice (task_less sortBy sortOrder) l.

(** The slice expression [s[low:high]] on a slice whose capacity equals
    its length: it panics unless [0 <= low <= high <= len(s)]. *)
Definition slice {A : Type} (s : list A) (low high : Z) : option (list A) :=
  if (0 <=? low) && (low <=? high) && (high <=? Z.of_nat (length s))
  then Some (take (Z.to_nat (high - low)) (drop (Z.to_nat low) s))
  else None.

(** [List]: the page and the total; the error result is always [nil], so
    the outcome is the pair, or [None] for a panic. *)
Definition List (userID : string) (filter : TaskListRequest) (m : TaskMap)
    : option (list ScanTask * Z) :=
  let filtered := List.filter (list_match userID filter) (range_tasks m) in
  let total := Z.of_nat (length filtered) in
  let sorted := sortTasks filtered (SortBy filter) (SortOrder filter) in
  let start := wrap64 (wrap64 (Page filter - 1) * PageSize filter) in
  let end_ := wrap64 (start + PageSize filter) in
  if total <=? start then Some ([], total)
  else
    let end_ := if total <? end_ then total else end_ in
    match slice sorted start end_ with
    | None => None
    | Some page => Some (page, total)
    end.

Definition GetQueuedTasks (userID : string) (m : TaskMap) : list ScanTask :=
  sort_slice (fun a b => StartTime a <? StartTime b)
    (List.filter
       (fun task => bool_decide (UserID task = userID)
                    && bool_decide (Status task = ScanStatusQueued))
       (range_tasks m)).

Definition GetRunningTask (userID : string) (m : TaskMap) : option ScanTask :=
  List.find
    (fun task => bool_decide (UserID task = userID)
                 && bool_decide (Status task = ScanStatusRunning))
    (range_tasks m).

Definition GetAllRunningTasks (m : TaskMap) : list ScanTask :=
  List.filter (fun task => bool_decide (Status task = ScanStatusRunning))
    (range_tasks m).

(** The timestamp [taskTime] of [GetAllOldTasks]: the end time when there
    is one, the start time otherwise. *)
Definition taskTime (task : ScanTask) : Z :=
  match EndTime task with
  | Some e => e
  | None => StartTime task
  end.

Definition is_old (cutoffTime : Z) (task : ScanTask) : bool :=
  if negb (bool_decide (Status task = ScanStatusCompleted))
     && negb (bool_decide (Status task = ScanStatusFailed))
  then false
  else taskTime task <? cutoffTime.

Definition GetAllOldTasks (cutoffTime : Z) (m : TaskMap) : list ScanTask :=
  List.filter (is_old cutoffTime) (range_tasks m).

(** *** FileScanRepository *)

(** The directory tree under [baseDir/scans]: the file
    [<userID>/scan_<taskID>.json] holds the record as [json.MarshalIndent]
    writes it, that is without the fields tagged [json:"-"]. *)
Definition persisted (task : ScanTask) : ScanTask :=
  set_LogLines [] (set_LogListeners [] task).

Record FileScanRepository : Type := mkFileScanRepository {
  files : gmap (string * string) ScanTask;
  tasks : TaskMap
}.

(** [saveTaskToFile].  [disk_ok] tells whether [MkdirAll], the marshalling
    and [WriteFile] all succeed.  The content of the disk after a failed
    write is not known; the embedding leaves the files as they were, and
    no statement below speaks about the files after a failure. *)
Definition saveTaskToFile (disk_ok : bool) (task : ScanTask)
    (fs : gmap (string * string) ScanTask)
    : option (gmap (string * string) ScanTask) :=
  if disk_ok then Some (<[(UserID task, ID task) := persisted task]> fs)
  else None.

(** [deleteTaskFile]: a missing file is not an error. *)
Definition deleteTaskFile (disk_ok : bool) (task : ScanTask)
    (fs : gmap (string * string) ScanTask)
    : option (gmap (string * string) ScanTask) :=
  if disk_ok then Some (delete (UserID task, ID task) fs) else None.

Definition Create (disk_ok : bool) (task : ScanTask) (r : FileScanRepository)
    : FileScanRepository * option RepoError :=
  match tasks r !! ID task with
  | Some _ => (r, Some (ErrAlreadyExists (ID task)))
  | None =>
      match saveTaskToFile disk_ok task (files r) with
      | None => (r, Some ErrStorage)
      | Some fs => (mkFileScanRepository fs (<[ID task := task]> (tasks r)), None)
      end
  end.

Definition Update (disk_ok : bool) (task : ScanTask) (r : FileScanRepository)
    : FileScanRepository * option RepoError :=
  match tasks r !! ID task with
  | None => (r, Some (ErrNotExist (ID task)))
  | Some _ =>
      match saveTaskToFile disk_ok task (files r) with
      | None => (r, Some ErrStorage)
      | Some fs => (mkFileScanRepository fs (<[ID task := task]> (tasks r)), None)
      end
  end.

Definition Delete (disk_ok : bool) (id : string) (r : FileScanRepository)
    : FileScanRepository * option RepoError :=
  match tasks r !! id with
  | None => (r, Some (ErrNotExist id))
  | Some task =>
      match deleteTaskFile disk_ok task (files r) with
      | None => (r, Some ErrStorage)
      | Some fs => (mkFileScanRepository fs (delete id (tasks r)), None)
      end
  end.

End Repository.

(** ** Package service *)

Module Service.
Import Models Repository.

Record TrivyConfig : Set := mkTrivyConfig {
  ServerURL : string;
  Timeout : Z;
  MaxWorkers : Z;
  ScanRetentionDays : Z
}.

Record ScanRequest : Set := mkScanRequest {
  ReqImage : string;
  ReqUsername : string;
  ReqPassword : string;
  ReqTLSVerify : option bool;
  ReqSeverity : list string;
  ReqIgnoreUnfixed : bool;
  ReqScanners : list string;
  ReqDetectionPriority : string;
  ReqPkgTypes : list string;
  ReqFormat : string
}.

(** [strings.Join]. *)
Fixpoint Join (elems : list string) (sep : string) : string :=
  match elems with
  | [] => ""
  | [e] => e
  | e :: rest => e +:+ sep +:+ Join rest sep
  end.

(** [if cond { args = append(args, extra...) }]. *)
Definition append_if (cond : bool) (args extra : list string) : list string :=
  if cond then args ++ extra else args.

(** [buildTrivyArgs]; the task's [ScanConfig] pointer is dereferenced, so
    a record without configuration panics. *)
Definition buildTrivyArgs (config : TrivyConfig) (task : ScanTask)
    : option (list string) :=
  match Config task with
  | None => None
  | Some sc =>
      let args := ["image"] in
      let args := append_if (negb (bool_decide (ServerURL config = ""))) args
                    ["--server"; ServerURL config] in
      let args := args ++ ["--skip-db-update"] in
      let args := args ++ ["--image-src"; "remote"] in
      let args := args ++ ["--timeout"; "10m"] in
      let args := append_if (negb (bool_decide (Username sc = ""))) args
                    ["--username"; Username sc] in
      let args := append_if (negb (bool_decide (Password sc = ""))) args
                    ["--password"; Password sc] in
      let args := append_if (negb (TLSVerify sc)) args ["--insecure"] in
      let args := append_if (0 <? length (Severity sc))%nat args
                    ["--severity"; Join (Severity sc) ","] in
      let args := append_if (IgnoreUnfixed sc) args ["--ignore-unfixed"] in
      let args := append_if (0 <? length (Scanners sc))%nat args
                    ["--scanners"; Join (Scanners sc) ","] in
      let args := append_if (negb (bool_decide (DetectionPriority sc = ""))) args
                    ["--detection-priority"; DetectionPriority sc] in
      let args := append_if (0 <? length (PkgTypes sc))%nat args
                    ["--pkg-types"; Join (PkgTypes sc) ","] in
      let args := append_if (negb (bool_decide (Format sc = ""))) args
                    ["--format"; Format sc] in
      Some (args ++ [Image task])
  end.

Definition is_credential_flag (a : string) : bool :=
  bool_decide (a = "--password") || bool_decide (a = "--username").

(** The body of the loop of [maskCredentials] at index [i]. *)
Definition mask_at (i : nat) (masked : list string) : list string :=
  match masked !! i with
  | Some a => if is_credential_flag a then <[S i := "***"]> masked else masked
  | None => masked
  end.

(** [for i := 0; i < len(masked)-1; i++]: [n] iterations are left. *)
Fixpoint mask_loop (n i : nat) (masked : list string) : list string :=
  match n with
  | O => masked
  | S n' => mask_loop n' (S i) (mask_at i masked)
  end.

Definition maskCredentials (args : list string) : list string :=
  mask_loop (length args - 1) 0 args.

(** The line that [executeScan] logs before it runs the command. *)
Definition command_log_line (args : list string) : string :=
  "Executing: trivy " +:+ Join (maskCredentials args) " ".

(** [parseScanResult] never fails; the summary is there when the format
    is json and the output parses ([summary] is the outcome of
    [parseVulnerabilitySummary], [None] for a parse error). *)
Definition parseScanResult (output format : string)
    (summary : option VulnerabilitySummary) : ScanResult :=
  mkScanResult format output
    (if bool_decide (format = "json") then summary else None).

(** [NewScanServiceWithExecutor]: the capacity of the [workerPool]
    channel. *)
Definition maxWorkers (config : TrivyConfig) : Z :=
  if MaxWorkers config <=? 0 then 5 else MaxWorkers config.

(** The defaults of [CreateScanTask] and the configuration it builds. *)
Definition scanConfig_of (req : ScanRequest) : ScanConfig :=
  let tls := match ReqTLSVerify req with None => true | Some b => b end in
  let scanners := if (length (ReqScanners req) =? 0)%nat then ["vuln"]
                  else ReqScanners req in
  let prio := if bool_decide (ReqDetectionPriority req = "") then "precise"
              else ReqDetectionPriority req in
  let format := if bool_decide (ReqFormat req = "") then "json"
                else ReqFormat req in
  mkScanConfig (ReqUsername req) (ReqPassword req) tls (ReqSeverity req)
    (ReqIgnoreUnfixed req) scanners prio (ReqPkgTypes req) format.

(** Where a goroutine that runs the scan of a task stands. *)
Inductive Pc : Set :=
| PcAcquired    (* slot taken, executeScan not entered *)
| PcStarted     (* status written, version not fetched *)
| PcVersion     (* version logged, command not logged *)
| PcStreaming   (* command running *)
| PcFinished.   (* executeScan returned, slot not released *)

#[global] Instance Pc_eq_dec : EqDecision Pc.
Proof. solve_decision. Defined.

Inductive Background : Set := QueueWorker | CleanupWorker.

#[global] Instance Background_eq_dec : EqDecision Background.
Proof. solve_decision. Defined.

(** The service with everything it shares.
    - [st_repo]: the repository behind [s.repo].
    - [st_detached]: records that were deleted from the repository while a
      goroutine or a subscriber still holds the pointer.
    - [st_chans]: the channels made so far.
    - [st_pool]: [len(s.workerPool)]; its capacity is [maxWorkers].
    - [st_scans]: the goroutines started for scans, each with the id of
      its task and its position.
    - [st_background]: the worker goroutines started by [Start].
    - [st_trace]: history variable, not program state: per task id, the
      values assigned to the [Status] field, in order. *)
Record State : Type := mkState {
  st_config : TrivyConfig;
  st_repo : FileScanRepository;
  st_detached : TaskMap;
  st_chans : ChanStore;
  st_pool : nat;
  st_scans : list (string * Pc);
  st_background : list Background;
  st_trace : gmap string (list ScanStatus)
}.

Definition pool_cap (s : State) : nat := Z.to_nat (maxWorkers (st_config s)).

(** Dereference of a task pointer. *)
Definition lookup_task (id : string) (s : State) : option ScanTask :=
  match tasks (st_repo s) !! id with
  | Some t => Some t
  | None => st_detached s !! id
  end.

(** Assignment through a task pointer, with the channel store. *)
Definition store_task (id : string) (t : ScanTask) (chans : ChanStore)
    (s : State) : State :=
  match tasks (st_repo s) !! id with
  | Some _ =>
      mkState (st_config s)
        (mkFileScanRepository (files (st_repo s)) (<[id := t]> (tasks (st_repo s))))
        (st_detached s) chans (st_pool s) (st_scans s) (st_background s)
        (st_trace s)
  | None =>
      mkState (st_config s) (st_repo s) (<[id := t]> (st_detached s)) chans
        (st_pool s) (st_scans s) (st_background s) (st_trace s)
  end.

Definition set_repo (r : FileScanRepository) (s : State) : State :=
  mkState (st_config s) r (st_detached s) (st_chans s) (st_pool s)
    (st_scans s) (st_background s) (st_trace s).

Definition set_pool (n : nat) (s : State) : State :=
  mkState (st_config s) (st_repo s) (st_detached s) (st_chans s) n
    (st_scans s) (st_background s) (st_trace s).

Definition set_scans (g : list (string * Pc)) (s : State) : State :=
  mkState (st_config s) (st_repo s) (st_detached s) (st_chans s) (st_pool s)
    g (st_background s) (st_trace s).

Definition set_background (b : list Background) (s : State) : State :=
  mkState (st_config s) (st_repo s) (st_detached s) (st_chans s) (st_pool s)
    (st_scans s) b (st_trace s).

Definition set_detached (d : TaskMap) (s : State) : State :=
  mkState (st_config s) (st_repo s) d (st_chans s) (st_pool s)
    (st_scans s) (st_background s) (st_trace s).

(** The history variable follows every assignment to [Status]. *)
Definition record_status (id : string) (st : ScanStatus) (s : State) : State :=
  mkState (st_config s) (st_repo s) (st_detached s) (st_chans s) (st_pool s)
    (st_scans s) (st_background s)
    (<[id := default [] (st_trace s !! id) ++ [st]]> (st_trace s)).

(** [s.repo.Update(task)] with the record the pointer refers to; the
    callers in this package drop the error. *)
Definition repo_Update (disk_ok : bool) (id : string) (s : State) : State :=
  match lookup_task id s with
  | None => s
  | Some t => set_repo (fst (Update disk_ok t (st_repo s))) s
  end.

(** The non-blocking [select] on [s.workerPool <- struct{}{}]. *)
Definition try_acquire (s : State) : option State :=
  if (st_pool s <? pool_cap s)%nat then Some (set_pool (S (st_pool s)) s)
  else None.

(** [<-s.workerPool]. *)
Definition release (s : State) : State := set_pool (pred (st_pool s)) s.

(** [go func() { ...; s.executeScan(task) }()]. *)
Definition spawn_scan (id : string) (s : State) : State :=
  set_scans (st_scans s ++ [(id, PcAcquired)]) s.

(** [getNextQueuedTask]: the body is [return nil]. *)
Definition getNextQueuedTask (s : State) : option string := None.

(** [processQueue], one tick of the queue worker. *)
Definition processQueue (s : State) : State :=
  match try_acquire s with
  | Some s1 =>
      match getNextQueuedTask s1 with
      | None => release s1
      | Some id => spawn_scan id s1
      end
  | None => s
  end.

(** A hub operation applied to the record behind a task pointer. *)
Definition update_task (id : string)
    (f : ScanTask -> ChanStore -> option (ScanTask * ChanStore))
    (s : State) : option State :=
  t ← lookup_task id s;
  r ← f t (st_chans s);
  Some (store_task id r.1 r.2 s).

(** What the external command did: it ran out of time, it failed with an
    error and some stderr text, or it succeeded with its stdout, the
    outcome of parsing the summary and the outcome of [saveReport]. *)
Inductive CmdOutcome : Set :=
| CmdTimeout
| CmdError (err stderr : string)
| CmdOk (stdout : string) (summary : option VulnerabilitySummary)
        (report : string + string).

Section WithFormat.

(** [t.Format(time.RFC3339)]. *)
Variable RFC3339 : Z -> string.

(** [executeScan], lines "Update task status to running". *)
Definition scan_begin (now : Z) (t : ScanTask) (chans : ChanStore)
    : option (ScanTask * ChanStore) :=
  AddLog ("Scan started at " +:+ RFC3339 now)
    (set_Message "Scan in progress" (set_Status ScanStatusRunning t)) chans.

Definition log_db (label : string) (db : option DatabaseInfo)
    (r : ScanTask * ChanStore) : option (ScanTask * ChanStore) :=
  match db with
  | None => Some r
  | Some d =>
      AddLog (label +:+ ": v" +:+ pretty (DBVersion d) +:+ " (updated: "
              +:+ RFC3339 (UpdatedAt d) +:+ ")") r.1 r.2
  end.

(** [executeScan], "Fetch and record Trivy Server version"; [v] is the
    result of [GetTrivyVersion], an error text or the version. *)
Definition scan_version (v : string + TrivyVersion) (t : ScanTask)
    (chans : ChanStore) : option (ScanTask * ChanStore) :=
  match v with
  | inl err =>
      AddLog ("Warning: Could not fetch Trivy Server version: " +:+ err) t chans
  | inr version =>
      r1 ← AddLog ("Trivy Server version: " +:+ Version version)
             (set_Version (Some version) t) chans;
      r2 ← log_db "Vulnerability DB" (VulnerabilityDB version) r1;
      log_db "Java DB" (JavaDB version) r2
  end.

(** [executeScan], "Build trivy command". *)
Definition scan_command (config : TrivyConfig) (t : ScanTask)
    (chans : ChanStore) : option (ScanTask * ChanStore) :=
  args ← buildTrivyArgs config t;
  AddLog (command_log_line args) t chans.

(** [failTask] up to its call of [s.repo.Update]. *)
Definition failTask (now : Z) (errorMsg : string) (t : ScanTask)
    (chans : ChanStore) : option (ScanTask * ChanStore) :=
  let t := set_Status ScanStatusFailed t in
  let t := set_Message "Scan failed" t in
  let t := set_EndTime (Some now) t in
  let t := set_ErrorOutput errorMsg t in
  r1 ← AddLog ("ERROR: " +:+ errorMsg) t chans;
  r2 ← AddLog ("Scan failed at " +:+ RFC3339 now) r1.1 r1.2;
  CloseAllLogListeners r2.1 r2.2.

(** [executeScan], the success path from "Save report to file" up to
    its call of [s.repo.Update]. *)
Definition scan_complete (now : Z) (stdout : string)
    (summary : option VulnerabilitySummary) (report : string + string)
    (t : ScanTask) (chans : ChanStore) : option (ScanTask * ChanStore) :=
  sc ← Config t;
  let result := parseScanResult stdout (Format sc) summary in
  r1 ← match report with
       | inl _ => Some (t, chans)
       | inr reportPath => AddLog ("Report saved to: " +:+ reportPath) t chans
       end;
  let t := set_Status ScanStatusCompleted r1.1 in
  let t := set_Message "Scan completed successfully" t in
  let t := set_EndTime (Some now) t in
  let t := set_Result (Some result) t in
  let t := set_Output stdout t in
  r2 ← AddLog ("Scan completed at " +:+ RFC3339 now) t r1.2;
  CloseAllLogListeners r2.1 r2.2.

(** [executeScan], "Handle command result": the status it assigns and
    the hub operations around the assignment. *)
Definition outcome_status (o : CmdOutcome) : ScanStatus :=
  match o with
  | CmdOk _ _ _ => ScanStatusCompleted
  | _ => ScanStatusFailed
  end.

Definition scan_finish (now : Z) (o : CmdOutcome) (t : ScanTask)
    (chans : ChanStore) : option (ScanTask * ChanStore) :=
  match o with
  | CmdTimeout => failTask now "Scan timeout exceeded" t chans
  | CmdError err stderr =>
      failTask now ("Scan failed: " +:+ err +:+ "
" +:+ stderr) t chans
  | CmdOk stdout summary report =>
      scan_complete now stdout summary report t chans
  end.

(** The body of the loop of [markInterruptedTasksAsFailed] up to its
    call of [s.repo.Update]. *)
Definition fail_interrupted (now : Z) (t : ScanTask) (chans : ChanStore)
    : option (ScanTask * ChanStore) :=
  let t := set_Status ScanStatusFailed t in
  let t := set_Message "Scan interrupted by server restart" t in
  let t := set_EndTime (Some now) t in
  let t := set_ErrorOutput "Server was restarted while this scan was in progress" t in
  r1 ← AddLog "ERROR: Scan interrupted by server restart" t chans;
  r2 ← AddLog ("Task marked as failed at " +:+ RFC3339 now) r1.1 r1.2;
  CloseAllLogListeners r2.1 r2.2.

(** [for _, task := range runningTasks]; [clock] gives [time.Now()] in
    the iteration of a task and [disk_ok] the fate of its file write. *)
Fixpoint recover_loop (clock : string -> Z) (disk_ok : string -> bool)
    (runningTasks : list ScanTask) (s : State) : option State :=
  match runningTasks with
  | [] => Some s
  | task :: rest =>
      let id := ID task in
      s1 ← update_task id (fail_interrupted (clock id)) s;
      recover_loop clock disk_ok rest
        (repo_Update (disk_ok id) id (record_status id ScanStatusFailed s1))
  end.

Definition markInterruptedTasksAsFailed (clock : string -> Z)
    (disk_ok : string -> bool) (s : State) : option State :=
  recover_loop clock disk_ok (GetAllRunningTasks (tasks (st_repo s))) s.

(** [Start]: recovery, then the queue worker, then the cleanup worker
    when retention is enabled. *)
Definition Start (clock : string -> Z) (disk_ok : string -> bool)
    (s : State) : option State :=
  s1 ← markInterruptedTasksAsFailed clock disk_ok s;
  let bg := st_background s1 ++ [QueueWorker] in
  let bg := if 0 <? ScanRetentionDays (st_config s1)
            then bg ++ [CleanupWorker] else bg in
  Some (set_background bg s1).

End WithFormat.

(** [loadTasks] of the file repository: every readable record is put
    under its own id; the fields tagged [json:"-"] come back empty. *)
Definition loadTasks (fs : gmap (string * string) ScanTask) : TaskMap :=
  foldr (fun task m => <[ID task := task]> m) ∅
    (persisted <$> (map_to_list fs).*2).

Definition NewFileScanRepository (fs : gmap (string * string) ScanTask)
    : FileScanRepository :=
  mkFileScanRepository fs (loadTasks fs).

(** [NewScanService]: an empty worker pool, no goroutines. *)
Definition NewScanService (r : FileScanRepository) (config : TrivyConfig)
    : State :=
  mkState config r ∅ [] 0 [] [] ((fun t => [Status t]) <$> tasks r).

(** [CreateScanTask].  [id] is the value of [uuid.New()]. *)
Definition CreateScanTask (id userID : string) (req : ScanRequest)
    (now : Z) (disk_ok : bool) (s : State) : State :=
  let task := NewScanTask id userID (ReqImage req) (scanConfig_of req) now in
  match Create disk_ok task (st_repo s) with
  | (_, Some _) => s
  | (r, None) =>
      let s1 := record_status id ScanStatusQueued (set_repo r s) in
      match try_acquire s1 with
      | Some s2 => spawn_scan id s2
      | None => s1
      end
  end.

(** [DeleteTask]; the report files are outside the task store.  The
    record stays reachable for whoever still holds its pointer. *)
Definition DeleteTask (disk_ok : bool) (id : string) (s : State) : State :=
  match tasks (st_repo s) !! id with
  | None => s
  | Some t =>
      match Delete disk_ok id (st_repo s) with
      | (_, Some _) => s
      | (r, None) => set_detached (<[id := t]> (st_detached s)) (set_repo r s)
      end
  end.

(** [cleanupOldReports] from the cutoff on. *)
Definition cleanupOldReports (cutoffTime : Z) (disk_ok : string -> bool)
    (s : State) : State :=
  foldl (fun s task => DeleteTask (disk_ok (ID task)) (ID task) s) s
    (GetAllOldTasks cutoffTime (tasks (st_repo s))).

(** *** The service as a transition system

    One event is one atomic piece of one goroutine: a request handled by
    the service, a tick of the queue worker, a stretch of [executeScan]
    between two points where other goroutines can run, or an operation of
    a log subscriber.  The values that come from outside (clock, uuid,
    file system, the Trivy server and process) travel with the event. *)
Inductive Event : Type :=
| EvCreateScanTask (id userID : string) (req : ScanRequest) (now : Z)
                   (disk_ok : bool)
| EvTick
| EvScanBegin (i : nat) (now : Z) (disk_ok : bool)
| EvScanVersion (i : nat) (v : string + TrivyVersion) (disk_ok : bool)
| EvScanCommand (i : nat)
| EvScanLine (i : nat) (line : string)
| EvScanFinish (i : nat) (now : Z) (o : CmdOutcome) (disk_ok : bool)
| EvScanRelease (i : nat)
| EvDeleteTask (id : string) (disk_ok : bool)
| EvCleanup (cutoffTime : Z) (disk_ok : string -> bool)
| EvAddLogListener (id : string)
| EvRemoveLogListener (id : string) (ch : nat)
| EvRecv (ch : nat).

Definition set_pc (i : nat) (id : string) (pc : Pc) (s : State) : State :=
  set_scans (<[i := (id, pc)]> (st_scans s)) s.

Definition set_chans (chans : ChanStore) (s : State) : State :=
  mkState (st_config s) (st_repo s) (st_detached s) chans (st_pool s)
    (st_scans s) (st_background s) (st_trace s).

(** The goroutine [i] when it stands at [pc]: the id of its task. *)
Definition scan_at (i : nat) (pc : Pc) (s : State) : option string :=
  match st_scans s !! i with
  | Some (id, pc') => if decide (pc' = pc) then Some id else None
  | None => None
  end.

Section Step.

Variable RFC3339 : Z -> string.

(** The result is [None] when the event cannot happen in the state, or
    when it ends in a panic.  [uuid.New()] returns an id that no record
    of this process has carried. *)
Definition step (ev : Event) (s : State) : option State :=
  match ev with
  | EvCreateScanTask id userID req now disk_ok =>
      match st_trace s !! id with
      | Some _ => None
      | None => Some (CreateScanTask id userID req now disk_ok s)
      end
  | EvTick =>
      if decide (QueueWorker ∈ st_background s) then Some (processQueue s)
      else None
  | EvScanBegin i now disk_ok =>
      id ← scan_at i PcAcquired s;
      s1 ← update_task id (scan_begin RFC3339 now) s;
      Some (set_pc i id PcStarted
              (repo_Update disk_ok id (record_status id ScanStatusRunning s1)))
  | EvScanVersion i v disk_ok =>
      id ← scan_at i PcStarted s;
      s1 ← update_task id (scan_version RFC3339 v) s;
      Some (set_pc i id PcVersion
              (match v with
               | inl _ => s1
               | inr _ => repo_Update disk_ok id s1
               end))
  | EvScanCommand i =>
      id ← scan_at i PcVersion s;
      s1 ← update_task id (scan_command (st_config s)) s;
      Some (set_pc i id PcStreaming s1)
  | EvScanLine i line =>
      id ← scan_at i PcStreaming s;
      update_task id (AddLog line) s
  | EvScanFinish i now o disk_ok =>
      id ← scan_at i PcStreaming s;
      s1 ← update_task id (scan_finish RFC3339 now o) s;
      Some (set_pc i id PcFinished
              (repo_Update disk_ok id (record_status id (outcome_status o) s1)))
  | EvScanRelease i =>
      id ← scan_at i PcFinished s;
      Some (set_scans (delete i (st_scans s)) (release s))
  | EvDeleteTask id disk_ok => Some (DeleteTask disk_ok id s)
  | EvCleanup cutoffTime disk_ok =>
      if decide (CleanupWorker ∈ st_background s)
      then Some (cleanupOldReports cutoffTime disk_ok s)
      else None
  | EvAddLogListener id =>
      t ← lookup_task id s;
      let r := AddLogListener t (st_chans s) in
      Some (store_task id r.1.1 r.1.2 s)
  | EvRemoveLogListener id ch => update_task id (RemoveLogListener ch) s
  | EvRecv ch =>
      r ← recv ch (st_chans s);
      Some (set_chans r.2 s)
  end.

(** The program: load the repository, build the service, [Start] it,
    then serve. *)
Definition boot (fs : gmap (string * string) ScanTask)
    (config : TrivyConfig) (clock : string -> Z)
    (disk_ok : string -> bool) : option State :=
  Start RFC3339 clock disk_ok
    (NewScanService (NewFileScanRepository fs) config).

Inductive reachable (fs : gmap (string * string) ScanTask)
    (config : TrivyConfig) : State -> Prop :=
| reachable_boot clock disk_ok s :
    boot fs config clock disk_ok = Some s ->
    reachable fs config s
| reachable_step ev s s' :
    reachable fs config s ->
    step ev s = Some s' ->
    reachable fs config s'.

(** Events one after the other. *)
Fixpoint run (evs : list Event) (s : State) : option State :=
  match evs with
  | [] => Some s
  | ev :: evs' => s' ← step ev s; run evs' s'
  end.

End Step.

End Service.

(** ** Package handler: the log stream *)

Module Handler.
Import Models.














End Handler.

(** ** Vocabulary of the statements *)

Module Spec.
Import Models.

(** What one [AddLog] does to a channel: a listener with room gets the
    line at the end of its buffer, everything else stays. *)
Definition deliver (line : string) (listening : bool) (c : Chan) : Chan :=
  if listening && (length (ch_buf c) <? ch_cap c)%nat
  then mkChan (ch_buf c ++ [line]) (ch_cap c) (ch_closed c)
  else c.

(** Every key of the task map is the id of the record stored under it;
    all writes of the repositories are of the form [tasks[task.ID] = task]. *)
Definition keyed (m : gmap string ScanTask) : Prop :=
  forall id t, m !! id = Some t -> ID t = id.

(** Masking read from left to right: [masking] tells whether the
    argument before the head, as it stands after masking, is a credential
    flag. *)
Fixpoint mask_scan (masking : bool) (args : list string) : list string :=
  match args with
  | [] => []
  | a :: rest =>
      let a' := if masking then "***" else a in
      a' :: mask_scan (Service.is_credential_flag a') rest
  end.

(** Two scan configurations that differ at most in the registry user
    name and password, where each of the two is empty in both or in
    neither. *)
Definition same_but_credentials (c1 c2 : ScanConfig) : Prop :=
  TLSVerify c1 = TLSVerify c2
  /\ Severity c1 = Severity c2
  /\ IgnoreUnfixed c1 = IgnoreUnfixed c2
  /\ Scanners c1 = Scanners c2
  /\ DetectionPriority c1 = DetectionPriority c2
  /\ PkgTypes c1 = PkgTypes c2
  /\ Format c1 = Format c2
  /\ (Username c1 = "" <-> Username c2 = "")
  /\ (Password c1 = "" <-> Password c2 = "").

(** The state of the masking after a list of arguments. *)
Fixpoint mask_state (masking : bool) (args : list string) : bool :=
  match args with
  | [] => masking
  | a :: rest => mask_state (Service.is_credential_flag (if masking then "***" else a)) rest
  end.

(** The arguments before the credentials, the credentials, and the
    arguments after them. *)
Definition args_before (config : Service.TrivyConfig) : list string :=
  ["image"]
  ++ (if negb (bool_decide (Service.ServerURL config = ""))
      then ["--server"; Service.ServerURL config] else [])
  ++ ["--skip-db-update"; "--image-src"; "remote"; "--timeout"; "10m"].

Definition args_credentials (sc : ScanConfig) : list string :=
  (if negb (bool_decide (Username sc = "")) then ["--username"; Username sc] else [])
  ++ (if negb (bool_decide (Password sc = "")) then ["--password"; Password sc] else []).

Definition args_after (sc : ScanConfig) (image : string) : list string :=
  (if negb (TLSVerify sc) then ["--insecure"] else [])
  ++ (if (0 <? length (Severity sc))%nat
      then ["--severity"; Service.Join (Severity sc) ","] else [])
  ++ (if IgnoreUnfixed sc then ["--ignore-unfixed"] else [])
  ++ (if (0 <? length (Scanners sc))%nat
      then ["--scanners"; Service.Join (Scanners sc) ","] else [])
  ++ (if negb (bool_decide (DetectionPriority sc = ""))
      then ["--detection-priority"; DetectionPriority sc] else [])
  ++ (if (0 <? length (PkgTypes sc))%nat
      then ["--pkg-types"; Service.Join (PkgTypes sc) ","] else [])
  ++ (if negb (bool_decide (Format sc = ""))
      then ["--format"; Format sc] else [])
  ++ [image].

Definition masked_credentials (sc : ScanConfig) : list string :=
  (if negb (bool_decide (Username sc = "")) then ["--username"; "***"] else [])
  ++ (if negb (bool_decide (Password sc = "")) then ["--password"; "***"] else []).







End Spec.

Module SchedSpec.
Import Models Repository Service.

(** Two states with the same scheduling part: configuration, worker pool,
    scan goroutines and background workers. *)
Definition same_sched (s s' : State) : Prop :=
  st_config s' = st_config s
  /\ st_pool s' = st_pool s
  /\ st_scans s' = st_scans s
  /\ st_background s' = st_background s.

(** The record that the loop of [markInterruptedTasksAsFailed] leaves
    behind for a task. *)
Definition interrupted (RFC3339 : Z -> string) (now : Z) (t : ScanTask)
    : ScanTask :=
  set_LogListeners []
    (set_LogLines
       (LogLines t ++ ["ERROR: Scan interrupted by server restart";
                       "Task marked as failed at " +:+ RFC3339 now])
       (set_ErrorOutput "Server was restarted while this scan was in progress"
          (set_EndTime (Some now)
             (set_Message "Scan interrupted by server restart"
                (set_Status ScanStatusFailed t))))).

(** All records that a pointer can reach: those of the repository and
    those deleted from it. *)
Definition all_records (s : State) : gmap string ScanTask :=
  tasks (st_repo s) ∪ st_detached s.

(** The ids of the records whose status is running. *)
Definition running_ids (s : State) : gset string :=
  dom (filter (fun kv : string * ScanTask => Status kv.2 = ScanStatusRunning)
         (all_records s)).

(** The positions of [executeScan] between the assignment of running and
    the assignment of the final status. *)
Definition executing (pc : Pc) : bool :=
  match pc with
  | PcStarted | PcVersion | PcStreaming => true
  | PcAcquired | PcFinished => false
  end.

(** The statuses assigned so far to the task of a scan goroutine. *)
Definition pc_trace (pc : Pc) (tr : list ScanStatus) : Prop :=
  match pc with
  | PcAcquired => tr = [ScanStatusQueued]
  | PcStarted | PcVersion | PcStreaming =>
      tr = [ScanStatusQueued; ScanStatusRunning]
  | PcFinished =>
      tr = [ScanStatusQueued; ScanStatusRunning; ScanStatusCompleted]
      \/ tr = [ScanStatusQueued; ScanStatusRunning; ScanStatusFailed]
  end.

(** The histories of a status field: of a record created by this process,
    and of a record loaded at its start. *)
Definition legal_trace (loaded : option ScanTask) (tr : list ScanStatus) : Prop :=
  match loaded with
  | None =>
      tr = [ScanStatusQueued]
      \/ tr = [ScanStatusQueued; ScanStatusRunning]
      \/ tr = [ScanStatusQueued; ScanStatusRunning; ScanStatusCompleted]
      \/ tr = [ScanStatusQueued; ScanStatusRunning; ScanStatusFailed]
  | Some t0 =>
      (Status t0 <> ScanStatusRunning /\ tr = [Status t0])
      \/ (Status t0 = ScanStatusRunning
          /\ tr = [ScanStatusRunning; ScanStatusFailed])
  end.

(** The invariant of the scheduler, on what the statements observe of a
    state: the record behind each id, the history of each status field,
    the scan goroutines, the length of the worker pool channel and the
    configuration. *)
Record inv (loaded : gmap string ScanTask) (config : TrivyConfig)
    (lk : string -> option ScanTask) (tr : gmap string (list ScanStatus))
    (scans : list (string * Pc)) (pool : nat) (cfg : TrivyConfig) : Prop :=
  mkInv {
    inv_config : cfg = config;
    inv_pool_len : length scans = pool;
    inv_pool_cap : (pool <= Z.to_nat (maxWorkers config))%nat;
    inv_keyed : forall id t, lk id = Some t -> ID t = id;
    inv_last : forall id t, lk id = Some t ->
      exists h, tr !! id = Some h /\ last h = Some (Status t);
    inv_loaded : forall id, is_Some (loaded !! id) -> is_Some (tr !! id);
    inv_legal : forall id h, tr !! id = Some h -> legal_trace (loaded !! id) h;
    inv_scan : forall i id pc, scans !! i = Some (id, pc) ->
      loaded !! id = None /\ exists h, tr !! id = Some h /\ pc_trace pc h;
    inv_nodup : NoDup scans.*1;
    inv_exec : forall id,
      tr !! id = Some [ScanStatusQueued; ScanStatusRunning] ->
      exists pc, (id, pc) ∈ scans /\ executing pc = true
  }.

(** Assignment through the pointer to the record of [id]. *)
Definition upd (lk : string -> option ScanTask) (id : string) (t : ScanTask)
    : string -> option ScanTask :=
  fun id' => if decide (id' = id) then Some t else lk id'.

Definition sched_inv (fs : gmap (string * string) ScanTask)
    (config : TrivyConfig) (s : State) : Prop :=
  inv (loadTasks fs) config (fun id => lookup_task id s) (st_trace s)
    (st_scans s) (st_pool s) (st_config s).

End SchedSpec.

Module Samples.
Import Models Repository Service.

Definition hub_sample_task : ScanTask :=
  set_LogListeners [0%nat; 1%nat]
    (NewScanTask "t1" "alice" "alpine:latest"
       (mkScanConfig "" "" true [] false ["vuln"] "precise" [] "json") 0).

Definition hub_sample_chans : ChanStore :=
  [mkChan [] 100 false; mkChan (replicate 100 "x") 100 false].

Definition store_sample_task : ScanTask :=
  NewScanTask "t1" "alice" "alpine:latest"
    (mkScanConfig "" "" true [] false ["vuln"] "precise" [] "json") 0.

Definition store_sample_repo : FileScanRepository :=
  fst (Create true store_sample_task (mkFileScanRepository ∅ ∅)).

Definition five_tasks : TaskMap :=
  list_to_map
    ((fun i : Z =>
        let id := "task-" +:+ pretty i in
        (id, NewScanTask id "alice" "alpine:latest"
               (mkScanConfig "" "" true [] false ["vuln"] "precise" [] "json") i))
     <$> [1; 2; 3; 4; 5]).

Definition retention_task (id : string) (st : ScanStatus) (ended : option Z)
    : ScanTask :=
  set_EndTime ended
    (set_Status st
       (NewScanTask id "alice" "alpine:latest"
          (mkScanConfig "" "" true [] false ["vuln"] "precise" [] "json") 10)).

Definition retention_tasks : TaskMap :=
  <[ID (retention_task "done-old" ScanStatusCompleted (Some 20))
      := retention_task "done-old" ScanStatusCompleted (Some 20)]>
    (<[ID (retention_task "running-old" ScanStatusRunning None)
         := retention_task "running-old" ScanStatusRunning None]>
       (<[ID (retention_task "done-new" ScanStatusFailed (Some 200))
            := retention_task "done-new" ScanStatusFailed (Some 200)]> ∅)).

Definition retention_state : State :=
  NewScanService (mkFileScanRepository ∅ retention_tasks)
    (mkTrivyConfig "http://trivy:4954" 600 0 0).

(** The same store with a failed record that has no end time and with the
    failed record whose scan ended late. *)
Definition sweep_tasks : TaskMap :=
  <[ID (retention_task "failed-open" ScanStatusFailed None)
      := retention_task "failed-open" ScanStatusFailed None]> retention_tasks.

Definition sweep_state : State :=
  NewScanService (mkFileScanRepository ∅ sweep_tasks)
    (mkTrivyConfig "http://trivy:4954" 600 0 0).

Definition masking_config : TrivyConfig :=
  mkTrivyConfig "http://trivy:4954" 600 5 90.

Definition masking_task (username password : string) : ScanTask :=
  NewScanTask "t1" "alice" "registry.local/app:1"
    (mkScanConfig username password true ["HIGH"; "CRITICAL"] false ["vuln"]
       "precise" [] "json") 0.

Definition sample_format : Z -> string := fun _ => "2025-10-01T10:30:45Z".

Definition one_worker : TrivyConfig := mkTrivyConfig "http://trivy:4954" 600 1 0.

Definition sample_request : ScanRequest :=
  mkScanRequest "alpine:latest" "" "" None [] false [] "" [] "".

(** Worker limit 1; A, B and C are submitted in this order; the scan of A
    runs to its end and gives its slot back. *)
Definition abc_events : list Event :=
  [EvCreateScanTask "A" "alice" sample_request 1 true;
   EvCreateScanTask "B" "alice" sample_request 2 true;
   EvCreateScanTask "C" "alice" sample_request 3 true;
   EvScanBegin 0 4 true;
   EvScanVersion 0 (inl "connection refused") true;
   EvScanCommand 0;
   EvScanLine 0 "scanning";
   EvScanFinish 0 9 (CmdOk "{}" None (inr "/reports/A.json")) true;
   EvScanRelease 0].

Definition abc_state : option State :=
  s0 ← boot sample_format ∅ one_worker (fun _ => 0) (fun _ => true);
  run sample_format abc_events s0.



End Samples.

(** ** Statements about the repositories *)

Module RepoSpec.
Import Models Repository.

(** The file of a record is [scans/<UserID>/scan_<ID>.json] under the
    base directory, and [loadTasks] reads the files that lie directly in a
    directory directly under [scans].  The two agree for a record whose
    user id is the name of a directory (not empty, not "." or "..", no
    separator) and whose id has no separator; the pair of user id and id
    stands for the path of such a record only. *)
Definition no_separator (s : string) : Prop := String.index 0 "/" s = None.

Definition plain_path (t : ScanTask) : Prop :=
  UserID t <> "" /\ UserID t <> "." /\ UserID t <> ".."
  /\ no_separator (UserID t) /\ no_separator (ID t).

(** The scan files and the index of a [FileScanRepository] agree: every
    indexed record has its file, in the directory of its user and with
    its content as written by [saveTaskToFile], there is no other scan
    file, and the paths are plain. *)
Definition disk_mirror (r : FileScanRepository) : Prop :=
  Spec.keyed (tasks r)
  /\ (forall id t, tasks r !! id = Some t ->
        files r !! (UserID t, id) = Some (persisted t))
  /\ (forall u id f, files r !! (u, id) = Some f ->
        exists t, tasks r !! id = Some t /\ UserID t = u)
  /\ (forall id t, tasks r !! id = Some t -> plain_path t).

(** Two records for the samples of the repositories. *)
Definition scan_a : ScanTask :=
  NewScanTask "a" "alice" "alpine:3.19"
    (mkScanConfig "" "" true [] false ["vuln"] "precise" [] "json") 10.

Definition scan_a_running : ScanTask :=
  set_LogLines ["Starting scan"] (set_Status ScanStatusRunning scan_a).

Definition repo_a : FileScanRepository :=
  fst (Create true scan_a (mkFileScanRepository ∅ ∅)).

End RepoSpec.

(** ** The queries of the service *)

Module Queries.
Import Models Repository Service.

Record TaskSummary : Set := mkTaskSummary {
  SumID : string;
  SumImage : string;
  SumStatus : string;
  SumMessage : string;
  SumStartTime : Z;
  SumEndTime : option Z;
  SumQueuePosition : Z;
  SumSummary : option VulnerabilitySummary
}.

(** [ToSummary]. *)
Definition ToSummary (t : ScanTask) : TaskSummary :=
  mkTaskSummary (ID t) (Image t) (Status t) (Message t) (StartTime t)
    (EndTime t) (QueuePosition t)
    (match Result t with
     | Some r => ResSummary r
     | None => None
     end).

Definition set_SumQueuePosition (p : Z) (s : TaskSummary) : TaskSummary :=
  mkTaskSummary (SumID s) (SumImage s) (SumStatus s) (SumMessage s)
    (SumStartTime s) (SumEndTime s) p (SumSummary s).

Record TaskListResponse : Set := mkTaskListResponse {
  RespTotal : Z;
  RespPage : Z;
  RespPageSize : Z;
  RespTasks : list TaskSummary
}.

(** The defaults that [ListTasks] writes into the request. *)
Definition list_defaults (req : TaskListRequest) : TaskListRequest :=
  let page := if Page req <? 1 then 1 else Page req in
  let pageSize := if (PageSize req <? 1) || (100 <? PageSize req) then 20
                  else PageSize req in
  let sortBy := if bool_decide (SortBy req = "") then "startTime"
                else SortBy req in
  let sortOrder := if bool_decide (SortOrder req = "") then "desc"
                   else SortOrder req in
  mkTaskListRequest page pageSize (FilterStatus req) sortBy sortOrder.

(** The inner loop of [ListTasks] over the summaries: the first summary
    with this id gets the position, then [break]. *)
Fixpoint set_position (id : string) (pos : Z) (summaries : list TaskSummary)
    : list TaskSummary :=
  match summaries with
  | [] => []
  | s :: rest =>
      if bool_decide (SumID s = id) then set_SumQueuePosition pos s :: rest
      else s :: set_position id pos rest
  end.

(** The outer loop [for i, qt := range queuedTasks], from index [i] on.
    The position [i + 1] is at most the length of a slice, so it does not
    leave the range of [int]. *)
Fixpoint queue_positions (i : nat) (queuedTasks : list ScanTask)
    (summaries : list TaskSummary) : list TaskSummary :=
  match queuedTasks with
  | [] => summaries
  | qt :: rest =>
      queue_positions (S i) rest
        (set_position (ID qt) (Z.of_nat i + 1) summaries)
  end.

(** [ListTasks] on the task map of the repository.  [List] and
    [GetQueuedTasks] return no error, so the outcome is the response, or
    [None] for a panic. *)
Definition ListTasks (userID : string) (req : TaskListRequest) (m : TaskMap)
    : option TaskListResponse :=
  let req := list_defaults req in
  match List userID req m with
  | None => None
  | Some (tasks, total) =>
      let summaries := ToSummary <$> tasks in
      let queuedTasks := GetQueuedTasks userID m in
      Some (mkTaskListResponse total (Page req) (PageSize req)
              (queue_positions 0 queuedTasks summaries))
  end.

(** [GetQueueStatus].  The average wait is [float64(len) * 30.0] seconds;
    the product is an integer that a [float64] holds exactly for every
    length below 2^48. *)
Record QueueStatusResponse : Set := mkQueueStatusResponse {
  QueueLength : Z;
  AverageWaitTime : Z
}.

Definition GetQueueStatus (userID : string) (m : TaskMap) : QueueStatusResponse :=
  let queuedTasks := GetQueuedTasks userID m in
  mkQueueStatusResponse (Z.of_nat (length queuedTasks))
    (Z.of_nat (length queuedTasks) * 30).

(** [DeleteAllTasks]: the first page of 10000 records of the user, each
    removed from the repository; a removal that fails is logged and the
    loop goes on.  The report files are outside the task store. *)
Definition DeleteAllTasks (userID : string) (disk_ok : string -> bool)
    (s : State) : option State :=
  match List userID (mkTaskListRequest 1 10000 "" "" "") (tasks (st_repo s)) with
  | None => None
  | Some (tasks_, _) =>
      Some (foldl (fun s task => DeleteTask (disk_ok (ID task)) (ID task) s)
              s tasks_)
  end.



(** The records of a user that pass the status filter of a request. *)
Definition matching (userID : string) (flt : TaskListRequest) (m : TaskMap)
    : list ScanTask :=
  List.filter (list_match userID flt) (range_tasks m).

End Queries.

(** ** One scan from its start to its end *)

Module Run.
Import Models Service.

(** The callback that [executeScan] hands to [ExecuteCommand]: one
    [AddLog] for each line of output. *)
Fixpoint stream_lines (lines : list string) (t : ScanTask) (chans : ChanStore)
    : option (ScanTask * ChanStore) :=
  match lines with
  | [] => Some (t, chans)
  | line :: rest =>
      r ← AddLog line t chans;
      stream_lines rest r.1 r.2
  end.

Section WithFormat.

Variable RFC3339 : Z -> string.

(** [executeScan] from its entry to its return, on the record and the
    channels, when no other goroutine touches them in between.  The
    calls of [s.repo.Update] write the record to the repository and do
    not change it. *)
Definition executeScan (config : TrivyConfig) (started : Z)
    (v : string + TrivyVersion) (lines : list string) (ended : Z)
    (o : CmdOutcome) (t : ScanTask) (chans : ChanStore)
    : option (ScanTask * ChanStore) :=
  r1 ← scan_begin RFC3339 started t chans;
  r2 ← scan_version RFC3339 v r1.1 r1.2;
  r3 ← scan_command config r2.1 r2.2;
  r4 ← stream_lines lines r3.1 r3.2;
  scan_finish RFC3339 ended o r4.1 r4.2.

(** The lines that the version block logs. *)
Definition db_line (label : string) (db : option DatabaseInfo) : list string :=
  match db with
  | None => []
  | Some d => [label +:+ ": v" +:+ pretty (DBVersion d) +:+ " (updated: "
               +:+ RFC3339 (UpdatedAt d) +:+ ")"]
  end.

Definition version_lines (v : string + TrivyVersion) : list string :=
  match v with
  | inl err => ["Warning: Could not fetch Trivy Server version: " +:+ err]
  | inr version =>
      ["Trivy Server version: " +:+ Version version]
      ++ db_line "Vulnerability DB" (VulnerabilityDB version)
      ++ db_line "Java DB" (JavaDB version)
  end.

(** The text that [failTask] is called with, if it is called. *)
Definition failure_text (o : CmdOutcome) : option string :=
  match o with
  | CmdTimeout => Some "Scan timeout exceeded"
  | CmdError err stderr => Some ("Scan failed: " +:+ err +:+ "
" +:+ stderr)
  | CmdOk _ _ _ => None
  end.

(** The lines logged after the command has ended. *)
Definition finish_lines (ended : Z) (o : CmdOutcome) : list string :=
  match o with
  | CmdOk _ _ report =>
      match report with
      | inl _ => []
      | inr reportPath => ["Report saved to: " +:+ reportPath]
      end
      ++ ["Scan completed at " +:+ RFC3339 ended]
  | _ =>
      ["ERROR: " +:+ default "" (failure_text o);
       "Scan failed at " +:+ RFC3339 ended]
  end.

End WithFormat.

Definition run_task : ScanTask :=
  set_LogListeners [0%nat]
    (NewScanTask "t1" "alice" "alpine:3.19"
       (mkScanConfig "" "" true [] false ["vuln"] "precise" [] "json") 10).

Definition run_chans : ChanStore := [mkChan [] 100 false].

Definition run_config : TrivyConfig := mkTrivyConfig "" 600 5 90.

(** One worker, and a first task that holds it. *)
Definition busy_state : option State :=
  s0 ← boot Samples.sample_format ∅ Samples.one_worker (fun _ => 0)
         (fun _ => true);
  step Samples.sample_format
    (EvCreateScanTask "A" "alice" Samples.sample_request 1 true) s0.

End Run.

(** ** Summary and report of a finished scan *)

Module Reports.
Import Models Repository.

(** What [parseVulnerabilitySummary] decodes of the Trivy output: for
    each result the severities of its vulnerabilities. *)
Abbreviation TrivyOutput := (list (list string)).

(** The body of the inner loop: [summary.Total++] and the [switch]. *)
Definition count_one (summary : VulnerabilitySummary) (severity : string)
    : VulnerabilitySummary :=
  let total := wrap64 (Total summary + 1) in
  if bool_decide (severity = "CRITICAL") then
    mkVulnerabilitySummary total (wrap64 (Critical summary + 1)) (High summary)
      (Medium summary) (Low summary) (Unknown summary)
  else if bool_decide (severity = "HIGH") then
    mkVulnerabilitySummary total (Critical summary) (wrap64 (High summary + 1))
      (Medium summary) (Low summary) (Unknown summary)
  else if bool_decide (severity = "MEDIUM") then
    mkVulnerabilitySummary total (Critical summary) (High summary)
      (wrap64 (Medium summary + 1)) (Low summary) (Unknown summary)
  else if bool_decide (severity = "LOW") then
    mkVulnerabilitySummary total (Critical summary) (High summary)
      (Medium summary) (wrap64 (Low summary + 1)) (Unknown summary)
  else
    mkVulnerabilitySummary total (Critical summary) (High summary)
      (Medium summary) (Low summary) (wrap64 (Unknown summary + 1)).

(** [parseVulnerabilitySummary]; [decoded] is the outcome of
    [json.Unmarshal], [None] for an error. *)
Definition parseVulnerabilitySummary (decoded : option TrivyOutput)
    : option VulnerabilitySummary :=
  match decoded with
  | None => None
  | Some results =>
      Some (foldl (fun summary result => foldl count_one summary result)
              (mkVulnerabilitySummary 0 0 0 0 0 0) results)
  end.

(** The number of vulnerabilities of a severity. *)
Definition count_of (severity : string) (out : TrivyOutput) : Z :=
  Z.of_nat (length (filter (fun s => s = severity) (concat out))).

(** The report files under [reports/users]: the directory of the user and
    the file name give the content.  As for the scan files, the two
    components stand for the path when the user id is the name of a
    directory and the file name has no separator. *)
Abbreviation ReportStore := (gmap (string * string) string).


(** [fmt.Sprintf("%s.%s", taskID, ext)]. *)
Definition report_name (taskID ext : string) : string :=
  taskID +:+ "." +:+ ext.



(** One round of the loop of [deleteReport] over the extensions: a file
    that does not exist is skipped; [disk_ok] tells for a file name whether
    [Stat] and [Remove] succeed on it.  [None] is the error return. *)
Definition delete_ext (disk_ok : string -> bool) (dir taskID ext : string)
    (acc : ReportStore * Z) : option (ReportStore * Z) :=
  let name := report_name taskID ext in
  match acc.1 !! (dir, name) with
  | None => Some acc
  | Some data =>
      if disk_ok name
      then Some (delete (dir, name) acc.1,
                 wrap64 (acc.2 + Z.of_nat (String.length data)))
      else None
  end.

(** [deleteReport]: the files that are left, and the size deleted or
    [None] for an error. *)
Definition deleteReport (disk_ok : string -> bool) (taskID : string)
    (m : TaskMap) (rs : ReportStore) : ReportStore * option Z :=
  match GetByID taskID m with
  | None => (rs, None)
  | Some task =>
      match delete_ext disk_ok (UserID task) taskID "json" (rs, 0) with
      | None => (rs, None)
      | Some r1 =>
          match delete_ext disk_ok (UserID task) taskID "txt" r1 with
          | None => (r1.1, None)
          | Some r2 => (r2.1, Some r2.2)
          end
      end
  end.

Definition sample_output : TrivyOutput :=
  [["CRITICAL"; "HIGH"; "critical"]; []; ["LOW"; "HIGH"; "NEGLIGIBLE"]].

Definition report_task (format : string) : ScanTask :=
  NewScanTask "t1" "alice" "alpine:3.19"
    (mkScanConfig "" "" true [] false ["vuln"] "precise" [] format) 10.

End Reports.

(** ** Directory names of the users *)

Module Sanitize.
Import Stdlib.Strings.Ascii.

(** A rune, as [for _, r := range identifier] yields it: a code point. *)
Definition rune : Set := N.

Definition allowed : string :=
  "abcdefghijklmnopqrstuvwxyzABCDEFGHIJKLMNOPQRSTUVWXYZ0123456789._-@".

(** [strings.ContainsRune] on a string of ASCII characters. *)
Definition ContainsRune (s : string) (r : rune) : bool :=
  bool_decide (r ∈ (Ascii.N_of_ascii <$> String.list_ascii_of_string s)).

(** The body of the loop over the runes: what the builder gets. *)
Definition write_rune (r : rune) : ascii :=
  if ContainsRune allowed r then Ascii.ascii_of_N r else "-"%char.

(** [strings.ReplaceAll(safe, "..", "-")]: the occurrences that do not
    overlap, from the left. *)
Fixpoint ReplaceAll_dots (s : list ascii) : list ascii :=
  match s with
  | [] => []
  | c :: tl =>
      match tl with
      | d :: rest =>
          if bool_decide (c = "."%char) && bool_decide (d = "."%char)
          then "-"%char :: ReplaceAll_dots rest
          else c :: ReplaceAll_dots tl
      | [] => [c]
      end
  end.

(** The cutset "-_." of [strings.Trim]. *)
Definition in_cutset (c : ascii) : bool :=
  bool_decide (c = "-"%char) || bool_decide (c = "_"%char)
  || bool_decide (c = "."%char).

Fixpoint TrimLeft (s : list ascii) : list ascii :=
  match s with
  | [] => []
  | c :: rest => if in_cutset c then TrimLeft rest else s
  end.

Fixpoint TrimRight (s : list ascii) : list ascii :=
  match s with
  | [] => []
  | c :: rest =>
      match TrimRight rest with
      | [] => if in_cutset c then [] else [c]
      | kept => c :: kept
      end
  end.

Definition Trim (s : list ascii) : list ascii := TrimRight (TrimLeft s).

(** [hex.EncodeToString]. *)
Definition hex_digit (n : N) : ascii :=
  nth (N.to_nat n) (String.list_ascii_of_string "0123456789abcdef") "0"%char.

Definition EncodeToString (src : list Byte.byte) : list ascii :=
  src ≫= fun b => [hex_digit (Byte.to_N b / 16); hex_digit (Byte.to_N b mod 16)].

Section WithLibraries.

(** The runes that the [range] loop decodes from the bytes of a string,
    and [sha256.Sum256] of the bytes. *)
Variable decode_runes : string -> list rune.
Variable Sum256 : string -> list Byte.byte.

(** [sanitizeUserIdentifier]; the result as the list of its bytes. *)
Definition sanitizeUserIdentifier (identifier : string) : list ascii :=
  if bool_decide (identifier = "") then []
  else
    let safe := write_rune <$> decode_runes identifier in
    let safe := ReplaceAll_dots safe in
    let safe := Trim safe in
    if bool_decide (safe = []) then EncodeToString (take 8 (Sum256 identifier))
    else if (128 <? length safe)%nat then take 128 safe
    else safe.

End WithLibraries.

(** For the samples: a decoder for strings of ASCII characters, and a
    constant in the place of the hash. *)
Definition ascii_runes (s : string) : list rune :=
  Ascii.N_of_ascii <$> String.list_ascii_of_string s.

Definition zero_sum (s : string) : list Byte.byte := replicate 32 Byte.x00.

End Sanitize.

(** * Properties *)

(** ** Machine integers *)

Lemma wrap64_id z : int64_range z -> wrap64 z = z.
Proof.
  unfold int64_range, wrap64. intros H.
  rewrite Z.mod_small; lia.
Qed.

Lemma wrap64_range z : int64_range (wrap64 z).
Proof.
  unfold int64_range, wrap64.
  pose proof (Z.mod_pos_bound (z + 2 ^ 63) (2 ^ 64) ltac:(lia)). lia.
Qed.


(** ** The log hub of a task *)

Module LogHub.
Import Models Spec Samples.

Lemma listener_ok_insert_ne chans h h' c :
  h <> h' -> listener_ok chans h' -> listener_ok (<[h := c]> chans) h'.
Proof.
  intros Hne (c' & Hl & Hc & Hcap). exists c'.
  rewrite list_lookup_insert_ne; auto.
Qed.

Lemma broadcast_spec line ls :
  forall chans,
    NoDup ls -> Forall (listener_ok chans) ls ->
    exists chans',
      broadcast line ls chans = Some chans'
      /\ length chans' = length chans
      /\ forall h, chans' !! h = deliver line (bool_decide (h ∈ ls)) <$> chans !! h.
Proof.
  induction ls as [|h0 ls IH]; intros chans Hnd Hok.
  - exists chans. split; [done|]. split; [done|].
    intros h. unfold deliver. simpl. by destruct (chans !! h).
  - apply NoDup_cons in Hnd as [Hnotin Hnd].
    apply Forall_cons in Hok as [(c0 & Hl0 & Hc0 & Hcap0) Hok].
    simpl. rewrite Hl0. unfold try_send. rewrite Hc0.
    set (c1 := deliver line true c0).
    assert (Hc1 : (if (length (ch_buf c0) <? ch_cap c0)%nat
                   then Some (mkChan (ch_buf c0 ++ [line]) (ch_cap c0) false)
                   else Some c0) = Some c1).
    { subst c1. unfold deliver. simpl. rewrite Hc0. by destruct (_ <? _)%nat. }
    rewrite Hc1.
    destruct (IH (<[h0 := c1]> chans)) as (chans' & Hb & Hlen & Hlk); [done| |].
    { apply Forall_forall. intros h Hin.
      apply listener_ok_insert_ne; [set_solver|].
      rewrite Forall_forall in Hok. auto. }
    exists chans'. split; [done|]. split.
    { by rewrite Hlen, length_insert. }
    intros h. rewrite Hlk.
    destruct (decide (h = h0)) as [->|Hne].
    + rewrite list_lookup_insert_eq by (by eapply lookup_lt_Some).
      rewrite Hl0. simpl.
      rewrite (bool_decide_eq_false_2 _ Hnotin).
      rewrite bool_decide_eq_true_2 by set_solver.
      done.
    + rewrite list_lookup_insert_ne by done.
      destruct (chans !! h) as [c|]; [|done]. simpl. do 2 f_equal.
      apply bool_decide_ext. set_solver.
Qed.

(** C9. [AddLog] returns normally on every well-formed hub, whatever the
    fill of the listeners' channels.  It changes the record only in
    [LogLines], which gains the line at its end; each listener's channel
    gains the line once when it has room (capacity 100) and is left as it
    is when it is full; no other channel changes. *)
Theorem AddLog_append_only (line : string) (t : ScanTask) (chans : ChanStore) :
  hub_wf t chans ->
  exists chans',
    AddLog line t chans = Some (set_LogLines (LogLines t ++ [line]) t, chans')
    /\ LogLines (set_LogLines (LogLines t ++ [line]) t) = LogLines t ++ [line]
    /\ length chans' = length chans
    /\ (forall h c, chans !! h = Some c ->
          chans' !! h = Some (deliver line (bool_decide (h ∈ LogListeners t)) c))
    /\ (forall h c, h ∈ LogListeners t -> chans !! h = Some c ->
          ch_cap c = 100%nat
          /\ (length (ch_buf c) = 100%nat -> chans' !! h = Some c)).
Proof.
  intros [Hnd Hok].
  destruct (broadcast_spec line (LogListeners t) chans Hnd Hok)
    as (chans' & Hb & Hlen & Hlk).
  exists chans'. unfold AddLog. simpl. rewrite Hb.
  split; [done|]. split; [done|]. split; [done|]. split.
  - intros h c Hc. by rewrite Hlk, Hc.
  - intros h c Hin Hc.
    rewrite Forall_forall in Hok. destruct (Hok h Hin) as (c' & Hc' & _ & Hcap).
    assert (c' = c) as -> by congruence.
    split; [done|]. intros Hfull.
    rewrite Hlk, Hc. simpl. unfold deliver.
    rewrite Hfull, Hcap. simpl. by rewrite andb_false_r.
Qed.

Lemma hub_sample_wf : hub_wf hub_sample_task hub_sample_chans.
Proof.
  split.
  - simpl. repeat constructor; set_solver.
  - simpl. repeat constructor.
    + exists (mkChan [] 100 false). repeat split.
    + exists (mkChan (replicate 100 "x") 100 false). repeat split.
Qed.

Lemma AddLog_append_only_witness :
  hub_wf hub_sample_task hub_sample_chans
  /\ exists chans',
       AddLog "line" hub_sample_task hub_sample_chans
       = Some (set_LogLines (LogLines hub_sample_task ++ ["line"]) hub_sample_task, chans').
Proof.
  split; [exact hub_sample_wf|].
  destruct (AddLog_append_only "line" hub_sample_task hub_sample_chans hub_sample_wf)
    as (chans' & Hadd & _).
  exists chans'. exact Hadd.
Defined.

End LogHub.

(** ** The task store *)

Module TaskStore.
Import Models Repository Samples.

Lemma Create_exists disk_ok task r :
  is_Some (tasks r !! ID task) ->
  Create disk_ok task r = (r, Some (ErrAlreadyExists (ID task))).
Proof. intros [t Ht]. unfold Create. by rewrite Ht. Qed.

Lemma Update_absent disk_ok task r :
  tasks r !! ID task = None ->
  Update disk_ok task r = (r, Some (ErrNotExist (ID task))).
Proof. intros Ht. unfold Update. by rewrite Ht. Qed.

Lemma Delete_absent disk_ok id r :
  tasks r !! id = None -> Delete disk_ok id r = (r, Some (ErrNotExist id)).
Proof. intros Ht. unfold Delete. by rewrite Ht. Qed.

Lemma Create_write_fails task r :
  tasks r !! ID task = None ->
  Create false task r = (r, Some ErrStorage).
Proof. intros Ht. unfold Create. by rewrite Ht. Qed.

Lemma Delete_ok_absent disk_ok id r r' :
  Delete disk_ok id r = (r', None) -> tasks r' !! id = None.
Proof.
  unfold Delete. destruct (tasks r !! id); [|done].
  unfold deleteTaskFile. destruct disk_ok; [|done].
  intros [= <-]. simpl. apply lookup_delete_eq.
Qed.

(** C7. [Create] on a present id answers "already exists" and leaves the
    repository as it is; [Update] and [Delete] on an absent id answer
    "does not exist" and leave it as it is; when the file write of
    [Create] fails the error comes back and the map of tasks has no entry
    for the task; after a [Delete] that succeeded, [GetByID] finds
    nothing, as for an id that was never there. *)
Theorem store_errors_change_nothing
    (disk_ok : bool) (task : ScanTask) (id : string) (r : FileScanRepository) :
  (is_Some (tasks r !! ID task) ->
     Create disk_ok task r = (r, Some (ErrAlreadyExists (ID task))))
  /\ (tasks r !! ID task = None ->
        Update disk_ok task r = (r, Some (ErrNotExist (ID task))))
  /\ (tasks r !! id = None ->
        Delete disk_ok id r = (r, Some (ErrNotExist id)))
  /\ (tasks r !! ID task = None ->
        snd (Create false task r) = Some ErrStorage
        /\ tasks (fst (Create false task r)) = tasks r
        /\ GetByID (ID task) (tasks (fst (Create false task r))) = None)
  /\ (forall r', Delete disk_ok id r = (r', None) ->
        GetByID id (tasks r') = None
        /\ GetByID id (tasks r') = GetByID id (tasks (mkFileScanRepository ∅ ∅))).
Proof.
  split; [apply Create_exists|].
  split; [apply Update_absent|].
  split; [apply Delete_absent|].
  split.
  - intros Ht. rewrite (Create_write_fails _ _ Ht). simpl. unfold GetByID. auto.
  - intros r' Hd. unfold GetByID.
    rewrite (Delete_ok_absent _ _ _ _ Hd). simpl. by rewrite lookup_empty.
Qed.

Lemma store_errors_change_nothing_witness :
  Create true store_sample_task store_sample_repo
    = (store_sample_repo, Some (ErrAlreadyExists "t1"))
  /\ Delete true "t2" store_sample_repo = (store_sample_repo, Some (ErrNotExist "t2"))
  /\ GetByID "t1" (tasks (fst (Delete true "t1" store_sample_repo))) = None.
Proof.
  pose proof (store_errors_change_nothing true store_sample_task "t2" store_sample_repo)
    as (Hc & _ & Hd & _).
  pose proof (store_errors_change_nothing true store_sample_task "t1" store_sample_repo)
    as (_ & _ & _ & _ & Hg).
  split; [apply Hc; vm_compute; eauto|].
  split; [apply Hd; vm_compute; reflexivity|].
  apply (Hg (fst (Delete true "t1" store_sample_repo))). vm_compute. reflexivity.
Defined.

End TaskStore.

(** ** Pages of the task list *)

Module Paging.
Import Models Repository Samples.

Lemma stdlib_filter_length {A} (f : A -> bool) (l : list A) :
  length (List.filter f l) = length (filter (fun x => f x = true) l).
Proof.
  induction l as [|x l IH]; [done|]. simpl.
  rewrite filter_cons. destruct (f x) eqn:E.
  - rewrite decide_True by done. simpl. by rewrite IH.
  - rewrite decide_False by congruence. done.
Qed.

Lemma filter_snd_length {K A} (P : A -> Prop) `{!forall x, Decision (P x)}
    (l : list (K * A)) :
  length (filter P l.*2) = length (filter (fun kv => P kv.2) l).
Proof.
  induction l as [|[k x] l IH]; [done|].
  rewrite fmap_cons, !filter_cons. cbn [snd].
  destruct (decide (P x)); cbn [length]; by rewrite IH.
Qed.

Lemma map_to_list_filter_perm (P : string * ScanTask -> Prop)
    `{!forall x, Decision (P x)} (m : TaskMap) :
  filter P (map_to_list m) ≡ₚ map_to_list (filter P m).
Proof.
  apply NoDup_Permutation.
  - apply NoDup_filter, NoDup_map_to_list.
  - apply NoDup_map_to_list.
  - intros [k x]. rewrite list_elem_of_filter, !elem_of_map_to_list.
    rewrite map_lookup_filter_Some. tauto.
Qed.

(** The number of records that pass the filter loop of [List] is the
    number of entries of the map that match. *)
Lemma matching_count userID flt (m : TaskMap) :
  length (List.filter (list_match userID flt) (range_tasks m))
  = size (filter (fun kv : string * ScanTask =>
                    list_match userID flt kv.2 = true) m).
Proof.
  unfold range_tasks.
  rewrite stdlib_filter_length, filter_snd_length.
  rewrite (map_to_list_filter_perm _ m).
  by rewrite length_map_to_list.
Qed.

Lemma sortTasks_perm l sortBy sortOrder : sortTasks l sortBy sortOrder ≡ₚ l.
Proof. unfold sortTasks, sort_slice. apply merge_sort_Permutation. Qed.

Lemma sortTasks_length l sortBy sortOrder :
  length (sortTasks l sortBy sortOrder) = length l.
Proof. by rewrite sortTasks_perm. Qed.

(** Where [List] pages as it should: for a page number from 1 on (a
    64-bit integer) and a page size that is not negative, with an end
    offset [Page*PageSize] inside the 64-bit integers, [List] returns
    without error the slice of the sorted matching records that starts at
    offset [(Page-1)*PageSize] and has at most [PageSize] elements,
    together with the number of matching records of the store; when the
    start offset is at or past that number the slice is empty. *)
Lemma List_page (userID : string) (flt : TaskListRequest) (m : TaskMap) :
  1 <= Page flt < 2 ^ 63 -> 0 <= PageSize flt ->
  Page flt * PageSize flt < 2 ^ 63 ->
  let matching := List.filter (list_match userID flt) (range_tasks m) in
  let sorted := sortTasks matching (SortBy flt) (SortOrder flt) in
  let total :=
    Z.of_nat (size (filter (fun kv : string * ScanTask =>
                              list_match userID flt kv.2 = true) m)) in
  let start := (Page flt - 1) * PageSize flt in
  sorted ≡ₚ matching
  /\ List userID flt m
     = Some (take (Z.to_nat (PageSize flt)) (drop (Z.to_nat start) sorted), total)
  /\ (total <= start -> List userID flt m = Some ([], total)).
Proof.
  intros Hp Hs Hb matching sorted total start.
  assert (Hperm : sorted ≡ₚ matching) by apply sortTasks_perm.
  assert (Htot : total = Z.of_nat (length matching)).
  { subst total matching. by rewrite matching_count. }
  assert (Hlen : length sorted = length matching) by (by rewrite Hperm).
  assert (Hstart : 0 <= start <= Page flt * PageSize flt).
  { unfold start. split; [apply Z.mul_nonneg_nonneg; lia|].
    apply Z.mul_le_mono_nonneg_r; lia. }
  assert (Hw1 : wrap64 (Page flt - 1) = Page flt - 1).
  { apply wrap64_id. unfold int64_range. lia. }
  assert (Hw2 : wrap64 ((Page flt - 1) * PageSize flt) = start).
  { apply wrap64_id. unfold int64_range. lia. }
  assert (Hw3 : wrap64 (start + PageSize flt) = start + PageSize flt).
  { apply wrap64_id. unfold int64_range.
    replace (start + PageSize flt) with (Page flt * PageSize flt)
      by (unfold start; ring).
    lia. }
  assert (Hlist : List userID flt m
     = Some (take (Z.to_nat (PageSize flt)) (drop (Z.to_nat start) sorted), total)).
  { unfold List. fold matching. fold sorted. rewrite Hw1, Hw2, Hw3, <- Htot.
    destruct (Z.leb_spec total start) as [Hge|Hlt].
    - rewrite drop_ge by lia. by rewrite take_nil.
    - unfold slice. rewrite Hlen, <- Htot.
      destruct (Z.ltb_spec total (start + PageSize flt)) as [Hclamp|Hin].
      + replace ((0 <=? start) && (start <=? total) && (total <=? total))
          with true by (symmetry; rewrite !andb_true_iff; repeat split; lia).
        do 2 f_equal.
        rewrite !take_ge; [done| |]; rewrite length_drop; lia.
      + replace ((0 <=? start) && (start <=? start + PageSize flt)
                 && (start + PageSize flt <=? total))
          with true by (symmetry; rewrite !andb_true_iff; repeat split; lia).
        do 3 f_equal. lia. }
  split; [done|]. split; [done|].
  intros Hge. rewrite Hlist. rewrite drop_ge by lia. by rewrite take_nil.
Qed.

(** Page 1,000,000 with page size 20 against 5 matching records: no
    record and the total 5. *)
Lemma List_page_witness :
  List "alice" (mkTaskListRequest 1000000 20 "" "startTime" "desc") five_tasks
  = Some ([], 5).
Proof.
  pose proof (List_page "alice"
                (mkTaskListRequest 1000000 20 "" "startTime" "desc") five_tasks
                ltac:(simpl; lia) ltac:(simpl; lia) ltac:(simpl; lia))
    as (_ & _ & Hempty).
  rewrite Hempty; [|vm_compute; congruence].
  f_equal.
Defined.

End Paging.

(** ** Frame lemmas of the service *)

Module ServiceFacts.
Import Models Repository Service Spec SchedSpec.

Lemma same_sched_refl s : same_sched s s.
Proof. by repeat split. Qed.

Lemma same_sched_trans s1 s2 s3 :
  same_sched s1 s2 -> same_sched s2 s3 -> same_sched s1 s3.
Proof.
  intros (H1 & H2 & H3 & H4) (H1' & H2' & H3' & H4').
  repeat split; congruence.
Qed.

Lemma store_task_same id t chans s : same_sched s (store_task id t chans s).
Proof. unfold same_sched, store_task. by destruct (tasks (st_repo s) !! id). Qed.

Lemma store_task_trace id t chans s :
  st_trace (store_task id t chans s) = st_trace s.
Proof. unfold store_task. by destruct (tasks (st_repo s) !! id). Qed.

Lemma update_task_inv id f s s' :
  update_task id f s = Some s' ->
  exists t t' chans',
    lookup_task id s = Some t
    /\ f t (st_chans s) = Some (t', chans')
    /\ s' = store_task id t' chans' s.
Proof.
  unfold update_task. intros H.
  destruct (lookup_task id s) as [t|] eqn:E1; [|done]. simpl in H.
  destruct (f t (st_chans s)) as [[t' chans']|] eqn:E2; [|done]. simpl in H.
  injection H as <-. exists t, t', chans'. repeat split; assumption.
Qed.

Lemma update_task_same id f s s' :
  update_task id f s = Some s' -> same_sched s s'.
Proof.
  intros (t & t' & chans' & _ & _ & ->)%update_task_inv.
  apply store_task_same.
Qed.

Lemma update_task_trace id f s s' :
  update_task id f s = Some s' -> st_trace s' = st_trace s.
Proof.
  intros (t & t' & chans' & _ & _ & ->)%update_task_inv.
  apply store_task_trace.
Qed.

Lemma repo_Update_same disk_ok id s : same_sched s (repo_Update disk_ok id s).
Proof. unfold same_sched, repo_Update. by destruct (lookup_task id s). Qed.

Lemma repo_Update_trace disk_ok id s :
  st_trace (repo_Update disk_ok id s) = st_trace s.
Proof. unfold repo_Update. by destruct (lookup_task id s). Qed.

Lemma record_status_same id st s : same_sched s (record_status id st s).
Proof. by repeat split. Qed.

Lemma DeleteTask_same disk_ok id s : same_sched s (DeleteTask disk_ok id s).
Proof.
  unfold DeleteTask. destruct (tasks (st_repo s) !! id); [|apply same_sched_refl].
  destruct (Delete disk_ok id (st_repo s)) as [r [e|]]; by repeat split.
Qed.

Lemma DeleteTask_trace disk_ok id s :
  st_trace (DeleteTask disk_ok id s) = st_trace s.
Proof.
  unfold DeleteTask. destruct (tasks (st_repo s) !! id); [|done].
  by destruct (Delete disk_ok id (st_repo s)) as [r [e|]].
Qed.

Lemma cleanup_fold_same (disk_ok : string -> bool) (l : list ScanTask) :
  forall s,
    same_sched s
      (foldl (fun s task => DeleteTask (disk_ok (ID task)) (ID task) s) s l).
Proof.
  induction l as [|t l IH]; intros s; [apply same_sched_refl|].
  cbn [foldl]. eapply same_sched_trans; [apply DeleteTask_same|apply IH].
Qed.

Lemma cleanupOldReports_same cutoffTime disk_ok s :
  same_sched s (cleanupOldReports cutoffTime disk_ok s).
Proof. apply cleanup_fold_same. Qed.

Section WithFormat.

Variable RFC3339 : Z -> string.

Lemma recover_loop_same clock disk_ok l :
  forall s s',
    recover_loop RFC3339 clock disk_ok l s = Some s' -> same_sched s s'.
Proof.
  induction l as [|t l IH]; intros s s' H; simpl in H.
  - injection H as <-. apply same_sched_refl.
  - destruct (update_task _ _ s) as [s1|] eqn:E; [|done]. simpl in H.
    apply update_task_same in E. apply IH in H.
    eapply same_sched_trans; [exact E|].
    eapply same_sched_trans; [apply record_status_same|].
    eapply same_sched_trans; [apply repo_Update_same|exact H].
Qed.

Lemma Start_sched clock disk_ok s s' :
  Start RFC3339 clock disk_ok s = Some s' ->
  st_config s' = st_config s
  /\ st_pool s' = st_pool s
  /\ st_scans s' = st_scans s
  /\ st_background s'
     = st_background s ++ [QueueWorker]
       ++ (if 0 <? ScanRetentionDays (st_config s) then [CleanupWorker] else []).
Proof.
  unfold Start, markInterruptedTasksAsFailed. intros H.
  destruct (recover_loop _ _ _ _ s) as [s1|] eqn:E; [|done]. simpl in H.
  apply recover_loop_same in E as (Hc & Hp & Hs & Hb). injection H as <-.
  simpl. rewrite Hc, Hp, Hs, Hb. repeat split.
  destruct (0 <? _); by rewrite <- ?app_assoc.
Qed.

End WithFormat.

End ServiceFacts.

(** ** Retention *)

Module Retention.
Import Models Repository Service Spec SchedSpec ServiceFacts Samples.

Lemma elem_of_range_tasks (m : TaskMap) t :
  t ∈ range_tasks m <-> exists id, m !! id = Some t.
Proof.
  unfold range_tasks. rewrite list_elem_of_fmap. split.
  - intros ([id t'] & -> & Hin). exists id. by apply elem_of_map_to_list.
  - intros (id & Hid). exists (id, t). split; [done|].
    by apply elem_of_map_to_list.
Qed.

Lemma elem_of_stdlib_filter {A} (f : A -> bool) (l : list A) x :
  x ∈ List.filter f l <-> x ∈ l /\ f x = true.
Proof. rewrite !list_elem_of_In. apply filter_In. Qed.

Lemma range_tasks_ids (m : TaskMap) :
  keyed m -> ID <$> range_tasks m = (map_to_list m).*1.
Proof.
  intros Hk. unfold range_tasks. rewrite <- list_fmap_compose.
  apply Forall_fmap_ext_1, Forall_forall. intros [id t] Hin. simpl.
  apply Hk. by apply elem_of_map_to_list.
Qed.

Lemma NoDup_fmap_stdlib_filter {A B} (g : A -> B) (f : A -> bool) (l : list A) :
  NoDup (g <$> l) -> NoDup (g <$> List.filter f l).
Proof.
  induction l as [|x l IH]; [done|]. rewrite fmap_cons.
  intros [Hx Hl]%NoDup_cons. cbn [List.filter]. destruct (f x).
  - rewrite fmap_cons. apply NoDup_cons. split; [|auto].
    intros (y & Hy & Hin)%list_elem_of_fmap.
    apply elem_of_stdlib_filter in Hin as [Hin _].
    apply Hx. apply list_elem_of_fmap. eauto.
  - auto.
Qed.

Lemma is_old_spec cutoffTime t :
  is_old cutoffTime t = true
  <-> (Status t = ScanStatusCompleted \/ Status t = ScanStatusFailed)
      /\ taskTime t < cutoffTime.
Proof.
  unfold is_old.
  destruct (decide (Status t = ScanStatusCompleted)) as [Hc|Hc];
    destruct (decide (Status t = ScanStatusFailed)) as [Hf|Hf];
    rewrite ?(bool_decide_eq_true_2 _ Hc), ?(bool_decide_eq_false_2 _ Hc),
            ?(bool_decide_eq_true_2 _ Hf), ?(bool_decide_eq_false_2 _ Hf);
    simpl; rewrite ?Z.ltb_lt; intuition congruence.
Qed.

Lemma GetAllOldTasks_spec cutoffTime (m : TaskMap) t :
  t ∈ GetAllOldTasks cutoffTime m
  <-> (exists id, m !! id = Some t)
      /\ (Status t = ScanStatusCompleted \/ Status t = ScanStatusFailed)
      /\ taskTime t < cutoffTime.
Proof.
  unfold GetAllOldTasks.
  by rewrite elem_of_stdlib_filter, elem_of_range_tasks, is_old_spec.
Qed.

Lemma DeleteTask_tasks disk_ok id s t :
  tasks (st_repo s) !! id = Some t ->
  tasks (st_repo (DeleteTask disk_ok id s))
  = if disk_ok then delete id (tasks (st_repo s)) else tasks (st_repo s).
Proof.
  intros Ht. unfold DeleteTask, Delete, deleteTaskFile. rewrite Ht.
  by destruct disk_ok.
Qed.

Lemma cleanup_loop disk_ok (l : list ScanTask) :
  forall s,
    NoDup (ID <$> l) ->
    (forall t, t ∈ l -> tasks (st_repo s) !! ID t = Some t) ->
    forall id,
      tasks (st_repo (foldl (fun s task => DeleteTask (disk_ok (ID task)) (ID task) s) s l)) !! id
      = if bool_decide (id ∈ ID <$> l) && disk_ok id then None
        else tasks (st_repo s) !! id.
Proof.
  induction l as [|t l IH]; intros s Hnd Hin id.
  - cbn [foldl]. rewrite bool_decide_eq_false_2; [done|].
    rewrite fmap_nil. set_solver.
  - rewrite fmap_cons in Hnd. apply NoDup_cons in Hnd as [Hnotin Hnd].
    assert (Ht : tasks (st_repo s) !! ID t = Some t) by (apply Hin; set_solver).
    cbn [foldl]. rewrite IH; [|done|].
    + rewrite (DeleteTask_tasks _ _ _ _ Ht).
      destruct (decide (id = ID t)) as [->|Hne].
      * rewrite (bool_decide_eq_false_2 _ Hnotin). simpl.
        rewrite bool_decide_eq_true_2 by set_solver. simpl.
        destruct (disk_ok (ID t)); [apply lookup_delete_eq|done].
      * assert (Heq : bool_decide (id ∈ ID <$> t :: l) = bool_decide (id ∈ ID <$> l)).
        { apply bool_decide_ext. rewrite fmap_cons. set_solver. }
        rewrite Heq. destruct (bool_decide _ && disk_ok id); [done|].
        destruct (disk_ok (ID t)); [by rewrite lookup_delete_ne|done].
    + intros t' Hin'. rewrite (DeleteTask_tasks _ _ _ _ Ht).
      assert (ID t' <> ID t).
      { intros Heq. apply Hnotin. rewrite <- Heq. apply list_elem_of_fmap. eauto. }
      destruct (disk_ok (ID t)); [rewrite lookup_delete_ne by done|];
        apply Hin; set_solver.
Qed.

Lemma cleanupOldReports_tasks cutoffTime disk_ok s :
  keyed (tasks (st_repo s)) ->
  forall id,
    tasks (st_repo (cleanupOldReports cutoffTime disk_ok s)) !! id
    = match tasks (st_repo s) !! id with
      | Some t => if is_old cutoffTime t && disk_ok id then None else Some t
      | None => None
      end.
Proof.
  intros Hk id. unfold cleanupOldReports.
  rewrite cleanup_loop.
  - destruct (tasks (st_repo s) !! id) as [t|] eqn:Ht.
    + destruct (is_old cutoffTime t) eqn:Ho.
      * rewrite bool_decide_eq_true_2; [done|].
        apply list_elem_of_fmap. exists t. split; [symmetry; by apply Hk|].
        apply elem_of_stdlib_filter. split; [|done].
        apply elem_of_range_tasks. eauto.
      * rewrite bool_decide_eq_false_2; [done|].
        intros (t' & Hid & Hin)%list_elem_of_fmap.
        apply elem_of_stdlib_filter in Hin as [Hin Ho'].
        apply elem_of_range_tasks in Hin as (id' & Hid').
        assert (id' = id) by (rewrite Hid; symmetry; by apply Hk).
        subst id'. congruence.
    + by destruct (_ && _).
  - unfold GetAllOldTasks. apply NoDup_fmap_stdlib_filter.
    rewrite range_tasks_ids by done. apply NoDup_fst_map_to_list.
  - intros t (Hin & _)%elem_of_stdlib_filter.
    apply elem_of_range_tasks in Hin as (id' & Hid').
    by rewrite (Hk _ _ Hid').
Qed.

Lemma keyed_empty : keyed (∅ : TaskMap).
Proof. intros id t H. by rewrite lookup_empty in H. Qed.

Lemma keyed_insert (m : TaskMap) t : keyed m -> keyed (<[ID t := t]> m).
Proof.
  intros Hk id t' H. destruct (decide (ID t = id)) as [<-|Hne].
  - rewrite lookup_insert_eq in H. by injection H as <-.
  - rewrite lookup_insert_ne in H by done. by apply Hk.
Qed.

Section WithFormat.

Variable RFC3339 : Z -> string.

Lemma is_old_stale cutoffTime t :
  is_old cutoffTime t = true
  <-> (Status t = ScanStatusCompleted \/ Status t = ScanStatusFailed)
      /\ match EndTime t with
         | Some completed => completed < cutoffTime
         | None => StartTime t < cutoffTime
         end.
Proof. rewrite is_old_spec. unfold taskTime. by destruct (EndTime t). Qed.

(** C6. [GetAllOldTasks] at a cutoff selects exactly the records of the
    store that are stale: the status is completed or failed, and the end
    time when the record has one, the start time otherwise, is strictly
    before the cutoff.  A queued or running record is never selected,
    whatever its times are.  [cleanupOldReports] removes from the store
    each stale record whose removal succeeds (always, for the in-memory
    repository), removes no other record and changes no record that it
    keeps.  [Start] with a retention of zero days starts the queue worker
    only, and no cleanup can happen. *)
Theorem retention_sweep (cutoffTime : Z) (disk_ok : string -> bool)
    (clock : string -> Z) (io : string -> bool) (s : State) :
  keyed (tasks (st_repo s)) ->
  let stale := fun t : ScanTask =>
    (Status t = ScanStatusCompleted \/ Status t = ScanStatusFailed)
    /\ match EndTime t with
       | Some completed => completed < cutoffTime
       | None => StartTime t < cutoffTime
       end in
  (forall t, t ∈ GetAllOldTasks cutoffTime (tasks (st_repo s))
     <-> (exists id, tasks (st_repo s) !! id = Some t) /\ stale t)
  /\ (forall t, Status t = ScanStatusQueued \/ Status t = ScanStatusRunning ->
        t ∉ GetAllOldTasks cutoffTime (tasks (st_repo s)))
  /\ (forall id,
        tasks (st_repo (cleanupOldReports cutoffTime disk_ok s)) !! id = None
        <-> tasks (st_repo s) !! id = None
            \/ exists t, tasks (st_repo s) !! id = Some t
                         /\ stale t /\ disk_ok id = true)
  /\ (forall id t,
        tasks (st_repo (cleanupOldReports cutoffTime disk_ok s)) !! id = Some t ->
        tasks (st_repo s) !! id = Some t)
  /\ (forall id t, tasks (st_repo s) !! id = Some t ->
        let after :=
          tasks (st_repo (cleanupOldReports cutoffTime (fun _ => true) s)) in
        (stale t -> after !! id = None)
        /\ (~ stale t -> after !! id = Some t))
  /\ (forall s', ScanRetentionDays (st_config s) = 0 ->
        st_background s = [] ->
        Start RFC3339 clock io s = Some s' ->
        st_background s' = [QueueWorker]
        /\ step RFC3339 (EvCleanup cutoffTime disk_ok) s' = None).
Proof.
  intros Hk stale.
  assert (Hstale : forall t, is_old cutoffTime t = true <-> stale t)
    by (intros t; apply is_old_stale).
  split.
  { intros t. unfold GetAllOldTasks.
    by rewrite elem_of_stdlib_filter, elem_of_range_tasks, Hstale. }
  split.
  { intros t Hst (_ & Ho)%elem_of_stdlib_filter.
    apply Hstale in Ho as [[Hc|Hf] _]; destruct Hst as [Hq|Hr];
      rewrite ?Hc, ?Hf in *; discriminate. }
  split.
  { intros id. rewrite cleanupOldReports_tasks by done.
    destruct (tasks (st_repo s) !! id) as [t|] eqn:Ht; [|tauto].
    destruct (is_old cutoffTime t) eqn:Ho; destruct (disk_ok id) eqn:Hd;
      cbn [andb]; split; try done.
    - intros _. right. exists t. split; [done|]. split; [by apply Hstale|done].
    - intros [?|(t' & [= <-] & _ & ?)]; done.
    - intros [?|(t' & [= <-] & Hs & _)]; [done|].
      apply Hstale in Hs. congruence.
    - intros [?|(t' & [= <-] & _ & ?)]; done. }
  split.
  { intros id t. rewrite cleanupOldReports_tasks by done.
    destruct (tasks (st_repo s) !! id) as [t0|] eqn:Ht; [|done].
    by destruct (is_old cutoffTime t0 && disk_ok id). }
  split.
  { intros id t Ht after. subst after.
    rewrite cleanupOldReports_tasks by done. rewrite Ht, andb_true_r.
    split.
    - intros Hs%Hstale. by rewrite Hs.
    - intros Hn. destruct (is_old cutoffTime t) eqn:Ho; [|done].
      exfalso. by apply Hn, Hstale. }
  intros s' Hret Hbg Hstart.
  destruct (Start_sched _ _ _ _ _ Hstart) as (_ & _ & _ & Hb).
  rewrite Hret, Hbg in Hb. simpl in Hb.
  split; [done|]. simpl. rewrite Hb.
  rewrite decide_False; [done|]. set_solver.
Qed.

End WithFormat.

Lemma retention_state_keyed : keyed (tasks (st_repo retention_state)).
Proof. simpl. unfold retention_tasks. repeat apply keyed_insert. apply keyed_empty. Qed.

Lemma sweep_state_keyed : keyed (tasks (st_repo sweep_state)).
Proof.
  simpl. unfold sweep_tasks, retention_tasks.
  repeat apply keyed_insert. apply keyed_empty.
Qed.

(** Cutoff 100, every record started at 10: the record that ended at 20
    and the failed record without end time go, the record that ended at
    200 and the running record stay. *)
Lemma retention_sweep_witness :
  keyed (tasks (st_repo sweep_state))
  /\ tasks (st_repo (cleanupOldReports 100 (fun _ => true) sweep_state))
       !! "done-old" = None
  /\ tasks (st_repo (cleanupOldReports 100 (fun _ => true) sweep_state))
       !! "failed-open" = None
  /\ tasks (st_repo (cleanupOldReports 100 (fun _ => true) sweep_state))
       !! "done-new"
     = Some (retention_task "done-new" ScanStatusFailed (Some 200))
  /\ tasks (st_repo (cleanupOldReports 100 (fun _ => true) sweep_state))
       !! "running-old"
     = Some (retention_task "running-old" ScanStatusRunning None).
Proof.
  split; [exact sweep_state_keyed|].
  pose proof (retention_sweep (fun _ => "") 100 (fun _ => true) (fun _ => 0)
                (fun _ => true) sweep_state sweep_state_keyed)
    as (_ & _ & _ & _ & Hdel & _).
  split.
  { apply (Hdel "done-old" (retention_task "done-old" ScanStatusCompleted (Some 20))
             eq_refl).
    split; [by left|]. cbn. lia. }
  split.
  { apply (Hdel "failed-open" (retention_task "failed-open" ScanStatusFailed None)
             eq_refl).
    split; [by right|]. cbn. lia. }
  split.
  { apply (Hdel "done-new" (retention_task "done-new" ScanStatusFailed (Some 200))
             eq_refl).
    intros [_ Hlt]. cbn in Hlt. lia. }
  apply (Hdel "running-old" (retention_task "running-old" ScanStatusRunning None)
           eq_refl).
  intros [[Hc|Hf] _]; discriminate.
Defined.

End Retention.

(** ** The logged command line *)

Module Masking.
Import Models Service Spec Samples.

Lemma mask_loop_scan (rest : list string) :
  forall (pre : list string) (x : string),
    mask_loop (length rest) (length pre) (pre ++ x :: rest)
    = pre ++ x :: mask_scan (is_credential_flag x) rest.
Proof.
  induction rest as [|y rest IH]; intros pre x; [done|].
  cbn [length mask_loop]. unfold mask_at.
  rewrite lookup_app_r, Nat.sub_diag by lia. cbn [lookup list_lookup].
  set (y' := if is_credential_flag x then "***" else y).
  assert (Hmask : (if is_credential_flag x
                   then <[S (length pre) := "***"]> (pre ++ x :: y :: rest)
                   else pre ++ x :: y :: rest)
                  = (pre ++ [x]) ++ y' :: rest).
  { subst y'. rewrite <- app_assoc. cbn [app].
    destruct (is_credential_flag x); [|done].
    rewrite insert_app_r_alt by lia.
    by replace (S (length pre) - length pre)%nat with 1%nat by lia. }
  rewrite Hmask.
  replace (S (length pre)) with (length (pre ++ [x]))
    by (rewrite length_app; simpl; lia).
  rewrite IH. rewrite <- app_assoc. done.
Qed.

(** [maskCredentials] is the left-to-right masking. *)
Lemma maskCredentials_scan args : maskCredentials args = mask_scan false args.
Proof.
  unfold maskCredentials. destruct args as [|x rest]; [done|].
  cbn [length]. rewrite Nat.sub_succ, Nat.sub_0_r.
  apply (mask_loop_scan rest [] x).
Qed.

Lemma mask_scan_length b args : length (mask_scan b args) = length args.
Proof.
  revert b. induction args as [|a args IH]; intros b; [done|].
  cbn [mask_scan length]. by rewrite IH.
Qed.

Lemma mask_scan_next b args j a c :
  mask_scan b args !! j = Some a ->
  args !! S j = Some c ->
  mask_scan b args !! S j = Some (if is_credential_flag a then "***" else c).
Proof.
  revert b j. induction args as [|x args IH]; intros b j Ha Hc; [done|].
  destruct j as [|j].
  - cbn in Ha. injection Ha as <-.
    destruct args as [|y args]; [done|]. cbn in Hc. injection Hc as <-. done.
  - cbn [mask_scan]. rewrite lookup_cons_ne_0 by done. cbn [pred].
    apply IH; [exact Ha|exact Hc].
Qed.

Lemma mask_scan_app b l1 l2 :
  mask_scan b (l1 ++ l2) = mask_scan b l1 ++ mask_scan (mask_state b l1) l2.
Proof.
  revert b. induction l1 as [|a l1 IH]; intros b; [done|].
  cbn [app mask_scan mask_state]. by rewrite IH.
Qed.

Lemma mask_state_app b l1 l2 :
  mask_state b (l1 ++ l2) = mask_state (mask_state b l1) l2.
Proof.
  revert b. induction l1 as [|a l1 IH]; intros b; [done|].
  cbn [app mask_state]. by rewrite IH.
Qed.

Lemma append_if_app c args extra :
  append_if c args extra = args ++ (if c then extra else []).
Proof. unfold append_if. destruct c; [done|]. by rewrite app_nil_r. Qed.

Lemma buildTrivyArgs_split config task sc :
  Config task = Some sc ->
  buildTrivyArgs config task
  = Some (args_before config ++ args_credentials sc ++ args_after sc (Image task)).
Proof.
  intros Hsc. unfold buildTrivyArgs. rewrite Hsc. cbv zeta.
  rewrite !append_if_app.
  unfold args_before, args_credentials, args_after.
  f_equal. rewrite <- !app_assoc. reflexivity.
Qed.

Lemma mask_state_before config : mask_state false (args_before config) = false.
Proof.
  unfold args_before. rewrite !mask_state_app.
  generalize (mask_state (mask_state false ["image"])
                (if negb (bool_decide (ServerURL config = ""))
                 then ["--server"; ServerURL config] else [])).
  by intros [].
Qed.

Lemma mask_credentials sc :
  mask_scan false (args_credentials sc) = masked_credentials sc
  /\ mask_state false (args_credentials sc) = false.
Proof.
  unfold args_credentials, masked_credentials.
  destruct (negb (bool_decide (Username sc = "")));
    destruct (negb (bool_decide (Password sc = ""))); done.
Qed.

(** The logged arguments of a task: the masking of the arguments before
    the credentials, the credential flags with the placeholder, and the
    masking of the arguments after them. *)
Lemma masked_args config task sc :
  Config task = Some sc ->
  exists args,
    buildTrivyArgs config task = Some args
    /\ maskCredentials args
       = mask_scan false (args_before config)
         ++ masked_credentials sc
         ++ mask_scan false (args_after sc (Image task)).
Proof.
  intros Hsc. eexists. split; [by apply buildTrivyArgs_split|].
  rewrite maskCredentials_scan, !mask_scan_app.
  rewrite mask_state_before.
  destruct (mask_credentials sc) as [-> ->]. done.
Qed.

(** C10, as the code has it.  The logged list has the length of the real
    list and its first argument; an argument after the first is replaced
    by the placeholder exactly when the argument before it, as logged, is
    "--username" or "--password", and is logged as it is otherwise.  Two
    tasks with the same image whose configurations differ only in user
    name and password, each of the two empty in both or in neither, log
    the same command line. *)
Theorem command_line_masked (config : TrivyConfig) (args : list string)
    (t1 t2 : ScanTask) (c1 c2 : ScanConfig) :
  Config t1 = Some c1 -> Config t2 = Some c2 -> Image t1 = Image t2 ->
  same_but_credentials c1 c2 ->
  (length (maskCredentials args) = length args
   /\ maskCredentials args !! 0%nat = args !! 0%nat
   /\ forall j a c,
        maskCredentials args !! j = Some a ->
        args !! S j = Some c ->
        maskCredentials args !! S j
        = Some (if is_credential_flag a then "***" else c))
  /\ exists args1 args2,
       buildTrivyArgs config t1 = Some args1
       /\ buildTrivyArgs config t2 = Some args2
       /\ command_log_line args1 = command_log_line args2.
Proof.
  intros H1 H2 Himg (Htls & Hsev & Hign & Hscan & Hprio & Hpkg & Hfmt & Hu & Hp).
  split.
  - rewrite maskCredentials_scan. split; [apply mask_scan_length|].
    split; [by destruct args|]. intros j a c. apply mask_scan_next.
  - destruct (masked_args config t1 c1 H1) as (args1 & Hb1 & Hm1).
    destruct (masked_args config t2 c2 H2) as (args2 & Hb2 & Hm2).
    exists args1, args2. split; [done|]. split; [done|].
    assert (Hc : masked_credentials c1 = masked_credentials c2).
    { unfold masked_credentials.
      by rewrite (bool_decide_ext _ _ Hu), (bool_decide_ext _ _ Hp). }
    assert (Ha : args_after c1 (Image t1) = args_after c2 (Image t2)).
    { unfold args_after.
      by rewrite Htls, Hsev, Hign, Hscan, Hprio, Hpkg, Hfmt, Himg. }
    unfold command_log_line. by rewrite Hm1, Hm2, Hc, Ha.
Qed.

Lemma command_line_masked_witness :
  command_log_line
    (default [] (buildTrivyArgs masking_config (masking_task "bob" "hunter2")))
  = command_log_line
      (default [] (buildTrivyArgs masking_config (masking_task "eve" "12345"))).
Proof.
  destruct (command_line_masked masking_config []
              (masking_task "bob" "hunter2") (masking_task "eve" "12345")
              _ _ eq_refl eq_refl eq_refl)
    as (_ & args1 & args2 & H1 & H2 & Heq).
  - repeat split; intros; discriminate.
  - rewrite H1, H2. exact Heq.
Defined.

(** Where the claim as stated fails: a user name left empty in one of two
    configurations changes the logged line, and an argument that follows
    a masked "--password" is logged as it is. *)
Lemma command_line_differs :
  command_log_line
    (default [] (buildTrivyArgs masking_config (masking_task "" "")))
  <> command_log_line
       (default [] (buildTrivyArgs masking_config (masking_task "bob" "")))
  /\ maskCredentials ["--username"; "--password"; "secret"]
     = ["--username"; "***"; "secret"].
Proof. split; [vm_compute; discriminate|vm_compute; reflexivity]. Qed.

End Masking.

(** ** Crash recovery *)

Module Recovery.
Import Models Repository Service Spec SchedSpec ServiceFacts Samples.

Lemma close_all_spec (ls : list nat) :
  forall chans : ChanStore,
    NoDup ls -> Forall (listener_ok chans) ls ->
    exists chans',
      close_all ls chans = Some chans'
      /\ length chans' = length chans
      /\ forall h,
           chans' !! h
           = (fun c => if bool_decide (h ∈ ls)
                       then mkChan (ch_buf c) (ch_cap c) true else c)
             <$> chans !! h.
Proof.
  induction ls as [|h0 ls IH]; intros chans Hnd Hok.
  - exists chans. repeat split. intros h. simpl. by destruct (chans !! h).
  - apply NoDup_cons in Hnd as [Hnotin Hnd].
    apply Forall_cons in Hok as [(c0 & Hl0 & Hc0 & Hcap0) Hok].
    cbn [close_all]. unfold close_chan. rewrite Hl0, Hc0.
    destruct (IH (<[h0 := mkChan (ch_buf c0) (ch_cap c0) true]> chans))
      as (chans' & Hb & Hlen & Hlk); [done| |].
    { apply Forall_forall. intros h Hin.
      apply LogHub.listener_ok_insert_ne; [set_solver|].
      rewrite Forall_forall in Hok. auto. }
    exists chans'. split; [done|]. split; [by rewrite Hlen, length_insert|].
    intros h. rewrite Hlk. destruct (decide (h = h0)) as [->|Hne].
    + rewrite list_lookup_insert_eq by (by eapply lookup_lt_Some).
      rewrite Hl0. simpl.
      rewrite (bool_decide_eq_false_2 _ Hnotin).
      by rewrite bool_decide_eq_true_2 by set_solver.
    + rewrite list_lookup_insert_ne by done.
      destruct (chans !! h) as [c|]; [|done]. simpl. f_equal.
      rewrite (bool_decide_ext (h ∈ ls) (h ∈ h0 :: ls)); [done|set_solver].
Qed.

Lemma AddLog_wf line t chans :
  hub_wf t chans ->
  exists chans',
    AddLog line t chans = Some (set_LogLines (LogLines t ++ [line]) t, chans')
    /\ hub_wf (set_LogLines (LogLines t ++ [line]) t) chans'
    /\ forall h, chans' !! h
                 = deliver line (bool_decide (h ∈ LogListeners t)) <$> chans !! h.
Proof.
  intros Hwf.
  destruct (LogHub.broadcast_spec line (LogListeners t) chans)
    as (chans' & Hb & Hlen & Hlk); [apply Hwf..|].
  exists chans'. unfold AddLog. simpl. rewrite Hb. split; [done|].
  split; [|exact Hlk].
  destruct Hwf as [Hnd Hok]. split; [done|]. simpl.
  apply Forall_forall. intros h Hin. rewrite Forall_forall in Hok.
  destruct (Hok h Hin) as (c & Hc & Hcl & Hcap).
  exists (deliver line true c). rewrite Hlk, Hc. simpl.
  rewrite bool_decide_eq_true_2 by done.
  split; [done|]. unfold deliver. simpl.
  destruct (_ <? _)%nat; simpl; auto.
Qed.

Section WithFormat.

Variable RFC3339 : Z -> string.

(** The loop body on one record: it returns on every well-formed hub,
    leaves the record of [interrupted] and closes every listener. *)
Lemma fail_interrupted_spec now t chans :
  hub_wf t chans ->
  exists chans',
    fail_interrupted RFC3339 now t chans = Some (interrupted RFC3339 now t, chans')
    /\ forall h, h ∈ LogListeners t ->
         exists c, chans' !! h = Some c /\ ch_closed c = true.
Proof.
  intros Hwf. unfold fail_interrupted.
  set (t0 := set_ErrorOutput _ _).
  assert (Hwf0 : hub_wf t0 chans) by exact Hwf.
  destruct (AddLog_wf "ERROR: Scan interrupted by server restart" t0 chans Hwf0)
    as (chans1 & -> & Hwf1 & _).
  cbn [mbind option_bind fst snd].
  destruct (AddLog_wf ("Task marked as failed at " +:+ RFC3339 now) _ chans1 Hwf1)
    as (chans2 & -> & Hwf2 & _).
  cbn [mbind option_bind fst snd].
  destruct Hwf2 as [Hnd Hok].
  destruct (close_all_spec _ chans2 Hnd Hok) as (chans3 & Hc & Hlen & Hlk).
  exists chans3. unfold CloseAllLogListeners. rewrite Hc. split.
  - f_equal. f_equal. unfold interrupted. destruct t. simpl.
    by rewrite <- app_assoc.
  - intros h Hin. rewrite Forall_forall in Hok.
    destruct (Hok h Hin) as (c & Hch & _).
    exists (mkChan (ch_buf c) (ch_cap c) true). rewrite Hlk, Hch. simpl.
    by rewrite bool_decide_eq_true_2 by exact Hin.
Qed.

Lemma hub_wf_no_listeners t chans : LogListeners t = [] -> hub_wf t chans.
Proof. intros H. unfold hub_wf. rewrite H. split; constructor. Qed.

Lemma store_task_tasks id t chans s t0 :
  tasks (st_repo s) !! id = Some t0 ->
  tasks (st_repo (store_task id t chans s)) = <[id := t]> (tasks (st_repo s)).
Proof. intros H. unfold store_task. by rewrite H. Qed.

Lemma repo_Update_tasks disk_ok id s t :
  tasks (st_repo s) !! id = Some t -> ID t = id ->
  tasks (st_repo (repo_Update disk_ok id s)) = tasks (st_repo s).
Proof.
  intros H Hid. unfold repo_Update, lookup_task. rewrite H.
  unfold Update. rewrite Hid, H. unfold saveTaskToFile.
  destruct disk_ok; simpl; [|done]. by apply insert_id.
Qed.

Lemma interrupted_ID now t : ID (interrupted RFC3339 now t) = ID t.
Proof. done. Qed.

(** One round of the recovery loop on a record without listeners. *)
Lemma recover_one now disk_ok s t :
  tasks (st_repo s) !! ID t = Some t -> LogListeners t = [] ->
  exists s1,
    update_task (ID t) (fail_interrupted RFC3339 now) s = Some s1
    /\ tasks (st_repo (repo_Update disk_ok (ID t)
                         (record_status (ID t) ScanStatusFailed s1)))
       = <[ID t := interrupted RFC3339 now t]> (tasks (st_repo s)).
Proof.
  intros Ht Hnil.
  destruct (fail_interrupted_spec now t (st_chans s) (hub_wf_no_listeners _ _ Hnil))
    as (chans' & Hf & _).
  exists (store_task (ID t) (interrupted RFC3339 now t) chans' s). split.
  - unfold update_task, lookup_task. rewrite Ht. simpl. by rewrite Hf.
  - erewrite repo_Update_tasks.
    + simpl. by erewrite store_task_tasks.
    + simpl. erewrite store_task_tasks by done. apply lookup_insert_eq.
    + done.
Qed.

Lemma recover_loop_spec clock disk_ok (l : list ScanTask) :
  forall s,
    NoDup (ID <$> l) ->
    (forall t, t ∈ l -> tasks (st_repo s) !! ID t = Some t /\ LogListeners t = []) ->
    exists s',
      recover_loop RFC3339 clock disk_ok l s = Some s'
      /\ (forall t, t ∈ l ->
            tasks (st_repo s') !! ID t = Some (interrupted RFC3339 (clock (ID t)) t))
      /\ (forall id, id ∉ ID <$> l ->
            tasks (st_repo s') !! id = tasks (st_repo s) !! id).
Proof.
  induction l as [|t l IH]; intros s Hnd Hin.
  - exists s. split; [done|]. split; [intros t Ht; set_solver|done].
  - rewrite fmap_cons in Hnd. apply NoDup_cons in Hnd as [Hnotin Hnd].
    destruct (Hin t ltac:(set_solver)) as [Ht Hnil].
    destruct (recover_one (clock (ID t)) (disk_ok (ID t)) s t Ht Hnil)
      as (s1 & Hu & Htasks).
    cbn [recover_loop]. rewrite Hu. cbn [mbind option_bind].
    set (s2 := repo_Update _ _ _) in *.
    destruct (IH s2 Hnd) as (s' & Hrec & Hdone & Hother).
    { intros t' Hin'. destruct (Hin t' ltac:(set_solver)) as [Ht' Hnil'].
      split; [|done]. rewrite Htasks, lookup_insert_ne; [done|].
      intros Heq. apply Hnotin. rewrite Heq. apply list_elem_of_fmap. eauto. }
    exists s'. split; [done|]. split.
    + intros t' [->|Hin']%elem_of_cons; [|by apply Hdone].
      rewrite Hother by done. rewrite Htasks. apply lookup_insert_eq.
    + intros id Hid. rewrite fmap_cons in Hid.
      rewrite Hother by set_solver. rewrite Htasks.
      apply lookup_insert_ne. set_solver.
Qed.

Lemma loadTasks_fold (l : list ScanTask) :
  let m := foldr (fun task m => <[ID task := task]> m) (∅ : TaskMap)
             (persisted <$> l) in
  keyed m /\ forall id t, m !! id = Some t -> LogListeners t = [].
Proof.
  induction l as [|t l [IHk IHl]]; simpl.
  - split; [apply Retention.keyed_empty|]. intros id t H.
    by rewrite lookup_empty in H.
  - split; [apply (Retention.keyed_insert _ (persisted t)), IHk|].
    intros id t' H. destruct (decide (ID (persisted t) = id)) as [<-|Hne].
    + rewrite lookup_insert_eq in H. by injection H as <-.
    + rewrite lookup_insert_ne in H by done. eauto.
Qed.

Lemma loadTasks_keyed fs : keyed (loadTasks fs).
Proof. apply loadTasks_fold. Qed.

Lemma loadTasks_no_listeners fs id t :
  loadTasks fs !! id = Some t -> LogListeners t = [].
Proof. apply loadTasks_fold. Qed.

Lemma GetAllRunningTasks_spec (m : TaskMap) t :
  t ∈ GetAllRunningTasks m
  <-> (exists id, m !! id = Some t) /\ Status t = ScanStatusRunning.
Proof.
  unfold GetAllRunningTasks.
  rewrite Retention.elem_of_stdlib_filter, Retention.elem_of_range_tasks.
  by rewrite bool_decide_eq_true.
Qed.

(** C5. The boot of the service returns; in the state where the queue
    worker exists no scan goroutine has been started and no worker slot is
    taken, every record that was loaded with status running has status
    failed, the message "Scan interrupted by server restart", an end time
    and no listener, and every other loaded record is as it was loaded.
    The loop body, on a record with listeners, closes each of them. *)
Theorem recovery_on_start (fs : gmap (string * string) ScanTask)
    (config : TrivyConfig) (clock : string -> Z) (disk_ok : string -> bool) :
  (exists s,
     boot RFC3339 fs config clock disk_ok = Some s
     /\ st_background (NewScanService (NewFileScanRepository fs) config) = []
     /\ QueueWorker ∈ st_background s
     /\ st_scans s = [] /\ st_pool s = 0%nat
     /\ forall id t, loadTasks fs !! id = Some t ->
          (Status t = ScanStatusRunning ->
             exists t',
               tasks (st_repo s) !! id = Some t'
               /\ t' = interrupted RFC3339 (clock id) t
               /\ Status t' = ScanStatusFailed
               /\ Message t' = "Scan interrupted by server restart"
               /\ EndTime t' = Some (clock id)
               /\ LogListeners t' = [])
          /\ (Status t <> ScanStatusRunning -> tasks (st_repo s) !! id = Some t))
  /\ (forall now t chans,
        hub_wf t chans ->
        exists chans',
          fail_interrupted RFC3339 now t chans
          = Some (interrupted RFC3339 now t, chans')
          /\ forall h, h ∈ LogListeners t ->
               exists c, chans' !! h = Some c /\ ch_closed c = true).
Proof.
  split; [|intros now t chans; apply fail_interrupted_spec].
  set (s0 := NewScanService (NewFileScanRepository fs) config).
  pose proof (loadTasks_keyed fs) as Hk.
  destruct (recover_loop_spec clock disk_ok
              (GetAllRunningTasks (tasks (st_repo s0))) s0)
    as (s1 & Hrec & Hdone & Hother).
  { unfold GetAllRunningTasks. apply Retention.NoDup_fmap_stdlib_filter.
    rewrite Retention.range_tasks_ids by exact Hk. apply NoDup_fst_map_to_list. }
  { intros t [(id & Hid) _]%GetAllRunningTasks_spec. simpl in Hid.
    rewrite (Hk _ _ Hid). split; [exact Hid|].
    by eapply loadTasks_no_listeners. }
  pose proof (recover_loop_same _ _ _ _ _ _ Hrec) as (Hc & Hp & Hs & Hb).
  eexists. split.
  { unfold boot, Start, markInterruptedTasksAsFailed. fold s0. rewrite Hrec.
    reflexivity. }
  simpl. rewrite Hb, Hs, Hp. simpl.
  split; [done|]. split; [destruct (0 <? _); set_solver|].
  split; [done|]. split; [done|].
  intros id t Hid. split.
  - intros Hrun.
    assert (Hin : t ∈ GetAllRunningTasks (tasks (st_repo s0))).
    { apply GetAllRunningTasks_spec. split; [|done]. exists id. exact Hid. }
    exists (interrupted RFC3339 (clock id) t).
    pose proof (Hdone t Hin) as Hd. rewrite (Hk _ _ Hid) in Hd.
    rewrite Hd. repeat split.
  - intros Hnot.
    assert (Hnotin : id ∉ ID <$> GetAllRunningTasks (tasks (st_repo s0))).
    { intros (t' & Heq & [(id' & Hid') Hrun]%GetAllRunningTasks_spec)%list_elem_of_fmap.
      simpl in Hid'. rewrite (Hk _ _ Hid') in Heq. subst id'. congruence. }
    pose proof (Hother id Hnotin) as Ho.
    rewrite Ho. exact Hid.
Qed.

End WithFormat.

Lemma recovery_on_start_witness :
  hub_wf hub_sample_task hub_sample_chans
  /\ exists chans',
       fail_interrupted (fun _ => "2025-10-01T10:30:45Z") 7
         hub_sample_task hub_sample_chans
       = Some (interrupted (fun _ => "2025-10-01T10:30:45Z") 7 hub_sample_task, chans')
       /\ exists c, chans' !! 1%nat = Some c /\ ch_closed c = true.
Proof.
  split; [exact LogHub.hub_sample_wf|].
  destruct (recovery_on_start (fun _ => "2025-10-01T10:30:45Z") ∅
              (mkTrivyConfig "" 600 0 0) (fun _ => 7) (fun _ => true))
    as [_ Hloop].
  destruct (Hloop 7 hub_sample_task hub_sample_chans LogHub.hub_sample_wf)
    as (chans' & Hf & Hclosed).
  exists chans'. split; [exact Hf|]. apply Hclosed. simpl. set_solver.
Defined.

End Recovery.

(** ** The scheduler *)

Module Scheduler.
Import Models Repository Service Spec SchedSpec ServiceFacts Samples.

(** *** What the operations do to the record behind an id *)

Lemma store_task_lookup id t' chans s id' :
  is_Some (lookup_task id s) ->
  lookup_task id' (store_task id t' chans s)
  = if decide (id' = id) then Some t' else lookup_task id' s.
Proof.
  intros [t Ht]. unfold lookup_task, store_task in *.
  destruct (tasks (st_repo s) !! id) as [t0|] eqn:E; simpl.
  - destruct (decide (id' = id)) as [->|Hne].
    + by rewrite lookup_insert_eq.
    + by rewrite lookup_insert_ne.
  - destruct (decide (id' = id)) as [->|Hne].
    + by rewrite E, lookup_insert_eq.
    + by rewrite lookup_insert_ne.
Qed.

Lemma repo_Update_lookup disk_ok id s id' :
  (forall t, lookup_task id s = Some t -> ID t = id) ->
  lookup_task id' (repo_Update disk_ok id s) = lookup_task id' s.
Proof.
  intros Hk. unfold repo_Update.
  destruct (lookup_task id s) as [t|] eqn:Ht; [|done].
  pose proof (Hk t eq_refl) as Hid. unfold Update. rewrite Hid.
  unfold lookup_task in Ht.
  destruct (tasks (st_repo s) !! id) as [t0|] eqn:E; [|done].
  injection Ht as ->. unfold saveTaskToFile.
  destruct disk_ok; [|done]. unfold lookup_task. simpl.
  by rewrite (insert_id _ _ _ E).
Qed.

Lemma DeleteTask_lookup disk_ok id s id' :
  lookup_task id' (DeleteTask disk_ok id s) = lookup_task id' s.
Proof.
  unfold DeleteTask.
  destruct (tasks (st_repo s) !! id) as [t|] eqn:E; [|done].
  unfold Delete. rewrite E. unfold deleteTaskFile.
  destruct disk_ok; [|done]. unfold lookup_task. simpl.
  destruct (decide (id' = id)) as [->|Hne].
  - by rewrite lookup_delete_eq, lookup_insert_eq, E.
  - by rewrite lookup_delete_ne, lookup_insert_ne.
Qed.

Lemma cleanupOldReports_lookup cutoffTime disk_ok s id' :
  lookup_task id' (cleanupOldReports cutoffTime disk_ok s) = lookup_task id' s.
Proof.
  unfold cleanupOldReports.
  generalize (GetAllOldTasks cutoffTime (tasks (st_repo s))). intros l.
  revert s. induction l as [|t l IH]; intros s; [done|].
  cbn [foldl]. by rewrite IH, DeleteTask_lookup.
Qed.

Lemma cleanupOldReports_trace cutoffTime disk_ok s :
  st_trace (cleanupOldReports cutoffTime disk_ok s) = st_trace s.
Proof.
  unfold cleanupOldReports.
  generalize (GetAllOldTasks cutoffTime (tasks (st_repo s))). intros l.
  revert s. induction l as [|t l IH]; intros s; [done|].
  cbn [foldl]. by rewrite IH, DeleteTask_trace.
Qed.

(** *** What the hub operations do to the record *)

Lemma AddLog_eq line t chans t' chans' :
  AddLog line t chans = Some (t', chans') ->
  t' = set_LogLines (LogLines t ++ [line]) t.
Proof.
  unfold AddLog. destruct (broadcast _ _ _); [|done]. by intros [= <- <-].
Qed.

Lemma CloseAllLogListeners_eq t chans t' chans' :
  CloseAllLogListeners t chans = Some (t', chans') ->
  t' = set_LogListeners [] t.
Proof.
  unfold CloseAllLogListeners. destruct (close_all _ _); [|done].
  by intros [= <- <-].
Qed.

Lemma RemoveLogListener_eq ch t chans t' chans' :
  RemoveLogListener ch t chans = Some (t', chans') ->
  exists ls, t' = set_LogListeners ls t.
Proof.
  unfold RemoveLogListener. destruct (remove_first _ _) as [ls|].
  - destruct (close_chan _ _); [|done]. intros [= <- <-]. by exists ls.
  - intros [= <- <-]. exists (LogListeners t). by destruct t.
Qed.

(** Splits the hub operations of a hypothesis into their results. *)
Ltac hub_results :=
  repeat match goal with
  | H : AddLog _ _ _ = Some _ |- _ => apply AddLog_eq in H; subst
  | H : CloseAllLogListeners _ _ = Some _ |- _ =>
      apply CloseAllLogListeners_eq in H; subst
  | H : RemoveLogListener _ _ _ = Some _ |- _ =>
      apply RemoveLogListener_eq in H as [? ->]
  | H : Some _ = Some _ |- _ => injection H as H; subst
  | H : None = Some _ |- _ => discriminate H
  | H : mbind _ ?m = Some _ |- _ =>
      let E := fresh "E" in
      destruct m as [[? ?]|] eqn:E; [cbn [mbind option_bind fst snd] in H|discriminate H]
  | H : match ?m with Some _ => _ | None => _ end = Some _ |- _ =>
      let E := fresh "E" in
      destruct m eqn:E; [|try discriminate H]
  end.

Section WithFormat.

Variable RFC3339 : Z -> string.

Lemma scan_begin_result now t chans t' chans' :
  scan_begin RFC3339 now t chans = Some (t', chans') ->
  ID t' = ID t /\ Status t' = ScanStatusRunning.
Proof. unfold scan_begin. intros H. hub_results. done. Qed.

Lemma scan_version_result v t chans t' chans' :
  scan_version RFC3339 v t chans = Some (t', chans') ->
  ID t' = ID t /\ Status t' = Status t.
Proof.
  unfold scan_version, log_db. intros H.
  destruct v as [err|version]; hub_results; try done.
  all: cbn [fst snd] in *; hub_results; done.
Qed.

Lemma scan_command_result config t chans t' chans' :
  scan_command config t chans = Some (t', chans') ->
  ID t' = ID t /\ Status t' = Status t.
Proof.
  unfold scan_command. intros H.
  destruct (buildTrivyArgs config t); [|done]. simpl in H. hub_results. done.
Qed.

Lemma failTask_result now msg t chans t' chans' :
  failTask RFC3339 now msg t chans = Some (t', chans') ->
  ID t' = ID t /\ Status t' = ScanStatusFailed.
Proof. unfold failTask. intros H. hub_results. done. Qed.

Lemma scan_finish_result now o t chans t' chans' :
  scan_finish RFC3339 now o t chans = Some (t', chans') ->
  ID t' = ID t /\ Status t' = outcome_status o.
Proof.
  unfold scan_finish. intros H. destruct o as [| |stdout summary report].
  - by eapply failTask_result.
  - by eapply failTask_result.
  - unfold scan_complete in H. destruct (Config t); [|done]. simpl in H.
    destruct report; hub_results; done.
Qed.

End WithFormat.


(** *** The invariant under the changes that the events make *)

Section Invariant.

Variable loaded : gmap string ScanTask.
Variable config : TrivyConfig.

Lemma inv_ext lk lk' tr scans pool cfg :
  (forall id, lk' id = lk id) ->
  inv loaded config lk tr scans pool cfg ->
  inv loaded config lk' tr scans pool cfg.
Proof.
  intros Heq [Hc Hl Hcap Hk Hlast Hld Hleg Hsc Hnd Hex].
  constructor; try done.
  - intros id t. rewrite Heq. apply Hk.
  - intros id t. rewrite Heq. apply Hlast.
Qed.

Lemma scans_same_id (scans : list (string * Pc)) i j id pc pc' :
  NoDup scans.*1 ->
  scans !! i = Some (id, pc) -> scans !! j = Some (id, pc') -> i = j.
Proof.
  intros Hnd Hi Hj. eapply NoDup_lookup; [exact Hnd| |].
  - rewrite list_lookup_fmap, Hi. reflexivity.
  - rewrite list_lookup_fmap, Hj. reflexivity.
Qed.

Lemma inv_record_step lk tr scans pool cfg id t t' :
  inv loaded config lk tr scans pool cfg ->
  lk id = Some t -> ID t' = ID t -> Status t' = Status t ->
  inv loaded config (upd lk id t') tr scans pool cfg.
Proof.
  intros [Hc Hl Hcap Hk Hlast Hld Hleg Hsc Hnd Hex] Ht Hid Hst.
  constructor; try done.
  - intros id' x. unfold upd. destruct (decide (id' = id)) as [->|Hne].
    + intros [= <-]. rewrite Hid. by apply Hk.
    + apply Hk.
  - intros id' x. unfold upd. destruct (decide (id' = id)) as [->|Hne].
    + intros [= <-]. rewrite Hst. by apply Hlast.
    + apply Hlast.
Qed.

Lemma inv_scan_step lk tr scans pool cfg i id pc pc' t t' h' :
  inv loaded config lk tr scans pool cfg ->
  scans !! i = Some (id, pc) ->
  lk id = Some t -> ID t' = ID t ->
  last h' = Some (Status t') ->
  pc_trace pc' h' ->
  (h' = [ScanStatusQueued; ScanStatusRunning] -> executing pc' = true) ->
  inv loaded config (upd lk id t') (<[id := h']> tr)
    (<[i := (id, pc')]> scans) pool cfg.
Proof.
  intros [Hc Hl Hcap Hk Hlast Hld Hleg Hsc Hnd Hex] Hi Ht Hid Hlast' Hpc Hexec.
  destruct (Hsc _ _ _ Hi) as (Hnl & h & Hh & _).
  assert (Hilt : (i < length scans)%nat) by (by eapply lookup_lt_Some).
  assert (Hfst : (<[i := (id, pc')]> scans).*1 = scans.*1).
  { rewrite list_fmap_insert. simpl. apply list_insert_id.
    by rewrite list_lookup_fmap, Hi. }
  constructor; try done.
  - by rewrite length_insert.
  - intros id' x. unfold upd. destruct (decide (id' = id)) as [->|Hne].
    + intros [= <-]. rewrite Hid. by apply Hk.
    + apply Hk.
  - intros id' x. unfold upd. destruct (decide (id' = id)) as [->|Hne].
    + intros [= <-]. exists h'. by rewrite lookup_insert_eq.
    + rewrite lookup_insert_ne by done. apply Hlast.
  - intros id' Hsome. destruct (decide (id' = id)) as [->|Hne].
    + rewrite lookup_insert_eq. eauto.
    + rewrite lookup_insert_ne by done. by apply Hld.
  - intros id' x. destruct (decide (id' = id)) as [->|Hne].
    + rewrite lookup_insert_eq. intros [= <-]. rewrite Hnl.
      destruct pc'; simpl in Hpc; unfold legal_trace; naive_solver.
    + rewrite lookup_insert_ne by done. apply Hleg.
  - intros j id' pc''. destruct (decide (j = i)) as [->|Hne].
    + rewrite list_lookup_insert_eq by done. intros [= <- <-].
      split; [done|]. exists h'. by rewrite lookup_insert_eq.
    + rewrite list_lookup_insert_ne by done. intros Hj.
      assert (id' <> id).
      { intros ->. apply Hne. eapply scans_same_id; eauto. }
      rewrite lookup_insert_ne by done. by eapply Hsc.
  - by rewrite Hfst.
  - intros id'. destruct (decide (id' = id)) as [->|Hne].
    + rewrite lookup_insert_eq. intros [= ->]. exists pc'. split; [|auto].
      apply list_elem_of_lookup. exists i. by rewrite list_lookup_insert_eq.
    + rewrite lookup_insert_ne by done. intros Hqr.
      destruct (Hex _ Hqr) as (pc'' & Hin & Hexe). exists pc''. split; [|done].
      apply list_elem_of_lookup in Hin as [j Hj].
      apply list_elem_of_lookup. exists j.
      rewrite list_lookup_insert_ne; [done|]. intros ->.
      rewrite Hi in Hj. congruence.
Qed.

Lemma lookup_delete_inv {A} (l : list A) i j x :
  delete i l !! j = Some x -> exists j', l !! j' = Some x.
Proof.
  intros H. destruct (decide (j < i)%nat).
  - rewrite list_lookup_delete_lt in H by done. eauto.
  - rewrite list_lookup_delete_ge in H by lia. eauto.
Qed.

Lemma elem_of_delete_ne {A} (l : list A) i x y :
  x ∈ l -> l !! i = Some y -> x <> y -> x ∈ delete i l.
Proof.
  intros [j Hj]%list_elem_of_lookup Hi Hne.
  apply list_elem_of_lookup.
  destruct (decide (j < i)%nat).
  - exists j. by rewrite list_lookup_delete_lt.
  - assert (j <> i) by (intros ->; congruence).
    exists (pred j). rewrite list_lookup_delete_ge by lia.
    by replace (S (pred j)) with j by lia.
Qed.

Lemma inv_release lk tr scans pool cfg i id :
  inv loaded config lk tr scans pool cfg ->
  scans !! i = Some (id, PcFinished) ->
  inv loaded config lk tr (delete i scans) (pred pool) cfg.
Proof.
  intros [Hc Hl Hcap Hk Hlast Hld Hleg Hsc Hnd Hex] Hi.
  constructor; try done.
  - rewrite length_delete by eauto. rewrite Hl. lia.
  - lia.
  - intros j id' pc' Hj. apply lookup_delete_inv in Hj as [j' Hj']. eauto.
  - rewrite list_fmap_delete. eapply sublist_NoDup; [exact Hnd|apply sublist_delete].
  - intros id' Hqr. destruct (Hex _ Hqr) as (pc' & Hin & Hexe).
    exists pc'. split; [|done]. eapply elem_of_delete_ne; [done..|].
    intros [= -> ->]. done.
Qed.

Lemma inv_create lk tr scans pool cfg id t :
  inv loaded config lk tr scans pool cfg ->
  tr !! id = None -> ID t = id -> Status t = ScanStatusQueued ->
  inv loaded config (upd lk id t) (<[id := [ScanStatusQueued]]> tr) scans pool cfg
  /\ ((pool < Z.to_nat (maxWorkers config))%nat ->
      inv loaded config (upd lk id t) (<[id := [ScanStatusQueued]]> tr)
        (scans ++ [(id, PcAcquired)]) (S pool) cfg).
Proof.
  intros [Hc Hl Hcap Hk Hlast Hld Hleg Hsc Hnd Hex] Hfresh Hid Hst.
  assert (Hnl : loaded !! id = None).
  { destruct (loaded !! id) eqn:E; [|done].
    destruct (Hld id) as [h Hh]; [eauto|congruence]. }
  assert (Hnotin : id ∉ scans.*1).
  { intros ([id' pc] & Heq & [j Hj]%list_elem_of_lookup)%list_elem_of_fmap.
    simpl in Heq. subst id'.
    destruct (Hsc _ _ _ Hj) as (_ & h & Hh & _). congruence. }
  assert (Hkeyed : forall id' x, upd lk id t id' = Some x -> ID x = id').
  { intros id' x. unfold upd. destruct (decide (id' = id)) as [->|Hne].
    - by intros [= <-].
    - apply Hk. }
  assert (Hlast' : forall id' x, upd lk id t id' = Some x ->
            exists h, <[id := [ScanStatusQueued]]> tr !! id' = Some h
                      /\ last h = Some (Status x)).
  { intros id' x. unfold upd. destruct (decide (id' = id)) as [->|Hne].
    - intros [= <-]. exists [ScanStatusQueued]. by rewrite lookup_insert_eq, Hst.
    - rewrite lookup_insert_ne by done. apply Hlast. }
  assert (Hld' : forall id', is_Some (loaded !! id') ->
            is_Some (<[id := [ScanStatusQueued]]> tr !! id')).
  { intros id' Hsome. destruct (decide (id' = id)) as [->|Hne].
    - rewrite lookup_insert_eq. eauto.
    - rewrite lookup_insert_ne by done. by apply Hld. }
  assert (Hleg' : forall id' h, <[id := [ScanStatusQueued]]> tr !! id' = Some h ->
            legal_trace (loaded !! id') h).
  { intros id' h. destruct (decide (id' = id)) as [->|Hne].
    - rewrite lookup_insert_eq. intros [= <-]. rewrite Hnl. by left.
    - rewrite lookup_insert_ne by done. apply Hleg. }
  assert (Hsc' : forall j id' pc, scans !! j = Some (id', pc) ->
            loaded !! id' = None
            /\ exists h, <[id := [ScanStatusQueued]]> tr !! id' = Some h
                         /\ pc_trace pc h).
  { intros j id' pc Hj. destruct (Hsc _ _ _ Hj) as (Hn & h & Hh & Hp).
    split; [done|]. exists h. split; [|done].
    rewrite lookup_insert_ne; [done|]. intros ->. congruence. }
  assert (Hex' : forall id',
            <[id := [ScanStatusQueued]]> tr !! id'
            = Some [ScanStatusQueued; ScanStatusRunning] ->
            exists pc, (id', pc) ∈ scans /\ executing pc = true).
  { intros id'. destruct (decide (id' = id)) as [->|Hne].
    - rewrite lookup_insert_eq. done.
    - rewrite lookup_insert_ne by done. apply Hex. }
  split; [constructor; done|].
  intros Hroom. constructor; try done.
  - rewrite length_app. simpl. lia.
  - intros j id' pc Hj. apply lookup_app_Some in Hj as [Hj|[_ Hj]]; [eauto|].
    destruct (j - length scans)%nat; [|done]. injection Hj as <- <-.
    split; [done|]. exists [ScanStatusQueued]. by rewrite lookup_insert_eq.
  - rewrite fmap_app. apply NoDup_app. split; [done|]. split.
    + intros x Hx. simpl. intros ->%list_elem_of_singleton. done.
    + simpl. apply NoDup_singleton.
  - intros id' Hqr. destruct (Hex' _ Hqr) as (pc & Hin & He).
    exists pc. split; [|done]. apply elem_of_app. by left.
Qed.

End Invariant.


(** *** The invariant along the events *)

Section Preservation.

Variable RFC3339 : Z -> string.
Variable fs : gmap (string * string) ScanTask.
Variable config : TrivyConfig.

Lemma sched_inv_view s' lk tr scans pool cfg :
  inv (loadTasks fs) config lk tr scans pool cfg ->
  (forall id, lookup_task id s' = lk id) ->
  st_trace s' = tr -> st_scans s' = scans -> st_pool s' = pool ->
  st_config s' = cfg ->
  sched_inv fs config s'.
Proof.
  intros H Hl <- <- <- <-. unfold sched_inv.
  eapply inv_ext; [exact Hl|exact H].
Qed.

Lemma update_task_view id f s s' :
  update_task id f s = Some s' ->
  exists t t' chans',
    lookup_task id s = Some t
    /\ f t (st_chans s) = Some (t', chans')
    /\ (forall id', lookup_task id' s' = upd (fun id => lookup_task id s) id t' id')
    /\ st_trace s' = st_trace s
    /\ same_sched s s'.
Proof.
  intros H. pose proof (update_task_same _ _ _ _ H) as Hsame.
  pose proof (update_task_trace _ _ _ _ H) as Htr.
  apply update_task_inv in H as (t & t' & chans' & Ht & Hf & ->).
  exists t, t', chans'. split; [done|]. split; [done|].
  split; [|split; done].
  intros id'. unfold upd. apply store_task_lookup. eauto.
Qed.

(** [s.repo.Update(task)] changes files only. *)
Lemma repo_Update_inv disk_ok id s :
  sched_inv fs config s -> sched_inv fs config (repo_Update disk_ok id s).
Proof.
  intros H. destruct (repo_Update_same disk_ok id s) as (Hc & Hp & Hs & _).
  eapply sched_inv_view; [exact H| |apply repo_Update_trace|done..].
  intros id'. apply repo_Update_lookup. intros t. apply (inv_keyed _ _ _ _ _ _ _ H).
Qed.

Lemma set_pc_repo_Update i id pc disk_ok id' s :
  set_pc i id pc (repo_Update disk_ok id' s)
  = repo_Update disk_ok id' (set_pc i id pc s).
Proof.
  unfold repo_Update, set_pc, set_scans, set_repo, lookup_task. simpl.
  by destruct (tasks (st_repo s) !! id'), (st_detached s !! id').
Qed.

(** A hub operation that keeps id and status. *)
Lemma update_task_inv_same id f s s' :
  sched_inv fs config s ->
  update_task id f s = Some s' ->
  (forall t chans t' chans', f t chans = Some (t', chans') ->
     ID t' = ID t /\ Status t' = Status t) ->
  sched_inv fs config s'.
Proof.
  intros H Hu Hkeep.
  apply update_task_view in Hu as (t & t' & chans' & Ht & Hf & Hlk & Htr & Hsame).
  destruct Hsame as (Hc & Hp & Hs & _).
  destruct (Hkeep _ _ _ _ Hf) as [Hid Hst].
  eapply sched_inv_view; [|exact Hlk|exact Htr|exact Hs|exact Hp|exact Hc].
  by eapply inv_record_step.
Qed.

(** A scan goroutine moves on without an assignment to the status. *)
Lemma set_pc_inv i id pc pc' s :
  sched_inv fs config s ->
  st_scans s !! i = Some (id, pc) ->
  executing pc = true -> executing pc' = true ->
  sched_inv fs config (set_pc i id pc' s).
Proof.
  intros H Hi He He'.
  destruct (inv_scan _ _ _ _ _ _ _ H _ _ _ Hi) as (Hnl & h & Hh & Hpc).
  assert (Hhq : h = [ScanStatusQueued; ScanStatusRunning]) by (by destruct pc).
  destruct (lookup_task id s) as [t|] eqn:Ht.
  - eapply sched_inv_view;
      [eapply (inv_scan_step _ _ _ _ _ _ _ i id pc pc' t t h); eauto| | | | |];
      simpl; try done.
    + destruct (inv_last _ _ _ _ _ _ _ H _ _ Ht) as (h0 & Hh0 & Hl0). congruence.
    + subst h. by destruct pc'.
    + intros id'. unfold upd. destruct (decide (id' = id)) as [->|]; done.
    + by rewrite insert_id.
  - (* the record does not exist: only the goroutine list changes *)
    destruct H as [Hc Hl Hcap Hk Hlast Hld Hleg Hsc Hnd Hex].
    assert (Hilt : (i < length (st_scans s))%nat) by (by eapply lookup_lt_Some).
    unfold sched_inv. simpl. constructor; try done.
    + by rewrite length_insert.
    + intros j id' pc''. destruct (decide (j = i)) as [->|Hne].
      * rewrite list_lookup_insert_eq by done. intros [= <- <-].
        split; [done|]. exists h. split; [done|]. subst h. by destruct pc'.
      * rewrite list_lookup_insert_ne by done. apply Hsc.
    + rewrite list_fmap_insert. simpl. rewrite list_insert_id; [done|].
      by rewrite list_lookup_fmap, Hi.
    + intros id' Hqr. destruct (Hex _ Hqr) as (pc'' & Hin & Hexe).
      destruct (decide (id' = id)) as [->|Hne].
      * exists pc'. split; [|done]. apply list_elem_of_lookup. exists i.
        by rewrite list_lookup_insert_eq.
      * exists pc''. split; [|done].
        apply list_elem_of_lookup in Hin as [j Hj].
        apply list_elem_of_lookup. exists j.
        rewrite list_lookup_insert_ne; [done|]. intros ->. congruence.
Qed.

(** A scan goroutine assigns a status and moves on. *)
Lemma status_write_inv i id pc pc' st f s s1 :
  sched_inv fs config s ->
  st_scans s !! i = Some (id, pc) ->
  update_task id f s = Some s1 ->
  (forall t chans t' chans', f t chans = Some (t', chans') ->
     ID t' = ID t /\ Status t' = st) ->
  (pc = PcAcquired /\ st = ScanStatusRunning /\ pc' = PcStarted)
  \/ (pc = PcStreaming /\ pc' = PcFinished
      /\ (st = ScanStatusCompleted \/ st = ScanStatusFailed)) ->
  sched_inv fs config (set_pc i id pc' (record_status id st s1)).
Proof.
  intros H Hi Hu Hres Hcase.
  apply update_task_view in Hu as (t & t' & chans' & Ht & Hf & Hlk & Htr & Hsame).
  destruct Hsame as (Hc & Hp & Hs & _).
  destruct (Hres _ _ _ _ Hf) as [Hid Hst].
  destruct (inv_scan _ _ _ _ _ _ _ H _ _ _ Hi) as (Hnl & h & Hh & Hpc).
  eapply sched_inv_view;
    [eapply (inv_scan_step _ _ _ _ _ _ _ i id pc pc' t t' (h ++ [st])); eauto
    |exact Hlk| | | |]; simpl; try done.
  - by rewrite last_snoc, Hst.
  - destruct Hcase as [(-> & -> & ->)|(-> & -> & [-> | ->])];
      simpl in Hpc; subst h; simpl; auto.
  - destruct Hcase as [(-> & -> & ->)|(-> & -> & [-> | ->])];
      simpl in Hpc; subst h; simpl; done.
  - by rewrite Htr, Hh.
  - by rewrite Hs.
Qed.

Lemma DeleteTask_inv disk_ok id s :
  sched_inv fs config s -> sched_inv fs config (DeleteTask disk_ok id s).
Proof.
  intros H. destruct (DeleteTask_same disk_ok id s) as (Hc & Hp & Hs & _).
  eapply sched_inv_view; [exact H| |apply DeleteTask_trace|done..].
  intros id'. apply DeleteTask_lookup.
Qed.

Lemma cleanupOldReports_inv cutoffTime disk_ok s :
  sched_inv fs config s ->
  sched_inv fs config (cleanupOldReports cutoffTime disk_ok s).
Proof.
  intros H. destruct (cleanupOldReports_same cutoffTime disk_ok s) as (Hc & Hp & Hs & _).
  eapply sched_inv_view; [exact H| |apply cleanupOldReports_trace|done..].
  intros id'. apply cleanupOldReports_lookup.
Qed.

Lemma processQueue_id s : processQueue s = s.
Proof.
  unfold processQueue, try_acquire, getNextQueuedTask.
  destruct (st_pool s <? pool_cap s)%nat; [|done].
  unfold release, set_pool. simpl. by destruct s.
Qed.

Lemma CreateScanTask_inv id userID req now disk_ok s :
  sched_inv fs config s ->
  st_trace s !! id = None ->
  sched_inv fs config (CreateScanTask id userID req now disk_ok s).
Proof.
  intros H Hfresh.
  assert (Hnone : lookup_task id s = None).
  { destruct (lookup_task id s) as [t|] eqn:Ht; [|done].
    destruct (inv_last _ _ _ _ _ _ _ H _ _ Ht) as (h & Hh & _). congruence. }
  unfold CreateScanTask.
  set (task := NewScanTask id userID (ReqImage req) (scanConfig_of req) now).
  unfold lookup_task in Hnone.
  destruct (tasks (st_repo s) !! id) as [?|] eqn:Hrepo; [done|].
  unfold Create. simpl. rewrite Hrepo. unfold saveTaskToFile.
  destruct disk_ok; [|exact H]. simpl.
  destruct (inv_create _ _ _ _ _ _ _ id task H Hfresh eq_refl eq_refl)
    as [Hq Hrun].
  assert (Hlk : forall s0 : State,
            tasks (st_repo s0) = <[id := task]> (tasks (st_repo s)) ->
            st_detached s0 = st_detached s ->
            forall id', lookup_task id' s0
                        = upd (fun id => lookup_task id s) id task id').
  { intros s0 Ht Hd id'. unfold lookup_task, upd. rewrite Ht, Hd.
    destruct (decide (id' = id)) as [->|Hne].
    - by rewrite lookup_insert_eq.
    - by rewrite lookup_insert_ne. }
  unfold try_acquire, pool_cap. simpl.
  destruct (st_pool s <? Z.to_nat (maxWorkers (st_config s)))%nat eqn:Hroom.
  - apply Nat.ltb_lt in Hroom.
    rewrite (inv_config _ _ _ _ _ _ _ H) in Hroom.
    eapply sched_inv_view; [exact (Hrun Hroom)|by apply Hlk| | | |]; simpl; try done.
    by rewrite Hfresh.
  - eapply sched_inv_view; [exact Hq|by apply Hlk| | | |]; simpl; try done.
    by rewrite Hfresh.
Qed.

Lemma scan_at_Some i pc s id :
  scan_at i pc s = Some id -> st_scans s !! i = Some (id, pc).
Proof.
  unfold scan_at. destruct (st_scans s !! i) as [[id' pc']|]; [|done].
  destruct (decide (pc' = pc)) as [->|]; [|done]. by intros [= ->].
Qed.

Lemma step_inv ev s s' :
  sched_inv fs config s ->
  step RFC3339 ev s = Some s' ->
  sched_inv fs config s'.
Proof.
  intros H Hstep. destruct ev; simpl in Hstep.
  - (* CreateScanTask *)
    destruct (st_trace s !! id) eqn:Hfresh; [done|]. injection Hstep as <-.
    by apply CreateScanTask_inv.
  - (* tick *)
    destruct (decide _); [|done]. injection Hstep as <-.
    by rewrite processQueue_id.
  - (* executeScan: status running *)
    destruct (scan_at i PcAcquired s) as [id|] eqn:Hi; [|done]. simpl in Hstep.
    apply scan_at_Some in Hi.
    destruct (update_task id _ s) as [s1|] eqn:Hu; [|done]. simpl in Hstep.
    injection Hstep as <-. rewrite set_pc_repo_Update. apply repo_Update_inv.
    eapply status_write_inv; [exact H|exact Hi|exact Hu| |].
    + intros t chans t' chans'. apply scan_begin_result.
    + left. done.
  - (* executeScan: version *)
    destruct (scan_at i PcStarted s) as [id|] eqn:Hi; [|done]. simpl in Hstep.
    apply scan_at_Some in Hi.
    destruct (update_task id _ s) as [s1|] eqn:Hu; [|done]. simpl in Hstep.
    injection Hstep as <-.
    assert (H1 : sched_inv fs config s1).
    { eapply update_task_inv_same; [exact H|exact Hu|].
      intros t chans t' chans'. apply scan_version_result. }
    assert (Hi1 : st_scans s1 !! i = Some (id, PcStarted)).
    { apply update_task_same in Hu as (_ & _ & -> & _). done. }
    destruct v.
    + by eapply set_pc_inv.
    + rewrite set_pc_repo_Update. apply repo_Update_inv. by eapply set_pc_inv.
  - (* executeScan: command line *)
    destruct (scan_at i PcVersion s) as [id|] eqn:Hi; [|done]. simpl in Hstep.
    apply scan_at_Some in Hi.
    destruct (update_task id _ s) as [s1|] eqn:Hu; [|done]. simpl in Hstep.
    injection Hstep as <-.
    assert (H1 : sched_inv fs config s1).
    { eapply update_task_inv_same; [exact H|exact Hu|].
      intros t chans t' chans'. apply scan_command_result. }
    assert (Hi1 : st_scans s1 !! i = Some (id, PcVersion)).
    { apply update_task_same in Hu as (_ & _ & -> & _). done. }
    by eapply set_pc_inv.
  - (* executeScan: an output line *)
    destruct (scan_at i PcStreaming s) as [id|] eqn:Hi; [|done]. simpl in Hstep.
    eapply update_task_inv_same; [exact H|exact Hstep|].
    intros t chans t' chans' Hl. apply AddLog_eq in Hl as ->. done.
  - (* executeScan: final status *)
    destruct (scan_at i PcStreaming s) as [id|] eqn:Hi; [|done]. simpl in Hstep.
    apply scan_at_Some in Hi.
    destruct (update_task id _ s) as [s1|] eqn:Hu; [|done]. simpl in Hstep.
    injection Hstep as <-. rewrite set_pc_repo_Update. apply repo_Update_inv.
    eapply status_write_inv; [exact H|exact Hi|exact Hu| |].
    + intros t chans t' chans'. apply scan_finish_result.
    + right. split; [done|]. split; [done|]. destruct o; auto.
  - (* release *)
    destruct (scan_at i PcFinished s) as [id|] eqn:Hi; [|done]. simpl in Hstep.
    apply scan_at_Some in Hi. injection Hstep as <-.
    unfold sched_inv. simpl. by eapply inv_release.
  - (* DeleteTask *)
    injection Hstep as <-. by apply DeleteTask_inv.
  - (* cleanup *)
    destruct (decide _); [|done]. injection Hstep as <-.
    by apply cleanupOldReports_inv.
  - (* AddLogListener *)
    destruct (lookup_task id s) as [t|] eqn:Ht; [|done]. simpl in Hstep.
    injection Hstep as <-.
    destruct (store_task_same id (set_LogListeners (LogListeners t ++ [length (st_chans s)]) t)
                (st_chans s ++ [mkChan [] 100 false]) s) as (Hc & Hp & Hs & _).
    eapply sched_inv_view;
      [eapply (inv_record_step _ _ _ _ _ _ _ id t
                 (set_LogListeners (LogListeners t ++ [length (st_chans s)]) t));
         [exact H|exact Ht| |]| | | | |];
      try done.
    + intros id'. unfold upd. apply store_task_lookup. eauto.
    + apply store_task_trace.
  - (* RemoveLogListener *)
    eapply update_task_inv_same; [exact H|exact Hstep|].
    intros t chans t' chans' Hr. apply RemoveLogListener_eq in Hr as [ls ->]. done.
  - (* receive *)
    destruct (recv ch (st_chans s)) as [r|]; [|done]. simpl in Hstep.
    injection Hstep as <-. exact H.
Qed.


(** *** The invariant after the boot *)

Lemma fail_interrupted_result now t chans t' chans' :
  fail_interrupted RFC3339 now t chans = Some (t', chans') ->
  ID t' = ID t /\ Status t' = ScanStatusFailed.
Proof. unfold fail_interrupted. intros H. hub_results. done. Qed.

Lemma recover_loop_view clock disk_ok (l : list ScanTask) :
  forall s s',
    recover_loop RFC3339 clock disk_ok l s = Some s' ->
    NoDup (ID <$> l) ->
    (forall t, t ∈ l -> lookup_task (ID t) s = Some t) ->
    (forall id, id ∉ ID <$> l ->
       lookup_task id s' = lookup_task id s /\ st_trace s' !! id = st_trace s !! id)
    /\ (forall t, t ∈ l ->
          exists t',
            lookup_task (ID t) s' = Some t'
            /\ ID t' = ID t /\ Status t' = ScanStatusFailed
            /\ st_trace s' !! ID t
               = Some (default [] (st_trace s !! ID t) ++ [ScanStatusFailed])).
Proof.
  induction l as [|t l IH]; intros s s' Hrec Hnd Hin.
  - injection Hrec as <-. split; [done|]. intros t Ht. set_solver.
  - rewrite fmap_cons in Hnd. apply NoDup_cons in Hnd as [Hnotin Hnd].
    cbn [recover_loop] in Hrec.
    destruct (update_task (ID t) _ s) as [s1|] eqn:Hu; [|done].
    cbn [mbind option_bind] in Hrec.
    apply update_task_view in Hu
      as (t0 & t' & chans' & Ht0 & Hf & Hlk & Htr & _).
    apply fail_interrupted_result in Hf as [Hid Hst].
    rewrite (Hin t ltac:(set_solver)) in Ht0. injection Ht0 as <-.
    set (s2 := repo_Update _ _ _) in Hrec.
    assert (Hlk2 : forall id, lookup_task id s2
                              = upd (fun id => lookup_task id s) (ID t) t' id).
    { intros id. subst s2. rewrite repo_Update_lookup; [apply Hlk|].
      intros x. change (lookup_task (ID t) (record_status (ID t) ScanStatusFailed s1))
        with (lookup_task (ID t) s1).
      rewrite Hlk. unfold upd. rewrite decide_True by done. by intros [= <-]. }
    assert (Htr2 : st_trace s2
                   = <[ID t := default [] (st_trace s !! ID t) ++ [ScanStatusFailed]]>
                       (st_trace s)).
    { subst s2. rewrite repo_Update_trace. simpl. by rewrite Htr. }
    destruct (IH s2 s' Hrec Hnd) as [Hother Hdone].
    { intros x Hx. rewrite Hlk2. unfold upd. rewrite decide_False; [apply Hin; set_solver|].
      intros Heq. apply Hnotin. rewrite <- Heq. apply list_elem_of_fmap. eauto. }
    split.
    + intros id Hid'. rewrite fmap_cons in Hid'.
      destruct (Hother id ltac:(set_solver)) as [-> ->].
      rewrite Hlk2, Htr2. unfold upd.
      rewrite decide_False by set_solver. rewrite lookup_insert_ne by set_solver.
      done.
    + intros x [->|Hx]%elem_of_cons.
      * destruct (Hother (ID t) Hnotin) as [-> ->].
        exists t'. rewrite Hlk2, Htr2. unfold upd. rewrite decide_True by done.
        by rewrite lookup_insert_eq.
      * destruct (Hdone x Hx) as (x' & Hx1 & Hx2 & Hx3 & Hx4).
        exists x'. repeat split; try done. rewrite Hx4, Htr2.
        rewrite lookup_insert_ne; [done|].
        intros Heq. apply Hnotin. rewrite Heq. apply list_elem_of_fmap. eauto.
Qed.

Lemma boot_inv clock disk_ok s :
  boot RFC3339 fs config clock disk_ok = Some s -> sched_inv fs config s.
Proof.
  unfold boot, Start, markInterruptedTasksAsFailed.
  set (s0 := NewScanService (NewFileScanRepository fs) config).
  destruct (recover_loop _ _ _ _ s0) as [s1|] eqn:Hrec; [|done].
  cbn [mbind option_bind]. intros [= <-].
  pose proof (Recovery.loadTasks_keyed fs) as Hk.
  assert (Hlk0 : forall id, lookup_task id s0 = loadTasks fs !! id).
  { intros id. unfold lookup_task. simpl.
    destruct (loadTasks fs !! id); [done|]. by rewrite lookup_empty. }
  assert (Htr0 : forall id, st_trace s0 !! id
                            = (fun t => [Status t]) <$> loadTasks fs !! id).
  { intros id. simpl. by rewrite lookup_fmap. }
  pose proof (recover_loop_same _ _ _ _ _ _ Hrec) as (Hc & Hp & Hs & _).
  destruct (recover_loop_view _ _ _ _ _ Hrec) as [Hother Hdone].
  { unfold GetAllRunningTasks. apply Retention.NoDup_fmap_stdlib_filter.
    rewrite Retention.range_tasks_ids by exact Hk. apply NoDup_fst_map_to_list. }
  { intros t [(id & Hid) _]%Recovery.GetAllRunningTasks_spec. simpl in Hid.
    rewrite Hlk0, (Hk _ _ Hid). exact Hid. }
  assert (Hview : forall id,
            match loadTasks fs !! id with
            | Some t =>
                exists t', lookup_task id s1 = Some t' /\ ID t' = id
                  /\ ((Status t <> ScanStatusRunning /\ t' = t
                       /\ st_trace s1 !! id = Some [Status t])
                      \/ (Status t = ScanStatusRunning
                          /\ Status t' = ScanStatusFailed
                          /\ st_trace s1 !! id
                             = Some [ScanStatusRunning; ScanStatusFailed]))
            | None => lookup_task id s1 = None /\ st_trace s1 !! id = None
            end).
  { intros id. destruct (loadTasks fs !! id) as [t|] eqn:Hid.
    - destruct (decide (Status t = ScanStatusRunning)) as [Hrun|Hrun].
      + assert (Hin : t ∈ GetAllRunningTasks (tasks (st_repo s0))).
        { apply Recovery.GetAllRunningTasks_spec. split; [|done]. by exists id. }
        destruct (Hdone t Hin) as (t' & H1 & H2 & H3 & H4).
        rewrite (Hk _ _ Hid) in *. exists t'. split; [done|]. split; [done|].
        right. split; [done|]. split; [done|].
        rewrite H4, Htr0, Hid. simpl. by rewrite Hrun.
      + assert (Hnotin : id ∉ ID <$> GetAllRunningTasks (tasks (st_repo s0))).
        { intros (x & Heq & [(id' & Hid') Hr]%Recovery.GetAllRunningTasks_spec)%list_elem_of_fmap.
          simpl in Hid'. rewrite (Hk _ _ Hid') in Heq. subst id'. congruence. }
        destruct (Hother id Hnotin) as [H1 H2].
        exists t. rewrite H1, H2, Hlk0, Htr0, Hid. simpl.
        split; [done|]. split; [by apply Hk|]. left. done.
    - assert (Hnotin : id ∉ ID <$> GetAllRunningTasks (tasks (st_repo s0))).
      { intros (x & Heq & [(id' & Hid') Hr]%Recovery.GetAllRunningTasks_spec)%list_elem_of_fmap.
        simpl in Hid'. rewrite (Hk _ _ Hid') in Heq. subst id'. congruence. }
      destruct (Hother id Hnotin) as [H1 H2].
      by rewrite H1, H2, Hlk0, Htr0, Hid. }
  eapply (sched_inv_view _ (fun id => lookup_task id s1) (st_trace s1) []
            0%nat config); [|done|done|by simpl; rewrite Hs|by simpl; rewrite Hp
                              |by simpl; rewrite Hc].
  constructor; try done.
  - lia.
  - intros id t Ht. specialize (Hview id).
    destruct (loadTasks fs !! id); [|destruct Hview; congruence].
    destruct Hview as (t' & H1 & H2 & _). congruence.
  - intros id t Ht. specialize (Hview id).
    destruct (loadTasks fs !! id) as [t0|]; [|destruct Hview; congruence].
    destruct Hview as (t' & H1 & H2 & [(Hn & -> & Htr)|(Hr & Hf & Htr)]).
    + exists [Status t0]. split; [done|]. simpl. congruence.
    + exists [ScanStatusRunning; ScanStatusFailed]. split; [done|]. simpl.
      congruence.
  - intros id [t0 Hid]. specialize (Hview id). rewrite Hid in Hview.
    destruct Hview as (t' & _ & _ & [(_ & _ & ->)|(_ & _ & ->)]); eauto.
  - intros id h Hh. specialize (Hview id).
    destruct (loadTasks fs !! id) as [t0|]; [|destruct Hview; congruence].
    destruct Hview as (t' & _ & _ & [(Hn & _ & Htr)|(Hr & _ & Htr)]);
      rewrite Htr in Hh; injection Hh as <-; simpl; auto.
  - constructor.
  - intros id Hqr. specialize (Hview id).
    destruct (loadTasks fs !! id) as [t0|]; [|destruct Hview; congruence].
    destruct Hview as (t' & _ & _ & [(Hn & _ & Htr)|(Hr & _ & Htr)]);
      rewrite Htr in Hqr; discriminate.
Qed.

Lemma reachable_inv s : reachable RFC3339 fs config s -> sched_inv fs config s.
Proof.
  induction 1 as [clock disk_ok s Hboot|ev s s' _ IH Hstep].
  - by eapply boot_inv.
  - by eapply step_inv.
Qed.


(** *** Worker pool *)

Lemma all_records_lookup s id : all_records s !! id = lookup_task id s.
Proof.
  unfold all_records, lookup_task.
  destruct (tasks (st_repo s) !! id) as [t|] eqn:E.
  - by apply lookup_union_Some_l.
  - by rewrite lookup_union_r.
Qed.

Lemma running_has_goroutine s id :
  sched_inv fs config s -> id ∈ running_ids s -> id ∈ (st_scans s).*1.
Proof.
  intros H Hin. unfold running_ids in Hin.
  apply elem_of_dom in Hin as [t Ht].
  apply map_lookup_filter_Some in Ht as [Ht Hrun]. simpl in Hrun.
  rewrite all_records_lookup in Ht.
  destruct (inv_last _ _ _ _ _ _ _ H _ _ Ht) as (h & Hh & Hl).
  pose proof (inv_legal _ _ _ _ _ _ _ H _ _ Hh) as Hleg.
  rewrite Hrun in Hl.
  assert (Hqr : h = [ScanStatusQueued; ScanStatusRunning]).
  { unfold legal_trace in Hleg. destruct (loadTasks fs !! id) as [t0|].
    - destruct Hleg as [[Hn ->]|[_ ->]]; simpl in Hl; [congruence|discriminate].
    - destruct Hleg as [->|[->|[->| ->]]]; simpl in Hl; try discriminate. done. }
  subst h. destruct (inv_exec _ _ _ _ _ _ _ H _ Hh) as (pc & Hpc & _).
  apply list_elem_of_fmap. by exists (id, pc).
Qed.

(** C1. In every state that the service reaches, each goroutine that
    runs or is about to run [executeScan] holds one slot of the worker pool
    channel, and gives it back when it ends; the slots taken never exceed
    the capacity of the channel, which is [MaxWorkers], or 5 when
    [MaxWorkers] is zero or negative; and the records in running status are
    at most as many as these goroutines. *)
Theorem worker_pool_bound (s : State) :
  reachable RFC3339 fs config s ->
  let N := Z.to_nat (maxWorkers config) in
  (size (running_ids s) <= length (st_scans s))%nat
  /\ length (st_scans s) = st_pool s
  /\ (st_pool s <= N)%nat
  /\ (size (running_ids s) <= N)%nat
  /\ pool_cap s = N
  /\ (MaxWorkers config <= 0 -> maxWorkers config = 5)
  /\ (0 < MaxWorkers config -> maxWorkers config = MaxWorkers config).
Proof.
  intros Hr N. pose proof (reachable_inv _ Hr) as H.
  assert (Hsize : (size (running_ids s) <= length (st_scans s))%nat).
  { transitivity (size (list_to_set (C := gset string) (st_scans s).*1)).
    - apply subseteq_size. intros id Hin. apply elem_of_list_to_set.
      by apply running_has_goroutine.
    - rewrite size_list_to_set by apply (inv_nodup _ _ _ _ _ _ _ H).
      by rewrite length_fmap. }
  pose proof (inv_pool_len _ _ _ _ _ _ _ H) as Hlen.
  pose proof (inv_pool_cap _ _ _ _ _ _ _ H) as Hcap.
  split; [done|]. split; [done|]. split; [done|]. split; [lia|].
  split; [unfold pool_cap; by rewrite (inv_config _ _ _ _ _ _ _ H)|].
  unfold maxWorkers. split; intros Hm.
  - by rewrite (proj2 (Z.leb_le _ _) Hm).
  - destruct (Z.leb_spec (MaxWorkers config) 0); [lia|done].
Qed.

(** *** The queue worker *)

(** One tick of the queue worker leaves every state as it is: the slot it
    takes is given back because [getNextQueuedTask] finds no task. *)
Lemma tick_changes_nothing s :
  step RFC3339 EvTick s = Some s \/ step RFC3339 EvTick s = None.
Proof.
  simpl. destruct (decide _); [left|by right]. by rewrite processQueue_id.
Qed.

(** *** The history of a status field *)

Lemma update_task_trace_eq id f s s' :
  update_task id f s = Some s' -> st_trace s' = st_trace s.
Proof. apply update_task_trace. Qed.

(** An event appends at most one status to the history of one task. *)
Lemma step_trace ev s s' :
  step RFC3339 ev s = Some s' ->
  st_trace s' = st_trace s
  \/ exists id st,
       st_trace s' = <[id := default [] (st_trace s !! id) ++ [st]]> (st_trace s).
Proof.
  intros Hstep. destruct ev; simpl in Hstep.
  - destruct (st_trace s !! id) eqn:Hfresh; [done|]. injection Hstep as <-.
    unfold CreateScanTask.
    destruct (Create _ _ _) as [r [e|]]; [by left|].
    right. exists id, ScanStatusQueued. unfold try_acquire.
    destruct (_ <? _)%nat; simpl; by rewrite Hfresh.
  - destruct (decide _); [|done]. injection Hstep as <-. left.
    by rewrite processQueue_id.
  - destruct (scan_at i PcAcquired s) as [id|]; [|done]. simpl in Hstep.
    destruct (update_task id _ s) as [s1|] eqn:Hu; [|done]. simpl in Hstep.
    injection Hstep as <-. right. exists id, ScanStatusRunning. simpl.
    rewrite repo_Update_trace. simpl. by rewrite (update_task_trace _ _ _ _ Hu).
  - destruct (scan_at i PcStarted s) as [id|]; [|done]. simpl in Hstep.
    destruct (update_task id _ s) as [s1|] eqn:Hu; [|done]. simpl in Hstep.
    injection Hstep as <-. left. simpl.
    destruct v; rewrite ?repo_Update_trace; by rewrite (update_task_trace _ _ _ _ Hu).
  - destruct (scan_at i PcVersion s) as [id|]; [|done]. simpl in Hstep.
    destruct (update_task id _ s) as [s1|] eqn:Hu; [|done]. simpl in Hstep.
    injection Hstep as <-. left. simpl. by rewrite (update_task_trace _ _ _ _ Hu).
  - destruct (scan_at i PcStreaming s) as [id|]; [|done]. simpl in Hstep.
    left. by eapply update_task_trace.
  - destruct (scan_at i PcStreaming s) as [id|]; [|done]. simpl in Hstep.
    destruct (update_task id _ s) as [s1|] eqn:Hu; [|done]. simpl in Hstep.
    injection Hstep as <-. right. exists id, (outcome_status o). simpl.
    rewrite repo_Update_trace. simpl. by rewrite (update_task_trace _ _ _ _ Hu).
  - destruct (scan_at i PcFinished s) as [id|]; [|done]. simpl in Hstep.
    injection Hstep as <-. by left.
  - injection Hstep as <-. left. apply DeleteTask_trace.
  - destruct (decide _); [|done]. injection Hstep as <-. left.
    apply cleanupOldReports_trace.
  - destruct (lookup_task id s) as [t|]; [|done]. simpl in Hstep.
    injection Hstep as <-. left. apply store_task_trace.
  - left. by eapply update_task_trace.
  - destruct (recv ch (st_chans s)) as [r|]; [|done]. simpl in Hstep.
    injection Hstep as <-. by left.
Qed.

(** C3. In every state that the service reaches, the statuses assigned
    so far to a task created by this process are a prefix of
    queued, running, completed or of queued, running, failed; a record
    loaded at the start keeps its status, except that a loaded running
    record has been failed by the recovery; the last status of the history
    is the status of the record.  Every further event leaves the history
    as it is or appends one status to it: never queued, and none at all
    after completed or failed. *)
Theorem status_sequence (s : State) (id : string) (h : list ScanStatus) :
  reachable RFC3339 fs config s ->
  st_trace s !! id = Some h ->
  (loadTasks fs !! id = None ->
     h `prefix_of` [ScanStatusQueued; ScanStatusRunning; ScanStatusCompleted]
     \/ h `prefix_of` [ScanStatusQueued; ScanStatusRunning; ScanStatusFailed])
  /\ (forall t0, loadTasks fs !! id = Some t0 ->
        h = [Status t0]
        \/ (Status t0 = ScanStatusRunning
            /\ h = [ScanStatusRunning; ScanStatusFailed]))
  /\ (forall t, lookup_task id s = Some t -> last h = Some (Status t))
  /\ (forall ev s', step RFC3339 ev s = Some s' ->
        exists ext,
          st_trace s' !! id = Some (h ++ ext)
          /\ ScanStatusQueued ∉ ext
          /\ (last h = Some ScanStatusCompleted \/ last h = Some ScanStatusFailed ->
              ext = [])).
Proof.
  intros Hr Hh. pose proof (reachable_inv _ Hr) as H.
  pose proof (inv_legal _ _ _ _ _ _ _ H _ _ Hh) as Hleg.
  split; [|split; [|split]].
  - intros Hnl. rewrite Hnl in Hleg. simpl in Hleg.
    destruct Hleg as [->|[->|[->| ->]]].
    + left. by exists [ScanStatusRunning; ScanStatusCompleted].
    + left. by exists [ScanStatusCompleted].
    + left. by exists [].
    + right. by exists [].
  - intros t0 Ht0. rewrite Ht0 in Hleg. simpl in Hleg.
    destruct Hleg as [[_ ->]|[Hrun ->]]; auto.
  - intros t Ht. destruct (inv_last _ _ _ _ _ _ _ H _ _ Ht) as (h0 & Hh0 & Hl).
    congruence.
  - intros ev s' Hstep.
    assert (Hr' : reachable RFC3339 fs config s') by (by eapply reachable_step).
    pose proof (reachable_inv _ Hr') as H'.
    destruct (step_trace _ _ _ Hstep) as [Heq|(id' & st & Heq)].
    { exists []. rewrite Heq, app_nil_r. split; [done|]. split; [set_solver|done]. }
    destruct (decide (id' = id)) as [->|Hne].
    2:{ exists []. rewrite Heq, lookup_insert_ne, app_nil_r by done.
        split; [done|]. split; [set_solver|done]. }
    assert (Hh' : st_trace s' !! id = Some (h ++ [st])).
    { by rewrite Heq, lookup_insert_eq, Hh. }
    exists [st]. split; [done|].
    pose proof (inv_legal _ _ _ _ _ _ _ H' _ _ Hh') as Hleg'.
    unfold legal_trace in Hleg, Hleg'.
    destruct (loadTasks fs !! id) as [t0|].
    + exfalso. destruct Hleg as [[Hn ->]|[Hrun ->]];
        destruct Hleg' as [[Hn' Hx]|[Hrun' Hx]]; simpl in Hx; try discriminate.
      congruence.
    + destruct Hleg as [->|[->|[->| ->]]];
        destruct Hleg' as [Hx|[Hx|[Hx|Hx]]]; simpl in Hx; try discriminate;
        injection Hx as ->;
        (split; [intros ?%list_elem_of_singleton; discriminate
                |intros [Hl|Hl]; discriminate]).
Qed.

End Preservation.

Lemma run_reachable RFC3339 fs config evs :
  forall s s',
    reachable RFC3339 fs config s ->
    run RFC3339 evs s = Some s' ->
    reachable RFC3339 fs config s'.
Proof.
  induction evs as [|ev evs IH]; intros s s' Hr Hrun; simpl in Hrun.
  - by injection Hrun as <-.
  - destruct (step RFC3339 ev s) as [s1|] eqn:Hstep; [|done]. simpl in Hrun.
    eapply IH; [|exact Hrun]. by eapply reachable_step.
Qed.

Lemma abc_reachable :
  exists s, abc_state = Some s /\ reachable sample_format ∅ one_worker s.
Proof.
  unfold abc_state.
  destruct (boot sample_format ∅ one_worker (fun _ => 0) (fun _ => true))
    as [s0|] eqn:Hboot; [|vm_compute in Hboot; discriminate].
  cbn [mbind option_bind].
  destruct (run sample_format abc_events s0) as [s|] eqn:Hrun.
  - exists s. split; [done|]. eapply run_reachable; [|exact Hrun].
    by eapply reachable_boot.
  - exfalso. vm_compute in Hboot. injection Hboot as <-.
    vm_compute in Hrun. discriminate.
Defined.

Lemma worker_pool_bound_witness :
  exists s,
    abc_state = Some s
    /\ reachable sample_format ∅ one_worker s
    /\ (size (running_ids s) <= 1)%nat.
Proof.
  destruct abc_reachable as (s & Hs & Hr). exists s.
  split; [exact Hs|]. split; [exact Hr|].
  destruct (worker_pool_bound sample_format ∅ one_worker s Hr)
    as (_ & _ & _ & Hn & _).
  exact Hn.
Defined.

Lemma status_sequence_witness :
  exists s,
    abc_state = Some s
    /\ reachable sample_format ∅ one_worker s
    /\ st_trace s !! "A"
       = Some [ScanStatusQueued; ScanStatusRunning; ScanStatusCompleted]
    /\ forall t, lookup_task "A" s = Some t -> Status t = ScanStatusCompleted.
Proof.
  destruct abc_reachable as (s & Hs & Hr). exists s.
  split; [exact Hs|]. split; [exact Hr|].
  assert (Htr : st_trace s !! "A"
                = Some [ScanStatusQueued; ScanStatusRunning; ScanStatusCompleted]).
  { assert (Hc : (s0 ← abc_state; st_trace s0 !! "A")
                 = Some [ScanStatusQueued; ScanStatusRunning; ScanStatusCompleted])
      by (vm_compute; reflexivity).
    rewrite Hs in Hc. exact Hc. }
  split; [exact Htr|].
  destruct (status_sequence sample_format ∅ one_worker s "A" _ Hr Htr)
    as (_ & _ & Hlast & _).
  intros t Ht. specialize (Hlast t Ht). simpl in Hlast. congruence.
Defined.

(** Ticks of a started queue worker, one after the other. *)
Lemma tick_run RFC3339 s n :
  QueueWorker ∈ st_background s ->
  run RFC3339 (replicate n EvTick) s = Some s.
Proof.
  intros Hq.
  assert (Hstep : step RFC3339 EvTick s = Some s).
  { cbn [step]. destruct (decide (QueueWorker ∈ st_background s)); [|done].
    by rewrite processQueue_id. }
  induction n as [|n IH]; [done|].
  cbn [replicate run]. rewrite Hstep. exact IH.
Qed.

(** C2 fails on the code.  Worker limit 1; A, B and C were submitted and
    the scan of A has completed and released its slot.  A slot is free and
    B is queued, but [getNextQueuedTask] returns nil: the tick of the queue
    worker changes nothing on any state, B stays queued after any number
    of ticks, and no scan goroutine exists. *)
Theorem queue_tick_admits_nothing :
  (forall s, processQueue s = s)
  /\ st_pool <$> abc_state = Some 0%nat
  /\ pool_cap <$> abc_state = Some 1%nat
  /\ st_scans <$> abc_state = Some []
  /\ (s ← abc_state; Status <$> lookup_task "A" s) = Some ScanStatusCompleted
  /\ (s ← abc_state; Status <$> lookup_task "B" s) = Some ScanStatusQueued
  /\ forall n,
       (s ← abc_state; run sample_format (replicate n EvTick) s) = abc_state.
Proof.
  split; [apply processQueue_id|].
  split; [vm_compute; reflexivity|]. split; [vm_compute; reflexivity|].
  split; [vm_compute; reflexivity|]. split; [vm_compute; reflexivity|].
  split; [vm_compute; reflexivity|].
  intros n.
  assert (Hc : st_background <$> abc_state = Some [QueueWorker])
    by (vm_compute; reflexivity).
  destruct abc_state as [s|]; [|done]. injection Hc as Hbg.
  cbn [mbind option_bind]. apply tick_run. rewrite Hbg. constructor.
Qed.

End Scheduler.

(** ** The log stream *)

Module Streaming.
Import Models Handler Spec Samples.

Lemma listener_ok_lt chans h : listener_ok chans h -> (h < length chans)%nat.
Proof. intros (c & Hc & _). by eapply lookup_lt_Some. Qed.

Lemma listener_ok_app chans extra h :
  listener_ok chans h -> listener_ok (chans ++ extra) h.
Proof.
  intros (c & Hc & Hcl & Hcap). exists c. split; [|done].
  by apply lookup_app_l_Some.
Qed.

Lemma AddLogListener_wf t chans :
  hub_wf t chans ->
  hub_wf (AddLogListener t chans).1.1 (AddLogListener t chans).1.2
  /\ (AddLogListener t chans).2 ∈ LogListeners (AddLogListener t chans).1.1.
Proof.
  intros [Hnd Hok]. unfold AddLogListener. simpl. split; [split|].
  - apply NoDup_app. split; [done|]. split; [|apply NoDup_singleton].
    intros h Hin ->%list_elem_of_singleton.
    rewrite Forall_forall in Hok. apply Hok, listener_ok_lt in Hin. lia.
  - apply Forall_app. split.
    + eapply Forall_impl; [exact Hok|]. intros h. apply listener_ok_app.
    + apply Forall_singleton. exists (mkChan [] 100 false).
      split; [|done]. by rewrite lookup_app_r, Nat.sub_diag.
  - set_solver.
Qed.

(** *** The counter of waiting lines *)







(** *** The steps of the subscriber and of the producer *)
















End Streaming.

(** ** More on the log hub *)

Module HubOps.
Import Models Spec.

Lemma remove_first_notin ch ls : ch ∉ ls -> remove_first ch ls = None.
Proof.
  induction ls as [|l ls IH]; [done|]. intros Hnotin. cbn [remove_first].
  rewrite decide_False by set_solver. rewrite IH by set_solver. done.
Qed.

Lemma remove_first_in ch ls :
  NoDup ls -> ch ∈ ls ->
  exists ls', remove_first ch ls = Some ls'
              /\ ls' = filter (fun l => l <> ch) ls.
Proof.
  induction ls as [|l ls IH]; intros Hnd Hin; [set_solver|].
  apply NoDup_cons in Hnd as [Hnotin Hnd]. cbn [remove_first].
  destruct (decide (l = ch)) as [->|Hne].
  - exists ls. split; [done|]. rewrite filter_cons, decide_False by auto.
    symmetry. clear IH Hnd Hin. induction ls as [|x ls IH]; [done|].
    apply not_elem_of_cons in Hnotin as [Hx Hnotin].
    rewrite filter_cons, decide_True by auto.
    f_equal. by apply IH.
  - destruct IH as (ls' & -> & ->); [done|set_solver|].
    eexists. split; [done|]. by rewrite filter_cons, decide_True.
Qed.

(** X1. [RemoveLogListener] on a registered channel returns, takes
    exactly this channel out of the listeners, closes it with its pending
    lines kept, leaves every other channel as it is and keeps the hub
    well-formed.  On a channel that is not registered it changes nothing
    and does not close the channel again. *)
Theorem RemoveLogListener_spec (ch : nat) (t : ScanTask) (chans : ChanStore) :
  hub_wf t chans ->
  (ch ∈ LogListeners t ->
     exists c chans',
       chans !! ch = Some c
       /\ RemoveLogListener ch t chans
          = Some (set_LogListeners (filter (fun l => l <> ch) (LogListeners t)) t,
                  chans')
       /\ chans' = <[ch := mkChan (ch_buf c) (ch_cap c) true]> chans
       /\ ch ∉ filter (fun l => l <> ch) (LogListeners t)
       /\ hub_wf (set_LogListeners (filter (fun l => l <> ch) (LogListeners t)) t)
            chans')
  /\ (ch ∉ LogListeners t -> RemoveLogListener ch t chans = Some (t, chans)).
Proof.
  intros [Hnd Hok]. split.
  - intros Hin. rewrite Forall_forall in Hok.
    destruct (Hok _ Hin) as (c & Hc & Hcl & Hcap).
    destruct (remove_first_in ch _ Hnd Hin) as (ls' & Hrm & ->).
    exists c, (<[ch := mkChan (ch_buf c) (ch_cap c) true]> chans).
    split; [done|]. unfold RemoveLogListener, close_chan.
    rewrite Hrm, Hc, Hcl. split; [done|]. split; [done|].
    split; [rewrite list_elem_of_filter; tauto|].
    split; simpl.
    + by apply NoDup_filter.
    + apply Forall_forall. intros h [Hne Hh]%list_elem_of_filter.
      apply LogHub.listener_ok_insert_ne; [done|]. by apply Hok.
  - intros Hnotin. unfold RemoveLogListener.
    by rewrite remove_first_notin.
Qed.

Lemma RemoveLogListener_spec_witness :
  RemoveLogListener 1 Samples.hub_sample_task Samples.hub_sample_chans
  = Some (set_LogListeners [0%nat] Samples.hub_sample_task,
          [mkChan [] 100 false; mkChan (replicate 100 "x") 100 true])
  /\ RemoveLogListener 7 Samples.hub_sample_task Samples.hub_sample_chans
     = Some (Samples.hub_sample_task, Samples.hub_sample_chans).
Proof.
  destruct (RemoveLogListener_spec 1 _ _ LogHub.hub_sample_wf) as [Hin _].
  destruct (RemoveLogListener_spec 7 _ _ LogHub.hub_sample_wf) as [_ Hout].
  split.
  - destruct Hin as (c & chans' & Hc & Hr & -> & _); [simpl; set_solver|].
    rewrite Hr. vm_compute in Hc. injection Hc as <-. reflexivity.
  - apply Hout. simpl. set_solver.
Defined.

(** X2. [CloseAllLogListeners] on a well-formed hub returns, empties the
    listeners, closes each of them with its pending lines kept and leaves
    every other channel as it is.  After it, a second call, a later
    [AddLog] and the [RemoveLogListener] of a former listener all return
    without touching a channel. *)
Theorem CloseAllLogListeners_spec (t : ScanTask) (chans : ChanStore)
    (line : string) (ch : nat) :
  hub_wf t chans ->
  exists chans',
    CloseAllLogListeners t chans = Some (set_LogListeners [] t, chans')
    /\ (forall h,
          chans' !! h
          = (fun c => if bool_decide (h ∈ LogListeners t)
                      then mkChan (ch_buf c) (ch_cap c) true else c)
            <$> chans !! h)
    /\ CloseAllLogListeners (set_LogListeners [] t) chans'
       = Some (set_LogListeners [] t, chans')
    /\ AddLog line (set_LogListeners [] t) chans'
       = Some (set_LogLines (LogLines t ++ [line]) (set_LogListeners [] t), chans')
    /\ RemoveLogListener ch (set_LogListeners [] t) chans'
       = Some (set_LogListeners [] t, chans').
Proof.
  intros [Hnd Hok].
  destruct (Recovery.close_all_spec _ chans Hnd Hok) as (chans' & Hc & _ & Hlk).
  exists chans'. unfold CloseAllLogListeners. rewrite Hc.
  split; [done|]. split; [exact Hlk|]. split; [done|]. split; [done|].
  done.
Qed.

Lemma CloseAllLogListeners_spec_witness :
  CloseAllLogListeners Samples.hub_sample_task Samples.hub_sample_chans
  = Some (set_LogListeners [] Samples.hub_sample_task,
          [mkChan [] 100 true; mkChan (replicate 100 "x") 100 true]).
Proof.
  destruct (CloseAllLogListeners_spec _ _ "late" 0 LogHub.hub_sample_wf)
    as (chans' & Hc & _).
  rewrite Hc. vm_compute in Hc. injection Hc as <-. reflexivity.
Defined.

(** X3. A listener made by [AddLogListener] is a new open channel of
    capacity 100 without pending lines: the lines logged before are not in
    it, a receive on it would block.  The next [AddLog] puts its line into
    this channel, and the receive then yields this line. *)
Theorem subscribe_then_log (t : ScanTask) (chans : ChanStore) (line : string) :
  hub_wf t chans ->
  let r := AddLogListener t chans in
  r.2 = length chans
  /\ r.1.2 !! r.2 = Some (mkChan [] 100 false)
  /\ (forall h c, chans !! h = Some c -> r.1.2 !! h = Some c)
  /\ GetLogLines r.1.1 = GetLogLines t
  /\ recv r.2 r.1.2 = None
  /\ hub_wf r.1.1 r.1.2
  /\ exists chans',
       AddLog line r.1.1 r.1.2
       = Some (set_LogLines (LogLines t ++ [line]) r.1.1, chans')
       /\ chans' !! r.2 = Some (mkChan [line] 100 false)
       /\ exists chans'',
            recv r.2 chans' = Some (RecvLine line, chans'')
            /\ chans'' !! r.2 = Some (mkChan [] 100 false).
Proof.
  intros Hwf r.
  destruct (Streaming.AddLogListener_wf t chans Hwf) as [Hwf' Hin].
  fold r in Hwf', Hin.
  assert (Hnew : r.1.2 !! r.2 = Some (mkChan [] 100 false)).
  { subst r. simpl. by rewrite lookup_app_r, Nat.sub_diag. }
  split; [done|]. split; [exact Hnew|].
  split; [intros h c Hc; subst r; simpl; by apply lookup_app_l_Some|].
  split; [done|].
  split; [unfold recv; by rewrite Hnew|].
  split; [exact Hwf'|].
  destruct (Recovery.AddLog_wf line _ _ Hwf') as (chans' & Hadd & _ & Hlk).
  exists chans'. split; [exact Hadd|].
  assert (Hc' : chans' !! r.2 = Some (mkChan [line] 100 false)).
  { rewrite Hlk, Hnew. simpl. by rewrite bool_decide_eq_true_2. }
  split; [exact Hc'|].
  eexists. unfold recv. rewrite Hc'. simpl. split; [reflexivity|].
  apply list_lookup_insert_eq. by eapply lookup_lt_Some.
Qed.

Lemma subscribe_then_log_witness :
  exists chans',
    AddLog "line" (AddLogListener Samples.hub_sample_task Samples.hub_sample_chans).1.1
      (AddLogListener Samples.hub_sample_task Samples.hub_sample_chans).1.2
    = Some (set_LogLines ["line"]
              (AddLogListener Samples.hub_sample_task Samples.hub_sample_chans).1.1,
            chans')
    /\ chans' !! 2%nat = Some (mkChan ["line"] 100 false).
Proof.
  destruct (subscribe_then_log Samples.hub_sample_task Samples.hub_sample_chans
              "line" LogHub.hub_sample_wf)
    as (_ & _ & _ & _ & _ & _ & chans' & Hadd & Hc & _).
  exists chans'. split; [exact Hadd|exact Hc].
Defined.

End HubOps.

(** ** More on the command line *)

Module CommandLine.
Import Models Service Spec.

Lemma mask_scan_idem b args :
  mask_scan b (mask_scan b args) = mask_scan b args.
Proof.
  revert b. induction args as [|a args IH]; intros b; [done|].
  cbn [mask_scan]. destruct b; cbn [is_credential_flag]; by rewrite IH.
Qed.

(** X4. [maskCredentials] is idempotent: masking a masked argument list
    changes nothing. *)
Theorem maskCredentials_idempotent (args : list string) :
  maskCredentials (maskCredentials args) = maskCredentials args.
Proof. rewrite !Masking.maskCredentials_scan. apply mask_scan_idem. Qed.

Lemma length_args_before config :
  length (args_before config)
  = if bool_decide (ServerURL config = "") then 6%nat else 8%nat.
Proof. unfold args_before. by destruct (bool_decide (ServerURL config = "")). Qed.

Lemma mask_scan_before_length config :
  length (mask_scan false (args_before config))
  = if bool_decide (ServerURL config = "") then 6%nat else 8%nat.
Proof. by rewrite Masking.mask_scan_length, length_args_before. Qed.

(** X5. In the arguments that [buildTrivyArgs] makes for a task, a user
    name that is not empty stands right after "--username" at a position
    fixed by the server URL, and a password that is not empty right after
    "--password"; [maskCredentials] keeps the two flags and puts the
    placeholder at the place of each value, whatever the values and the
    other settings are. *)
Theorem credentials_masked (config : TrivyConfig) (task : ScanTask)
    (sc : ScanConfig) :
  Config task = Some sc ->
  exists args,
    buildTrivyArgs config task = Some args
    /\ let u := if bool_decide (ServerURL config = "") then 6%nat else 8%nat in
       let p := if bool_decide (Username sc = "") then u else S (S u) in
       (Username sc <> "" ->
          args !! u = Some "--username"
          /\ args !! S u = Some (Username sc)
          /\ maskCredentials args !! u = Some "--username"
          /\ maskCredentials args !! S u = Some "***")
       /\ (Password sc <> "" ->
             args !! p = Some "--password"
             /\ args !! S p = Some (Password sc)
             /\ maskCredentials args !! p = Some "--password"
             /\ maskCredentials args !! S p = Some "***").
Proof.
  intros Hsc. destruct (Masking.masked_args config task sc Hsc) as (args & Hb & Hm).
  exists args. split; [exact Hb|]. intros u p. subst u p.
  rewrite Hm. rewrite (Masking.buildTrivyArgs_split _ _ _ Hsc) in Hb.
  injection Hb as <-.
  unfold args_before, args_credentials, masked_credentials.
  destruct (bool_decide (ServerURL config = "")) eqn:Hs;
    destruct (bool_decide (Username sc = "")) eqn:Hu;
    destruct (bool_decide (Password sc = "")) eqn:Hp;
    try apply bool_decide_eq_true in Hu; try apply bool_decide_eq_true in Hp;
    (split; intros Hne; [try done|try done]); cbn; done.
Qed.

Lemma credentials_masked_witness :
  maskCredentials
    (default [] (buildTrivyArgs Samples.masking_config
                   (Samples.masking_task "bob" "hunter2")))
  !! 9%nat = Some "***".
Proof.
  destruct (credentials_masked Samples.masking_config
              (Samples.masking_task "bob" "hunter2") _ eq_refl)
    as (args & Hb & Hu & _).
  rewrite Hb. simpl. apply Hu. discriminate.
Defined.

(** X6. [buildTrivyArgs] panics exactly on a task without configuration.
    Otherwise the arguments start with "image" and end with the image of
    the task; the flags that do not depend on the request stand at fixed
    places after the optional server; there are between 7 and 25
    arguments. *)
Theorem buildTrivyArgs_shape (config : TrivyConfig) (task : ScanTask) :
  (buildTrivyArgs config task = None <-> Config task = None)
  /\ forall args,
       buildTrivyArgs config task = Some args ->
       head args = Some "image"
       /\ last args = Some (Image task)
       /\ (7 <= length args <= 25)%nat
       /\ (let k := if bool_decide (ServerURL config = "") then 1%nat else 3%nat in
           take 5 (drop k args)
           = ["--skip-db-update"; "--image-src"; "remote"; "--timeout"; "10m"])
       /\ (ServerURL config <> "" ->
             take 2 (drop 1 args) = ["--server"; ServerURL config]).
Proof.
  split.
  - unfold buildTrivyArgs. by destruct (Config task).
  - intros args Hb. destruct (Config task) as [sc|] eqn:Hsc;
      [|unfold buildTrivyArgs in Hb; by rewrite Hsc in Hb].
    rewrite (Masking.buildTrivyArgs_split _ _ _ Hsc) in Hb.
    assert (args = args_before config ++ args_credentials sc
                   ++ args_after sc (Image task)) as -> by congruence.
    clear Hb. split; [done|]. split.
    { generalize (args_before config), (args_credentials sc).
      intros b c. unfold args_after. rewrite !app_assoc. apply last_snoc. }
    split.
    { rewrite !length_app. unfold args_before, args_credentials, args_after.
      rewrite !length_app.
      destruct (negb (bool_decide (ServerURL config = "")));
      destruct (negb (bool_decide (Username sc = "")));
      destruct (negb (bool_decide (Password sc = "")));
      destruct (negb (TLSVerify sc));
      destruct (0 <? length (Severity sc))%nat;
      destruct (IgnoreUnfixed sc);
      destruct (0 <? length (Scanners sc))%nat;
      destruct (negb (bool_decide (DetectionPriority sc = "")));
      destruct (0 <? length (PkgTypes sc))%nat;
      destruct (negb (bool_decide (Format sc = ""))); simpl; lia. }
    unfold args_before.
    destruct (bool_decide (ServerURL config = "")) eqn:Hs.
    + apply bool_decide_eq_true in Hs. split; [done|]. by intros [].
    + split; done.
Qed.

Lemma buildTrivyArgs_shape_witness :
  last (default [] (buildTrivyArgs Samples.masking_config
                      (Samples.masking_task "bob" "hunter2")))
  = Some (Image (Samples.masking_task "bob" "hunter2")).
Proof.
  destruct (buildTrivyArgs_shape Samples.masking_config
              (Samples.masking_task "bob" "hunter2")) as [_ H].
  destruct (H _ eq_refl) as (_ & Hl & _). exact Hl.
Defined.

End CommandLine.

(** ** The repositories: round trips and the files behind the index *)

Module RepoOps.
Import Models Repository Service Spec RepoSpec.

(** X7. The in-memory repository, on an id that is not stored: [Create]
    succeeds and [GetByID] then returns the record, the other ids keep
    what they had, a second [Create] is refused; an [Update] with a record
    of this id replaces it, and [Delete] then gives back the store from
    before the [Create]. *)
Theorem InMemory_round_trip (task task' : ScanTask) (m : TaskMap) :
  m !! ID task = None -> ID task' = ID task ->
  let m1 := (InMemory_Create task m).1 in
  let m2 := (InMemory_Update task' m1).1 in
  (InMemory_Create task m).2 = None
  /\ GetByID (ID task) m1 = Some task
  /\ (forall id, id <> ID task -> GetByID id m1 = GetByID id m)
  /\ InMemory_Create task m1 = (m1, Some (ErrAlreadyExists (ID task)))
  /\ (InMemory_Update task' m1).2 = None
  /\ GetByID (ID task) m2 = Some task'
  /\ (forall id, id <> ID task -> GetByID id m2 = GetByID id m)
  /\ InMemory_Delete (ID task) m2 = (m, None).
Proof.
  intros Hnone Hid m1 m2.
  assert (H1 : InMemory_Create task m = (<[ID task := task]> m, None)).
  { unfold InMemory_Create. by rewrite Hnone. }
  assert (Hm1 : m1 = <[ID task := task]> m) by (subst m1; by rewrite H1).
  assert (H2 : InMemory_Update task' m1 = (<[ID task := task']> m, None)).
  { unfold InMemory_Update. rewrite Hm1, Hid, lookup_insert_eq.
    by rewrite insert_insert_eq. }
  assert (Hm2 : m2 = <[ID task := task']> m) by (subst m2; by rewrite H2).
  rewrite H1, H2, Hm2. clear H1 H2 Hm2 m2. rewrite Hm1. clear Hm1 m1.
  unfold GetByID, InMemory_Create, InMemory_Delete.
  rewrite !lookup_insert_eq. cbn [fst snd].
  repeat split; try done.
  - intros id Hne. by rewrite lookup_insert_ne.
  - intros id Hne. by rewrite lookup_insert_ne.
  - by rewrite delete_insert_id.
Qed.

Lemma InMemory_round_trip_witness :
  InMemory_Delete "a"
    (InMemory_Update scan_a_running (InMemory_Create scan_a ∅).1).1
  = (∅, None).
Proof.
  pose proof (InMemory_round_trip scan_a scan_a_running ∅ eq_refl eq_refl) as H.
  cbv zeta in H. apply H.
Defined.

Lemma persisted_idem t : persisted (persisted t) = persisted t.
Proof. done. Qed.

Lemma disk_mirror_empty : disk_mirror (mkFileScanRepository ∅ ∅).
Proof.
  split; [apply Retention.keyed_empty|]. split; [|split].
  - intros id t H. cbn [tasks] in H. by rewrite lookup_empty in H.
  - intros u id f H. cbn [files] in H. by rewrite lookup_empty in H.
  - intros id t H. cbn [tasks] in H. by rewrite lookup_empty in H.
Qed.

Lemma scan_a_plain : plain_path scan_a.
Proof. by repeat split. Qed.

Lemma disk_mirror_save task r :
  disk_mirror r -> plain_path task ->
  (forall old, tasks r !! ID task = Some old -> UserID old = UserID task) ->
  disk_mirror
    (mkFileScanRepository (<[(UserID task, ID task) := persisted task]> (files r))
       (<[ID task := task]> (tasks r))).
Proof.
  intros (Hk & Hf & Hb & Hp) Hplain Hu.
  split; [by apply Retention.keyed_insert|]. split; [|split].
  3:{ intros id t. cbn [tasks].
      destruct (decide (id = ID task)) as [->|Hne].
      - rewrite lookup_insert_eq. by intros [= <-].
      - rewrite lookup_insert_ne by done. apply Hp. }
  - intros id t. cbn [tasks files].
    destruct (decide (id = ID task)) as [->|Hne].
    + rewrite lookup_insert_eq. intros [= <-]. by rewrite lookup_insert_eq.
    + rewrite lookup_insert_ne by done. intros Ht.
      rewrite lookup_insert_ne by congruence. by apply Hf.
  - intros u id f. cbn [tasks files].
    destruct (decide (id = ID task)) as [->|Hne].
    + rewrite lookup_insert_eq.
      destruct (decide (u = UserID task)) as [->|Hneu]; [eauto|].
      rewrite lookup_insert_ne by congruence. intros Hfile.
      destruct (Hb _ _ _ Hfile) as (old & Hold & Hou).
      specialize (Hu _ Hold). congruence.
    + rewrite !lookup_insert_ne by congruence. apply Hb.
Qed.

Lemma disk_mirror_Create disk_ok task r :
  disk_mirror r -> plain_path task -> disk_mirror (Create disk_ok task r).1.
Proof.
  intros Hm Hplain. unfold Create, saveTaskToFile.
  destruct (tasks r !! ID task) eqn:Ht; [done|].
  destruct disk_ok; [|done]. cbn [fst].
  apply disk_mirror_save; [done|done|]. intros old Hold. congruence.
Qed.

Lemma disk_mirror_Update disk_ok task r :
  disk_mirror r ->
  (forall old, tasks r !! ID task = Some old -> UserID old = UserID task) ->
  disk_mirror (Update disk_ok task r).1.
Proof.
  intros Hm Hu. unfold Update, saveTaskToFile.
  destruct (tasks r !! ID task) as [old|] eqn:Ht; [|done].
  destruct disk_ok; [|done]. cbn [fst].
  pose proof (Hu old eq_refl) as Huo.
  apply disk_mirror_save; [done| |by rewrite Ht].
  destruct Hm as (Hk & _ & _ & Hp).
  destruct (Hp _ _ Ht) as (H1 & H2 & H3 & H4 & H5).
  rewrite (Hk _ _ Ht) in H5. rewrite Huo in H1, H2, H3, H4.
  by repeat split.
Qed.




Lemma load_lookup (l : list ScanTask) id t :
  NoDup (ID <$> l) ->
  foldr (fun task m => <[ID task := task]> m) (∅ : TaskMap) l !! id = Some t
  <-> t ∈ l /\ ID t = id.
Proof.
  induction l as [|x l IH]; cbn [foldr].
  - intros _. rewrite lookup_empty. split; [done|]. intros [H _]. by inversion H.
  - rewrite fmap_cons. intros [Hx Hl]%NoDup_cons.
    destruct (decide (ID x = id)) as [<-|Hne].
    + rewrite lookup_insert_eq. split.
      * intros [= <-]. split; [left|done].
      * intros [[->|Hin]%elem_of_cons Hid]; [done|].
        exfalso. apply Hx. rewrite <- Hid. apply list_elem_of_fmap. eauto.
    + rewrite lookup_insert_ne by done. rewrite (IH Hl). split.
      * intros [Hin Hid]. split; [by right|done].
      * intros [[->|Hin]%elem_of_cons Hid]; [done|]. done.
Qed.

Lemma loadTasks_mirror r :
  disk_mirror r -> loadTasks (files r) = persisted <$> tasks r.
Proof.
  intros (Hk & Hf & Hb & _).
  assert (Hfile : forall u i f, files r !! (u, i) = Some f ->
            exists t, tasks r !! i = Some t /\ UserID t = u /\ f = persisted t
                      /\ ID f = i).
  { intros u i f Hfile. destruct (Hb _ _ _ Hfile) as (t & Ht & <-).
    exists t. rewrite (Hf _ _ Ht) in Hfile. injection Hfile as <-.
    repeat split; [done|]. cbn. by apply Hk. }
  assert (Hnd : NoDup (ID <$> (persisted <$> (map_to_list (files r)).*2))).
  { rewrite <- !list_fmap_compose. apply NoDup_fmap_2_strong;
      [|apply NoDup_map_to_list].
    intros [[u1 i1] f1] [[u2 i2] f2] H1%elem_of_map_to_list
           H2%elem_of_map_to_list Heq. cbn in Heq.
    destruct (Hfile _ _ _ H1) as (t1 & Ht1 & <- & -> & Hi1).
    destruct (Hfile _ _ _ H2) as (t2 & Ht2 & <- & -> & Hi2).
    unfold compose in Heq. cbn in Hi1, Hi2, Heq.
    assert (i1 = i2) as -> by congruence.
    rewrite Ht1 in Ht2. by injection Ht2 as <-. }
  apply map_eq. intros id. unfold loadTasks. rewrite lookup_fmap.
  destruct (tasks r !! id) as [t|] eqn:Ht; cbn [fmap option_fmap option_map].
  - apply load_lookup; [done|]. split; [|cbn; by apply Hk].
    apply list_elem_of_fmap. exists (persisted t). split; [done|].
    apply list_elem_of_fmap. exists ((UserID t, id), persisted t).
    split; [done|]. apply elem_of_map_to_list. by apply Hf.
  - apply eq_None_not_Some. intros [x Hx].
    apply load_lookup in Hx as [Hin Hid]; [|done].
    apply list_elem_of_fmap in Hin as (f & -> & Hin).
    apply list_elem_of_fmap in Hin as ([[u i] f'] & -> & Hin).
    apply elem_of_map_to_list in Hin.
    destruct (Hfile _ _ _ Hin) as (t & Ht' & _ & _ & Hi).
    cbn in Hid, Hi. congruence.
Qed.

(** X9. A restart over the files of a repository whose files and index
    agree loads exactly the indexed records, each without its log lines
    and listeners and otherwise as it was (the JSON encoding gives back
    every other field), and files and index agree again. *)
Theorem restart_round_trip (r : FileScanRepository) :
  disk_mirror r ->
  NewFileScanRepository (files r)
  = mkFileScanRepository (files r) (persisted <$> tasks r)
  /\ (forall id, GetByID id (tasks (NewFileScanRepository (files r)))
                 = persisted <$> GetByID id (tasks r))
  /\ disk_mirror (NewFileScanRepository (files r)).
Proof.
  intros Hm. unfold NewFileScanRepository. rewrite (loadTasks_mirror _ Hm).
  split; [done|]. split; [intros id; apply lookup_fmap|].
  destruct Hm as (Hk & Hf & Hb & Hp).
  split; [|split; [|split]]; cbn [tasks files].
  4:{ intros id t. rewrite lookup_fmap.
      destruct (tasks r !! id) as [x|] eqn:Hx; [|done].
      intros [= <-]. exact (Hp _ _ Hx). }
  - intros id t. rewrite lookup_fmap.
    destruct (tasks r !! id) as [x|] eqn:Hx; [|done].
    intros [= <-]. cbn. by apply Hk.
  - intros id t. rewrite lookup_fmap.
    destruct (tasks r !! id) as [x|] eqn:Hx; [|done].
    intros [= <-]. exact (Hf _ _ Hx).
  - intros u id f Hfile. destruct (Hb _ _ _ Hfile) as (t & Ht & Hu).
    exists (persisted t). rewrite lookup_fmap, Ht. done.
Qed.

Lemma restart_round_trip_witness :
  tasks (NewFileScanRepository (files (Update true scan_a_running repo_a).1))
  !! "a" = Some (set_Status ScanStatusRunning scan_a).
Proof.
  destruct (restart_round_trip (Update true scan_a_running repo_a).1)
    as (_ & H & _).
  - apply disk_mirror_Update;
      [apply disk_mirror_Create; [apply disk_mirror_empty|apply scan_a_plain]|].
    intros old. vm_compute. by intros [= <-].
  - unfold GetByID in H. rewrite H. reflexivity.
Defined.

End RepoOps.

(** ** Pages of the task list *)

Module Pages.
Import Models Repository Service Spec Queries.

Lemma matching_spec userID flt (m : TaskMap) t :
  t ∈ matching userID flt m
  <-> (exists id, m !! id = Some t)
      /\ UserID t = userID
      /\ (FilterStatus flt = "" \/ Status t = FilterStatus flt).
Proof.
  unfold matching.
  rewrite Retention.elem_of_stdlib_filter, Retention.elem_of_range_tasks.
  unfold list_match.
  destruct (decide (UserID t = userID)) as [Hu|Hu];
    destruct (decide (FilterStatus flt = "")) as [Hf|Hf];
    destruct (decide (Status t = FilterStatus flt)) as [Hs|Hs];
    rewrite ?(bool_decide_eq_true_2 _ Hu), ?(bool_decide_eq_false_2 _ Hu),
            ?(bool_decide_eq_true_2 _ Hf), ?(bool_decide_eq_false_2 _ Hf),
            ?(bool_decide_eq_true_2 _ Hs), ?(bool_decide_eq_false_2 _ Hs);
    simpl; intuition congruence.
Qed.

Lemma matching_NoDup userID flt (m : TaskMap) :
  keyed m -> NoDup (ID <$> matching userID flt m).
Proof.
  intros Hk. unfold matching. apply Retention.NoDup_fmap_stdlib_filter.
  rewrite Retention.range_tasks_ids by done. apply NoDup_fst_map_to_list.
Qed.

(** What a call of [List] that returns has computed. *)
Lemma List_inv userID flt (m : TaskMap) page total :
  int64_range (PageSize flt) ->
  List userID flt m = Some (page, total) ->
  total = Z.of_nat (length (matching userID flt m))
  /\ exists a n,
       page = take n (drop a (sortTasks (matching userID flt m)
                                (SortBy flt) (SortOrder flt)))
       /\ Z.of_nat n <= Z.max 0 (PageSize flt).
Proof.
  intros Hps. unfold List. fold (matching userID flt m).
  set (sorted := sortTasks _ _ _).
  set (start := wrap64 (wrap64 (Page flt - 1) * PageSize flt)).
  set (end0 := wrap64 (start + PageSize flt)).
  set (tot := Z.of_nat (length (matching userID flt m))).
  destruct (Z.leb_spec tot start) as [Hge|Hlt].
  - intros [= <- <-]. split; [done|]. exists 0%nat, 0%nat. split; [done|lia].
  - unfold slice.
    destruct (_ && _ && _) eqn:Hc; [|done]. intros [= <- <-]. split; [done|].
    eexists _, _. split; [reflexivity|].
    apply andb_true_iff in Hc as [[H0 Hle]%andb_true_iff _].
    apply Z.leb_le in H0, Hle.
    pose proof (wrap64_range (wrap64 (Page flt - 1) * PageSize flt)) as Hs.
    fold start in Hs. unfold int64_range in Hs, Hps.
    assert (Hend : (if tot <? end0 then tot else end0) <= end0)
      by (destruct (Z.ltb_spec tot end0); lia).
    assert (Hw : end0 < start \/ end0 = start + PageSize flt).
    { subst end0. destruct (decide (start + PageSize flt < 2 ^ 63)) as [Hsm|Hbig].
      - right. apply wrap64_id. unfold int64_range. lia.
      - left. unfold wrap64.
        replace (start + PageSize flt + 2 ^ 63)
          with ((start + PageSize flt - 2 ^ 63) + 1 * 2 ^ 64) by lia.
        rewrite Z.mod_add by lia. rewrite Z.mod_small by lia. lia. }
    lia.
Qed.

(** X10. A page that [List] returns holds records of the store that
    belong to the user of the request and pass its status filter, at most
    as many as the page size, and no record twice when every record is
    stored under its id; the total is the number of records that belong
    to the user and pass the filter, whatever the page is. *)
Theorem List_isolation (userID : string) (flt : TaskListRequest)
    (m : TaskMap) (page : list ScanTask) (total : Z) :
  int64_range (PageSize flt) ->
  List userID flt m = Some (page, total) ->
  (forall t, t ∈ page ->
     (exists id, m !! id = Some t)
     /\ UserID t = userID
     /\ (FilterStatus flt = "" \/ Status t = FilterStatus flt))
  /\ Z.of_nat (length page) <= Z.max 0 (PageSize flt)
  /\ total = Z.of_nat (size (filter (fun kv : string * ScanTask =>
                                       list_match userID flt kv.2 = true) m))
  /\ (keyed m -> NoDup (ID <$> page)).
Proof.
  intros Hps HL.
  destruct (List_inv _ _ _ _ _ Hps HL) as (Htot & a & n & -> & Hn).
  assert (Hsub : take n (drop a (sortTasks (matching userID flt m)
                                   (SortBy flt) (SortOrder flt)))
                 `sublist_of` sortTasks (matching userID flt m)
                                (SortBy flt) (SortOrder flt)).
  { etrans; [apply sublist_take|apply sublist_drop]. }
  split; [|split; [|split]].
  - intros t Hin. apply matching_spec.
    rewrite <- (Paging.sortTasks_perm _ (SortBy flt) (SortOrder flt)).
    by eapply sublist_subseteq.
  - rewrite length_take. lia.
  - rewrite Htot. unfold matching. by rewrite Paging.matching_count.
  - intros Hk. eapply sublist_NoDup; [|by apply fmap_sublist].
    rewrite Paging.sortTasks_perm. by apply matching_NoDup.
Qed.

Lemma List_isolation_witness :
  exists page,
    List "alice" (mkTaskListRequest 2 2 "" "startTime" "desc") Samples.five_tasks
    = Some (page, 5)
    /\ Z.of_nat (length page) <= 2.
Proof.
  assert (HL : exists page,
             List "alice" (mkTaskListRequest 2 2 "" "startTime" "desc")
               Samples.five_tasks = Some (page, 5)).
  { vm_compute. eexists. reflexivity. }
  destruct HL as [page HL]. exists page. split; [exact HL|].
  apply (List_isolation "alice" (mkTaskListRequest 2 2 "" "startTime" "desc")
           Samples.five_tasks page 5); [|exact HL].
  unfold int64_range. cbn [PageSize]. lia.
Defined.

(** The page of [List] when the offsets stay inside the integers. *)
Lemma List_slice userID flt (m : TaskMap) :
  1 <= Page flt -> 0 <= PageSize flt -> Page flt * PageSize flt < 2 ^ 63 ->
  Page flt < 2 ^ 63 ->
  List userID flt m
  = Some (take (Z.to_nat (PageSize flt))
            (drop (Z.to_nat ((Page flt - 1) * PageSize flt))
               (sortTasks (matching userID flt m) (SortBy flt) (SortOrder flt))),
          Z.of_nat (length (matching userID flt m))).
Proof.
  intros Hp Hs Hb Hp'. unfold List. fold (matching userID flt m).
  set (sorted := sortTasks _ _ _).
  set (tot := Z.of_nat (length (matching userID flt m))).
  set (start := (Page flt - 1) * PageSize flt).
  assert (Hlen : Z.of_nat (length sorted) = tot).
  { subst sorted tot. by rewrite Paging.sortTasks_length. }
  assert (Hstart : 0 <= start <= Page flt * PageSize flt).
  { unfold start. split; [apply Z.mul_nonneg_nonneg; lia|].
    apply Z.mul_le_mono_nonneg_r; lia. }
  rewrite (wrap64_id (Page flt - 1)) by (unfold int64_range; lia).
  fold start. rewrite (wrap64_id start) by (unfold int64_range; lia).
  rewrite (wrap64_id (start + PageSize flt)).
  2:{ unfold int64_range.
      replace (start + PageSize flt) with (Page flt * PageSize flt)
        by (unfold start; ring).
      lia. }
  destruct (Z.leb_spec tot start) as [Hge|Hlt].
  - rewrite drop_ge by lia. by rewrite take_nil.
  - unfold slice. rewrite Hlen.
    destruct (Z.ltb_spec tot (start + PageSize flt)) as [Hclamp|Hin].
    + replace ((0 <=? start) && (start <=? tot) && (tot <=? tot))
        with true by (symmetry; rewrite !andb_true_iff; repeat split; lia).
      do 2 f_equal.
      rewrite !take_ge; [done| |]; rewrite length_drop; lia.
    + replace ((0 <=? start) && (start <=? start + PageSize flt)
               && (start + PageSize flt <=? tot))
        with true by (symmetry; rewrite !andb_true_iff; repeat split; lia).
      do 3 f_equal. lia.
Qed.




Lemma List_negative_start userID flt (m : TaskMap) :
  wrap64 (wrap64 (Page flt - 1) * PageSize flt) < 0 ->
  List userID flt m = None.
Proof.
  intros Hneg. unfold List.
  set (start := wrap64 (wrap64 (Page flt - 1) * PageSize flt)) in *.
  destruct (Z.leb_spec (Z.of_nat (length (List.filter (list_match userID flt)
                                            (range_tasks m)))) start)
    as [Hge|Hlt]; [lia|].
  unfold slice. destruct (Z.leb_spec 0 start); [lia|done].
Qed.

Lemma list_defaults_PageSize req :
  PageSize (list_defaults req)
  = (if (1 <=? PageSize req) && (PageSize req <=? 100) then PageSize req else 20)
  /\ 1 <= PageSize (list_defaults req) <= 100.
Proof.
  unfold list_defaults. cbn [PageSize].
  destruct (Z.ltb_spec (PageSize req) 1), (Z.ltb_spec 100 (PageSize req)),
    (Z.leb_spec 1 (PageSize req)), (Z.leb_spec (PageSize req) 100);
    cbn [orb andb]; lia.
Qed.

Lemma list_defaults_Page req : Page (list_defaults req) = Z.max 1 (Page req).
Proof.
  unfold list_defaults. cbn [Page]. destruct (Z.ltb_spec (Page req) 1); lia.
Qed.

Lemma matching_defaults userID req (m : TaskMap) :
  matching userID (list_defaults req) m = matching userID req m.
Proof. done. Qed.

Lemma set_position_ids id pos l :
  SumID <$> set_position id pos l = SumID <$> l.
Proof.
  induction l as [|s l IH]; [done|]. cbn [set_position].
  destruct (bool_decide (SumID s = id)); [done|].
  by rewrite !fmap_cons, IH.
Qed.

Lemma queue_positions_ids q :
  forall i l, SumID <$> queue_positions i q l = SumID <$> l.
Proof.
  induction q as [|qt q IH]; intros i l; [done|].
  cbn [queue_positions]. by rewrite IH, set_position_ids.
Qed.

(** X12. [ListTasks] with a page number below 2^56 returns.  The response
    carries the page number raised to 1 and the page size when it lies
    between 1 and 100, else 20; the total is the number of records of the
    user that pass the status filter; the summaries are, by their ids and
    in order, the records of that page of the matching records sorted
    with the defaults "startTime" and "desc" for an empty sort field or
    order, at most as many as the page size. *)
Theorem ListTasks_response (userID : string) (req : TaskListRequest)
    (m : TaskMap) :
  Page req < 2 ^ 56 ->
  exists resp,
    ListTasks userID req m = Some resp
    /\ RespPage resp = Z.max 1 (Page req)
    /\ RespPageSize resp
       = (if (1 <=? PageSize req) && (PageSize req <=? 100)
          then PageSize req else 20)
    /\ 1 <= RespPageSize resp <= 100
    /\ RespTotal resp = Z.of_nat (length (matching userID req m))
    /\ Z.of_nat (length (RespTasks resp)) <= RespPageSize resp
    /\ SumID <$> RespTasks resp
       = ID <$> take (Z.to_nat (RespPageSize resp))
                  (drop (Z.to_nat ((RespPage resp - 1) * RespPageSize resp))
                     (sortTasks (matching userID req m)
                        (if bool_decide (SortBy req = "") then "startTime"
                         else SortBy req)
                        (if bool_decide (SortOrder req = "") then "desc"
                         else SortOrder req))).
Proof.
  intros Hp. unfold ListTasks.
  destruct (list_defaults_PageSize req) as [Hps Hrange].
  pose proof (list_defaults_Page req) as Hpage.
  rewrite List_slice by (rewrite ?Hpage; nia || lia).
  rewrite matching_defaults. eexists. split; [reflexivity|].
  cbn [RespPage RespPageSize RespTotal RespTasks].
  split; [done|]. split; [done|]. split; [done|]. split; [done|].
  assert (Hids : forall l : list ScanTask, SumID <$> (ToSummary <$> l) = ID <$> l).
  { intros l. rewrite <- list_fmap_compose. done. }
  split.
  - rewrite <- (length_fmap SumID), queue_positions_ids, Hids, length_fmap.
    rewrite length_take. lia.
  - by rewrite queue_positions_ids, Hids.
Qed.

Lemma ListTasks_response_witness :
  exists resp,
    ListTasks "alice" (mkTaskListRequest 0 500 "" "" "") Samples.five_tasks
    = Some resp
    /\ RespPage resp = 1 /\ RespPageSize resp = 20 /\ RespTotal resp = 5.
Proof.
  destruct (ListTasks_response "alice" (mkTaskListRequest 0 500 "" "" "")
              Samples.five_tasks) as (resp & H & Hp & Hs & _ & Ht & _).
  - cbn [Page]. lia.
  - exists resp. split; [exact H|]. split; [exact Hp|]. split; [exact Hs|].
    rewrite Ht. vm_compute. reflexivity.
Defined.

(** C8.  The start offset [(Page-1)*PageSize] is computed in 64-bit
    integers and is not checked.  For page 2^62 with page size 20 the
    product wraps to -20: [List] panics on the slice expression, whatever
    the store holds, and so does [ListTasks], which passes this page
    number and size on unchanged.  For page 2^62+1 with page size 4 the
    product wraps to 0: [List] returns what it returns for page 1, and
    against five matching records that is four records and the total 5
    where the start offset 2^64 is past the total and the result should
    be empty. *)
Theorem List_overflow (userID status sortBy sortOrder : string) (m : TaskMap) :
  List userID (mkTaskListRequest (2 ^ 62) 20 status sortBy sortOrder) m = None
  /\ ListTasks userID (mkTaskListRequest (2 ^ 62) 20 status sortBy sortOrder) m
     = None
  /\ List userID (mkTaskListRequest (2 ^ 62 + 1) 4 status sortBy sortOrder) m
     = List userID (mkTaskListRequest 1 4 status sortBy sortOrder) m
  /\ (exists page,
        List "alice" (mkTaskListRequest (2 ^ 62 + 1) 4 "" "startTime" "desc")
          Samples.five_tasks = Some (page, 5)
        /\ length page = 4%nat
        /\ 5 <= (2 ^ 62 + 1 - 1) * 4)
  /\ (exists resp,
        ListTasks "alice" (mkTaskListRequest (2 ^ 62 + 1) 4 "" "" "")
          Samples.five_tasks = Some resp
        /\ RespPage resp = 2 ^ 62 + 1 /\ RespTotal resp = 5
        /\ length (RespTasks resp) = 4%nat).
Proof.
  split; [apply List_negative_start; vm_compute; reflexivity|].
  split.
  { unfold ListTasks. rewrite List_negative_start; [done|].
    vm_compute. reflexivity. }
  split.
  { unfold List, list_match.
    cbn [Page PageSize FilterStatus SortBy SortOrder].
    assert (H1 : wrap64 (wrap64 (2 ^ 62 + 1 - 1) * 4) = 0)
      by (vm_compute; reflexivity).
    assert (H2 : wrap64 (wrap64 (1 - 1) * 4) = 0) by (vm_compute; reflexivity).
    by rewrite H1, H2. }
  split.
  { eexists. split; [vm_compute; reflexivity|]. split; [reflexivity|lia]. }
  eexists. split; [vm_compute; reflexivity|].
  split; [vm_compute; reflexivity|]. split; reflexivity.
Qed.

End Pages.

(** ** The queue as the queries show it *)

Module QueueOps.
Import Models Repository Service Spec SchedSpec Queries.

Lemma GetQueuedTasks_spec userID (m : TaskMap) t :
  t ∈ GetQueuedTasks userID m
  <-> (exists id, m !! id = Some t)
      /\ UserID t = userID /\ Status t = ScanStatusQueued.
Proof.
  unfold GetQueuedTasks, sort_slice. rewrite merge_sort_Permutation.
  rewrite Retention.elem_of_stdlib_filter, Retention.elem_of_range_tasks.
  rewrite andb_true_iff, !bool_decide_eq_true. tauto.
Qed.

Lemma GetQueuedTasks_NoDup userID (m : TaskMap) :
  keyed m -> NoDup (ID <$> GetQueuedTasks userID m).
Proof.
  intros Hk. unfold GetQueuedTasks, sort_slice. rewrite merge_sort_Permutation.
  apply Retention.NoDup_fmap_stdlib_filter.
  rewrite Retention.range_tasks_ids by done. apply NoDup_fst_map_to_list.
Qed.

Lemma filter_count (f : ScanTask -> bool) (m : TaskMap) :
  length (List.filter f (range_tasks m))
  = size (filter (fun kv : string * ScanTask => f kv.2 = true) m).
Proof.
  unfold range_tasks.
  rewrite Paging.stdlib_filter_length, Paging.filter_snd_length.
  rewrite (Paging.map_to_list_filter_perm _ m).
  by rewrite length_map_to_list.
Qed.

(** X13. [GetQueuedTasks] returns exactly the records of the store that
    belong to the user and have status queued, each once.
    [GetQueueStatus] reports their number, and 30 seconds of wait for
    each of them; records of other users and records that are running,
    completed or failed do not count. *)
Theorem GetQueueStatus_counts (userID : string) (m : TaskMap) :
  (forall t, t ∈ GetQueuedTasks userID m
     <-> (exists id, m !! id = Some t)
         /\ UserID t = userID /\ Status t = ScanStatusQueued)
  /\ QueueLength (GetQueueStatus userID m)
     = Z.of_nat (size (filter (fun kv : string * ScanTask =>
                                 UserID kv.2 = userID
                                 /\ Status kv.2 = ScanStatusQueued) m))
  /\ AverageWaitTime (GetQueueStatus userID m)
     = 30 * QueueLength (GetQueueStatus userID m)
  /\ (keyed m -> NoDup (ID <$> GetQueuedTasks userID m)).
Proof.
  split; [intros t; apply GetQueuedTasks_spec|].
  split; [|split; [cbn; lia|apply GetQueuedTasks_NoDup]].
  cbn [GetQueueStatus QueueLength]. f_equal.
  unfold GetQueuedTasks, sort_slice. rewrite merge_sort_Permutation.
  rewrite filter_count. f_equal. apply map_filter_ext.
  intros id t _. cbn [snd].
  rewrite andb_true_iff, !bool_decide_eq_true. done.
Qed.

Lemma find_none_2 {A} (f : A -> bool) (l : list A) :
  (forall x, x ∈ l -> f x = false) -> List.find f l = None.
Proof.
  induction l as [|x l IH]; [done|]. intros H. cbn [List.find].
  rewrite (H x) by left. apply IH. intros y Hy. apply H. by right.
Qed.

(** X14. [GetRunningTask] returns a record of the store that belongs to
    the user and has status running, when there is one, and nothing
    exactly when the user has no running record. *)
Theorem GetRunningTask_spec (userID : string) (m : TaskMap) :
  (forall t, GetRunningTask userID m = Some t ->
     (exists id, m !! id = Some t)
     /\ UserID t = userID /\ Status t = ScanStatusRunning)
  /\ (GetRunningTask userID m = None
      <-> forall id t, m !! id = Some t -> UserID t = userID ->
            Status t <> ScanStatusRunning).
Proof.
  unfold GetRunningTask. split.
  - intros t [Hin Hf]%find_some.
    apply list_elem_of_In, Retention.elem_of_range_tasks in Hin.
    apply andb_true_iff in Hf as [Hu Hs].
    apply bool_decide_eq_true in Hu, Hs. done.
  - split.
    + intros Hnone id t Ht Hu Hs.
      assert (Hin : In t (range_tasks m)).
      { apply list_elem_of_In, Retention.elem_of_range_tasks. eauto. }
      pose proof (find_none _ _ Hnone t Hin) as Hf. cbn beta in Hf.
      rewrite (bool_decide_eq_true_2 _ Hu), (bool_decide_eq_true_2 _ Hs) in Hf.
      discriminate Hf.
    + intros Hno. apply find_none_2.
      intros t (id & Ht)%Retention.elem_of_range_tasks.
      destruct (decide (UserID t = userID)) as [Hu|Hu].
      * rewrite (bool_decide_eq_true_2 _ Hu).
        rewrite bool_decide_eq_false_2; [done|]. by eapply Hno.
      * by rewrite (bool_decide_eq_false_2 _ Hu).
Qed.

Lemma set_position_lookup id pos (l : list TaskSummary) :
  forall k s,
    NoDup (SumID <$> l) -> l !! k = Some s ->
    set_position id pos l !! k
    = Some (if bool_decide (SumID s = id) then set_SumQueuePosition pos s else s).
Proof.
  induction l as [|x l IH]; intros k s Hnd Hk; [done|].
  rewrite fmap_cons in Hnd. apply NoDup_cons in Hnd as [Hx Hnd].
  cbn [set_position]. destruct k as [|k]; cbn in Hk.
  - injection Hk as ->. by destruct (bool_decide (SumID s = id)).
  - destruct (bool_decide (SumID x = id)) eqn:Hxid.
    + apply bool_decide_eq_true in Hxid. cbn.
      rewrite bool_decide_eq_false_2; [done|]. intros Hs. apply Hx.
      apply list_elem_of_fmap. exists s. split; [congruence|].
      by eapply list_elem_of_lookup_2.
    + cbn. by apply IH.
Qed.

Lemma queue_positions_lookup (q : list ScanTask) :
  forall i (l : list TaskSummary) k s,
    NoDup (SumID <$> l) -> NoDup (ID <$> q) -> l !! k = Some s ->
    queue_positions i q l !! k
    = Some (match list_find (fun qt => ID qt = SumID s) q with
            | Some (j, _) => set_SumQueuePosition (Z.of_nat (i + j) + 1) s
            | None => s
            end).
Proof.
  induction q as [|x q IH]; intros i l k s Hl Hq Hk; [done|].
  rewrite fmap_cons in Hq. apply NoDup_cons in Hq as [Hx Hq].
  cbn [queue_positions].
  pose proof (set_position_lookup (ID x) (Z.of_nat i + 1) l k s Hl Hk) as H1.
  rewrite (IH _ _ _ _ ltac:(by rewrite Pages.set_position_ids) Hq H1).
  cbn [list_find]. destruct (decide (ID x = SumID s)) as [Heq|Hne].
  - rewrite bool_decide_eq_true_2 by done. cbn [SumID set_SumQueuePosition].
    assert (Hnone : list_find (fun qt => ID qt = SumID s) q = None).
    { apply list_find_None, Forall_forall. intros y Hy Hys. apply Hx.
      apply list_elem_of_fmap. exists y. split; [congruence|done]. }
    rewrite Hnone. by rewrite Nat.add_0_r.
  - rewrite bool_decide_eq_false_2 by done.
    destruct (list_find (fun qt => ID qt = SumID s) q) as [[j y]|]; [|done].
    cbn. do 2 f_equal. lia.
Qed.

Lemma List_members userID flt (m : TaskMap) page total :
  int64_range (PageSize flt) -> keyed m ->
  List userID flt m = Some (page, total) ->
  NoDup (ID <$> page)
  /\ forall t, t ∈ page -> m !! ID t = Some t /\ UserID t = userID.
Proof.
  intros Hps Hk HL.
  destruct (Pages.List_inv _ _ _ _ _ Hps HL) as (_ & a & n & -> & _).
  assert (Hsub : take n (drop a (sortTasks (matching userID flt m)
                                   (SortBy flt) (SortOrder flt)))
                 `sublist_of` sortTasks (matching userID flt m)
                                (SortBy flt) (SortOrder flt)).
  { etrans; [apply sublist_take|apply sublist_drop]. }
  split.
  - eapply sublist_NoDup; [|by apply fmap_sublist].
    rewrite Paging.sortTasks_perm. by apply Pages.matching_NoDup.
  - intros t Hin. apply (sublist_subseteq _ _ Hsub) in Hin.
    rewrite Paging.sortTasks_perm in Hin.
    apply Pages.matching_spec in Hin as ((id & Hid) & Hu & _).
    split; [|done]. by rewrite (Hk _ _ Hid).
Qed.

(** X15. In the response of [ListTasks] over a store that keeps every
    record under its id, each summary is the summary of a record of the
    user; for a record with status queued its queue position is its place
    in the list of [GetQueuedTasks], counted from 1, and for any other
    record the summary is the one [ToSummary] makes, with the stored
    queue position. *)
Theorem ListTasks_queue_positions (userID : string) (req : TaskListRequest)
    (m : TaskMap) (resp : TaskListResponse) :
  keyed m ->
  ListTasks userID req m = Some resp ->
  forall k s,
    RespTasks resp !! k = Some s ->
    exists t,
      m !! SumID s = Some t /\ UserID t = userID
      /\ (Status t = ScanStatusQueued ->
            exists j, GetQueuedTasks userID m !! j = Some t
                      /\ s = set_SumQueuePosition (Z.of_nat j + 1) (ToSummary t))
      /\ (Status t <> ScanStatusQueued -> s = ToSummary t).
Proof.
  intros Hk. unfold ListTasks.
  destruct (List userID (list_defaults req) m) as [[page total]|] eqn:HL;
    [|done].
  intros [= <-] k s. cbn [RespTasks]. intros Hs.
  destruct (Pages.list_defaults_PageSize req) as [_ Hrange].
  assert (Hps : int64_range (PageSize (list_defaults req)))
    by (unfold int64_range; lia).
  destruct (List_members _ _ _ _ _ Hps Hk HL) as [Hnd Hmem].
  assert (Hids : SumID <$> (ToSummary <$> page) = ID <$> page).
  { rewrite <- list_fmap_compose. done. }
  assert (Ht : exists t, page !! k = Some t).
  { apply lookup_lt_is_Some.
    rewrite <- (length_fmap ID), <- Hids,
      <- (Pages.queue_positions_ids (GetQueuedTasks userID m) 0),
      length_fmap.
    by eapply lookup_lt_Some. }
  destruct Ht as [t Ht].
  destruct (Hmem t) as [Hm Hu]; [by eapply list_elem_of_lookup_2|].
  rewrite (queue_positions_lookup _ 0 _ k (ToSummary t)) in Hs.
  2:{ by rewrite Hids. }
  2:{ by apply GetQueuedTasks_NoDup. }
  2:{ by rewrite list_lookup_fmap, Ht. }
  cbn [SumID ToSummary] in Hs. injection Hs as <-.
  destruct (list_find (fun qt => ID qt = ID t) (GetQueuedTasks userID m))
    as [[j y]|] eqn:Hfind.
  - apply list_find_Some in Hfind as (Hj & Hy & _).
    assert (Hyq : y ∈ GetQueuedTasks userID m)
      by (by eapply list_elem_of_lookup_2).
    apply GetQueuedTasks_spec in Hyq as ((id & Hid) & _ & Hst).
    assert (y = t) as ->.
    { pose proof (Hk _ _ Hid) as Hidy. rewrite <- Hidy, Hy in Hid. congruence. }
    exists t. cbn [SumID set_SumQueuePosition ToSummary]. split; [done|].
    split; [done|]. split; [|done].
    intros _. exists j. split; [done|]. done.
  - exists t. cbn [SumID ToSummary]. split; [done|]. split; [done|].
    split; [|done]. intros Hq. exfalso.
    assert (Hin : t ∈ GetQueuedTasks userID m).
    { apply GetQueuedTasks_spec. eauto. }
    apply list_find_None in Hfind. rewrite Forall_forall in Hfind.
    by apply (Hfind t Hin).
Qed.

Lemma five_tasks_keyed : keyed Samples.five_tasks.
Proof.
  unfold Samples.five_tasks. rewrite !fmap_cons, fmap_nil.
  cbn [list_to_map foldr fst snd].
  repeat (refine (Retention.keyed_insert _ (NewScanTask _ _ _ _ _) _)).
  apply Retention.keyed_empty.
Qed.

Lemma ListTasks_queue_positions_witness :
  exists resp t,
    ListTasks "alice" (mkTaskListRequest 1 2 "" "startTime" "asc")
      Samples.five_tasks = Some resp
    /\ Samples.five_tasks !! "task-1" = Some t
    /\ RespTasks resp !! 0%nat = Some (set_SumQueuePosition 1 (ToSummary t)).
Proof.
  assert (Hr : exists resp,
             ListTasks "alice" (mkTaskListRequest 1 2 "" "startTime" "asc")
               Samples.five_tasks = Some resp
             /\ exists s, RespTasks resp !! 0%nat = Some s
                          /\ SumID s = "task-1" /\ SumQueuePosition s = 1).
  { vm_compute. eexists. split; [reflexivity|]. eexists. split; [reflexivity|].
    split; reflexivity. }
  destruct Hr as (resp & HL & s & Hs & Hid & Hpos).
  destruct (ListTasks_queue_positions _ _ _ _ five_tasks_keyed HL _ _ Hs)
    as (t & Ht & _ & Hq & _).
  exists resp, t. split; [exact HL|]. rewrite Hid in Ht. split; [exact Ht|].
  rewrite Hs. f_equal.
  destruct Hq as (j & _ & Hsj).
  - vm_compute in Ht. injection Ht as <-. reflexivity.
  - rewrite Hsj in Hpos |- *. cbn in Hpos. by rewrite Hpos.
Defined.

(** X16. [DeleteAllTasks] over a store that keeps every record under its
    id returns and leaves the worker pool and the scan goroutines as they
    are.  It removes the records of the first page of 10000 of the user
    whose removal succeeds, whatever their status, and no other record: a
    record of another user stays, and when the user has at most 10000
    records each of them is removed or, on a failed removal, kept. *)
Theorem DeleteAllTasks_spec (userID : string) (disk_ok : string -> bool)
    (s : State) :
  keyed (tasks (st_repo s)) ->
  exists s' page total,
    List userID (mkTaskListRequest 1 10000 "" "" "") (tasks (st_repo s))
    = Some (page, total)
    /\ DeleteAllTasks userID disk_ok s = Some s'
    /\ same_sched s s'
    /\ (forall id,
          tasks (st_repo s') !! id
          = if bool_decide (id ∈ ID <$> page) && disk_ok id then None
            else tasks (st_repo s) !! id)
    /\ (forall id t, tasks (st_repo s) !! id = Some t -> UserID t <> userID ->
          tasks (st_repo s') !! id = Some t)
    /\ (total <= 10000 ->
        forall id t, tasks (st_repo s) !! id = Some t -> UserID t = userID ->
          tasks (st_repo s') !! id = if disk_ok id then None else Some t).
Proof.
  intros Hk. unfold DeleteAllTasks.
  set (flt := mkTaskListRequest 1 10000 "" "" "").
  pose proof (Pages.List_slice userID flt (tasks (st_repo s))
                ltac:(cbn; lia) ltac:(cbn; lia) ltac:(cbn; lia) ltac:(cbn; lia))
    as HL.
  cbn [Page PageSize flt SortBy SortOrder] in HL. rewrite drop_0 in HL.
  rewrite HL. eexists _, _, _. split; [reflexivity|]. split; [reflexivity|].
  assert (Hps : int64_range (PageSize flt))
    by (unfold int64_range; cbn; lia).
  destruct (List_members _ _ _ _ _ Hps Hk HL) as [Hnd Hmem].
  split; [apply ServiceFacts.cleanup_fold_same|].
  assert (Hloop := Retention.cleanup_loop disk_ok _ s Hnd
                     (fun t Hin => proj1 (Hmem t Hin))).
  split; [exact Hloop|]. split.
  - intros id t Ht Hu. rewrite Hloop, Ht.
    rewrite bool_decide_eq_false_2; [done|].
    intros (x & Hid & Hin)%list_elem_of_fmap.
    destruct (Hmem x Hin) as [Hx Hxu]. rewrite <- Hid, Ht in Hx. congruence.
  - intros Htot id t Ht Hu. rewrite Hloop, Ht.
    rewrite bool_decide_eq_true_2; [done|].
    apply list_elem_of_fmap. exists t. split; [symmetry; by apply Hk|].
    rewrite take_ge by (rewrite Paging.sortTasks_length; lia).
    rewrite Paging.sortTasks_perm. apply Pages.matching_spec.
    split; [eauto|]. split; [done|]. by left.
Qed.

Lemma DeleteAllTasks_spec_witness :
  exists s',
    DeleteAllTasks "alice" (fun _ => true) Samples.retention_state = Some s'
    /\ tasks (st_repo s') !! "running-old" = None.
Proof.
  destruct (DeleteAllTasks_spec "alice" (fun _ => true) Samples.retention_state
              Retention.retention_state_keyed)
    as (s' & page & total & HL & HD & _ & _ & _ & Hall).
  exists s'. split; [exact HD|].
  assert (Htot : total <= 10000).
  { vm_compute in HL. injection HL as _ <-. lia. }
  apply (Hall Htot "running-old"
           (Samples.retention_task "running-old" ScanStatusRunning None));
    reflexivity.
Defined.

Lemma GetQueueStatus_counts_witness :
  QueueLength (GetQueueStatus "alice" Samples.five_tasks) = 5
  /\ NoDup (ID <$> GetQueuedTasks "alice" Samples.five_tasks).
Proof.
  destruct (GetQueueStatus_counts "alice" Samples.five_tasks)
    as (_ & Hlen & _ & Hnd).
  split; [rewrite Hlen; vm_compute; reflexivity|].
  apply Hnd, five_tasks_keyed.
Defined.

Lemma GetRunningTask_spec_witness :
  exists t,
    GetRunningTask "alice" Samples.retention_tasks = Some t
    /\ Status t = ScanStatusRunning.
Proof.
  assert (H : exists t, GetRunningTask "alice" Samples.retention_tasks = Some t)
    by (vm_compute; eexists; reflexivity).
  destruct H as [t H]. exists t. split; [exact H|].
  destruct (GetRunningTask_spec "alice" Samples.retention_tasks) as [Hs _].
  destruct (Hs t H) as (_ & _ & Hst). exact Hst.
Defined.

End QueueOps.

(** ** One scan from its start to its end *)

Module Execution.
Import Models Repository Service Spec SchedSpec Run.

(** Equality of two records built with the setters. *)
Ltac record_eq :=
  cbn [set_LogListeners set_LogLines set_Output set_Result set_EndTime
       set_Message set_Status set_ErrorOutput set_Version
       ID UserID Image Status Message StartTime EndTime Config QueuePosition
       Result Output ErrorOutput Version_ LogLines LogListeners];
  rewrite <- ?app_assoc; try done.

Lemma stream_lines_wf (lines : list string) :
  forall t chans,
    hub_wf t chans ->
    exists chans',
      stream_lines lines t chans
      = Some (set_LogLines (LogLines t ++ lines) t, chans')
      /\ hub_wf t chans'.
Proof.
  induction lines as [|line lines IH]; intros t chans Hwf.
  - exists chans. cbn [stream_lines]. rewrite app_nil_r.
    split; [by destruct t|done].
  - destruct (Recovery.AddLog_wf line t chans Hwf) as (c1 & He & Hwf1 & _).
    cbn [stream_lines]. rewrite He. cbn [mbind option_bind fst snd].
    destruct (IH _ _ Hwf1) as (c2 & He2 & Hwf2). exists c2.
    rewrite He2. split; [|exact Hwf2]. record_eq.
Qed.

(** One [AddLog] of a goal, on a hub that is well-formed. *)
Ltac log_step Hwf :=
  match goal with
  | |- context [AddLog ?l ?t ?c] =>
      let c' := fresh "chans" in
      let He := fresh "He" in
      let Hw := fresh "Hwf" in
      destruct (Recovery.AddLog_wf l t c Hwf) as (c' & He & Hw & _);
      rewrite He; clear He; cbn [mbind option_bind fst snd];
      clear Hwf; rename Hw into Hwf
  end.

Section WithFormat.

Variable RFC3339 : Z -> string.

Lemma close_wf (t t1 : ScanTask) (c1 : ChanStore) :
  hub_wf t1 c1 -> LogListeners t1 = LogListeners t ->
  exists c2,
    CloseAllLogListeners t1 c1 = Some (set_LogListeners [] t1, c2)
    /\ forall h, h ∈ LogListeners t ->
         exists c, c2 !! h = Some c /\ ch_closed c = true.
Proof.
  intros [Hnd Hok] Hls.
  destruct (Recovery.close_all_spec _ c1 Hnd Hok) as (c2 & Hc & Hlen & Hlk).
  exists c2. unfold CloseAllLogListeners. rewrite Hc.
  split; [done|]. intros h Hin. rewrite <- Hls in Hin.
  rewrite Forall_forall in Hok. destruct (Hok _ Hin) as (c & Hch & _).
  rewrite Hlk, Hch. simpl. rewrite bool_decide_eq_true_2 by done. eauto.
Qed.

Lemma failTask_wf ended msg t chans :
  hub_wf t chans ->
  exists chans',
    failTask RFC3339 ended msg t chans
    = Some (set_LogListeners []
              (set_LogLines
                 (LogLines t ++ ["ERROR: " +:+ msg;
                                 "Scan failed at " +:+ RFC3339 ended])
                 (set_ErrorOutput msg
                    (set_EndTime (Some ended)
                       (set_Message "Scan failed"
                          (set_Status ScanStatusFailed t))))), chans')
    /\ forall h, h ∈ LogListeners t ->
         exists c, chans' !! h = Some c /\ ch_closed c = true.
Proof.
  intros Hwf. unfold failTask. cbv zeta.
  log_step Hwf. log_step Hwf.
  destruct (close_wf t _ _ Hwf eq_refl) as (c2 & Hc & Hcl).
  rewrite Hc. exists c2. split; [|exact Hcl].
  record_eq.
Qed.

Lemma scan_complete_wf ended stdout summary report t chans sc :
  hub_wf t chans -> Config t = Some sc ->
  exists chans',
    scan_complete RFC3339 ended stdout summary report t chans
    = Some (set_LogListeners []
              (set_LogLines
                 (LogLines t
                  ++ finish_lines RFC3339 ended (CmdOk stdout summary report))
                 (set_Output stdout
                    (set_Result
                       (Some (parseScanResult stdout (Format sc) summary))
                       (set_EndTime (Some ended)
                          (set_Message "Scan completed successfully"
                             (set_Status ScanStatusCompleted t)))))), chans')
    /\ forall h, h ∈ LogListeners t ->
         exists c, chans' !! h = Some c /\ ch_closed c = true.
Proof.
  intros Hwf Hsc. unfold scan_complete. rewrite Hsc.
  cbn [mbind option_bind]. cbv zeta. destruct report as [err|path].
  - cbn [mbind option_bind fst snd]. log_step Hwf.
    destruct (close_wf t _ _ Hwf eq_refl) as (c2 & Hc & Hcl).
    rewrite Hc. exists c2. split; [done|exact Hcl].
  - log_step Hwf. log_step Hwf.
    destruct (close_wf t _ _ Hwf eq_refl) as (c2 & Hc & Hcl).
    rewrite Hc. exists c2. split; [|exact Hcl].
    cbn [finish_lines]. record_eq.
Qed.

Lemma finish_wf ended o t chans sc :
  hub_wf t chans -> Config t = Some sc ->
  exists t' chans',
    scan_finish RFC3339 ended o t chans = Some (t', chans')
    /\ LogLines t' = LogLines t ++ finish_lines RFC3339 ended o
    /\ LogListeners t' = []
    /\ (forall h, h ∈ LogListeners t ->
          exists c, chans' !! h = Some c /\ ch_closed c = true)
    /\ Version_ t' = Version_ t
    /\ Status t' = outcome_status o
    /\ EndTime t' = Some ended
    /\ match o with
       | CmdOk stdout summary report =>
           Message t' = "Scan completed successfully"
           /\ Output t' = stdout
           /\ Result t'
              = Some (mkScanResult (Format sc) stdout
                        (if bool_decide (Format sc = "json") then summary
                         else None))
           /\ ErrorOutput t' = ErrorOutput t
       | _ =>
           Message t' = "Scan failed"
           /\ Some (ErrorOutput t') = failure_text o
           /\ Result t' = Result t
           /\ Output t' = Output t
       end.
Proof.
  intros Hwf Hsc. destruct o as [|err stderr|stdout summary report];
    cbn [scan_finish].
  - destruct (failTask_wf ended "Scan timeout exceeded" t chans Hwf)
      as (c & -> & Hcl).
    eexists _, _. split; [reflexivity|]. by repeat split.
  - destruct (failTask_wf ended ("Scan failed: " +:+ err +:+ "
" +:+ stderr) t chans Hwf) as (c & -> & Hcl).
    eexists _, _. split; [reflexivity|]. by repeat split.
  - destruct (scan_complete_wf ended stdout summary report t chans sc Hwf Hsc)
      as (c & -> & Hcl).
    eexists _, _. split; [reflexivity|]. by repeat split.
Qed.

Lemma version_wf v t chans :
  hub_wf t chans ->
  exists t2 c2,
    scan_version RFC3339 v t chans = Some (t2, c2)
    /\ hub_wf t2 c2
    /\ LogLines t2 = LogLines t ++ version_lines RFC3339 v
    /\ LogListeners t2 = LogListeners t
    /\ Config t2 = Config t /\ Image t2 = Image t
    /\ Result t2 = Result t /\ Output t2 = Output t
    /\ ErrorOutput t2 = ErrorOutput t
    /\ Version_ t2 = match v with
                     | inr version => Some version
                     | inl _ => Version_ t
                     end.
Proof.
  intros Hwf. unfold scan_version. destruct v as [err|version].
  - log_step Hwf. eexists _, _. split; [reflexivity|].
    split; [exact Hwf|]. by repeat split.
  - log_step Hwf. unfold log_db, version_lines.
    destruct (VulnerabilityDB version) as [d1|],
             (JavaDB version) as [d2|];
      cbn [mbind option_bind fst snd]; repeat log_step Hwf;
      (eexists _, _; split; [reflexivity|]; split; [exact Hwf|]);
      (split; [record_eq|by repeat split]).
Qed.

(** X17. [executeScan] on a record with a configuration, over a
    well-formed hub, returns without a panic.  The log of the record is
    the log from before followed, in this order, by the start line, the
    version lines, the masked command line, the lines of the command and
    the closing lines; the status is completed or failed as the command
    went, the end time is set, and every listener that was registered
    has been closed and unregistered.  A failed scan keeps result and
    output as they were, a completed one keeps the error output. *)
Theorem executeScan_transcript (config : TrivyConfig) (started : Z)
    (v : string + TrivyVersion) (lines : list string) (ended : Z)
    (o : CmdOutcome) (t : ScanTask) (chans : ChanStore) (sc : ScanConfig) :
  hub_wf t chans -> Config t = Some sc ->
  exists args t' chans',
    buildTrivyArgs config t = Some args
    /\ executeScan RFC3339 config started v lines ended o t chans
       = Some (t', chans')
    /\ LogLines t'
       = LogLines t
         ++ ["Scan started at " +:+ RFC3339 started]
         ++ version_lines RFC3339 v
         ++ [command_log_line args]
         ++ lines
         ++ finish_lines RFC3339 ended o
    /\ Status t' = outcome_status o
    /\ EndTime t' = Some ended
    /\ LogListeners t' = []
    /\ (forall h, h ∈ LogListeners t ->
          exists c, chans' !! h = Some c /\ ch_closed c = true)
    /\ Version_ t' = match v with
                     | inr version => Some version
                     | inl _ => Version_ t
                     end
    /\ match o with
       | CmdOk stdout summary report =>
           Message t' = "Scan completed successfully"
           /\ Output t' = stdout
           /\ Result t'
              = Some (mkScanResult (Format sc) stdout
                        (if bool_decide (Format sc = "json") then summary
                         else None))
           /\ ErrorOutput t' = ErrorOutput t
       | _ =>
           Message t' = "Scan failed"
           /\ Some (ErrorOutput t') = failure_text o
           /\ Result t' = Result t
           /\ Output t' = Output t
       end.
Proof.
  intros Hwf Hsc.
  pose proof (Masking.buildTrivyArgs_split config t sc Hsc) as Hargs.
  set (args := args_before config ++ args_credentials sc
               ++ args_after sc (Image t)) in *.
  exists args.
  cut (exists (t' : ScanTask) (chans' : ChanStore),
         executeScan RFC3339 config started v lines ended o t chans
         = Some (t', chans')
         /\ LogLines t'
            = LogLines t
              ++ ["Scan started at " +:+ RFC3339 started]
              ++ version_lines RFC3339 v
              ++ [command_log_line args]
              ++ lines
              ++ finish_lines RFC3339 ended o
         /\ Status t' = outcome_status o
         /\ EndTime t' = Some ended
         /\ LogListeners t' = []
         /\ (forall h, h ∈ LogListeners t ->
               exists c, chans' !! h = Some c /\ ch_closed c = true)
         /\ Version_ t' = match v with
                          | inr version => Some version
                          | inl _ => Version_ t
                          end
         /\ match o with
            | CmdOk stdout summary report =>
                Message t' = "Scan completed successfully"
                /\ Output t' = stdout
                /\ Result t'
                   = Some (mkScanResult (Format sc) stdout
                             (if bool_decide (Format sc = "json") then summary
                              else None))
                /\ ErrorOutput t' = ErrorOutput t
            | _ =>
                Message t' = "Scan failed"
                /\ Some (ErrorOutput t') = failure_text o
                /\ Result t' = Result t
                /\ Output t' = Output t
            end).
  { intros (t' & chans' & H). exists t', chans'. split; [exact Hargs|exact H]. }
  assert (Hcmd : forall t1 : ScanTask,
            Config t1 = Some sc -> Image t1 = Image t ->
            buildTrivyArgs config t1 = Some args).
  { intros t1 H1 H2. rewrite (Masking.buildTrivyArgs_split config t1 sc H1).
    subst args. by rewrite H2. }
  unfold executeScan, scan_begin. log_step Hwf.
  destruct (version_wf v _ _ Hwf)
    as (t2 & c2 & Hver & Hwf2 & Hl2 & Hls2 & Hc2 & Hi2 & Hr2 & Ho2 & He2 & Hv2).
  rewrite Hver. cbn in Hl2, Hls2, Hc2, Hi2, Hr2, Ho2, He2, Hv2.
  rewrite Hsc in Hc2.
  cbn [mbind option_bind fst snd]. clear Hwf.
  unfold scan_command. rewrite (Hcmd t2 Hc2 Hi2).
  cbn [mbind option_bind]. log_step Hwf2.
  destruct (stream_lines_wf lines _ _ Hwf2) as (c4 & -> & Hwf4).
  cbn [mbind option_bind fst snd].
  destruct (finish_wf ended o
              (set_LogLines
                 (LogLines (set_LogLines (LogLines t2 ++ [command_log_line args]) t2)
                  ++ lines)
                 (set_LogLines (LogLines t2 ++ [command_log_line args]) t2))
              c4 sc Hwf4 Hc2)
    as (t' & c' & -> & Hl & Hls & Hcl & Hv & Hst & Hend & Hout).
  eexists _, _. split; [reflexivity|].
  split.
  { rewrite Hl. cbn [LogLines set_LogLines]. rewrite Hl2.
    rewrite <- !app_assoc. done. }
  split; [done|]. split; [done|]. split; [done|].
  split.
  { intros h Hin. apply Hcl. cbn. by rewrite Hls2. }
  split; [by rewrite Hv|].
  destruct o; cbn in Hout |- *; rewrite <- ?Hr2, <- ?Ho2, <- ?He2; exact Hout.
Qed.

End WithFormat.

Lemma executeScan_transcript_witness :
  exists t' chans',
    executeScan Samples.sample_format run_config 20 (inl "connection refused")
      ["alpine:3.19 (alpine 3.19.1)"] 30 CmdTimeout run_task run_chans
    = Some (t', chans')
    /\ Status t' = ScanStatusFailed
    /\ (exists c, chans' !! 0%nat = Some c /\ ch_closed c = true).
Proof.
  assert (Hwf : hub_wf run_task run_chans).
  { split; [apply NoDup_singleton|]. apply Forall_singleton.
    by exists (mkChan [] 100 false). }
  destruct (executeScan_transcript Samples.sample_format run_config 20 (inl "connection refused")
              ["alpine:3.19 (alpine 3.19.1)"] 30 CmdTimeout run_task run_chans
              _ Hwf eq_refl)
    as (args & t' & chans' & _ & He & _ & Hst & _ & _ & Hcl & _).
  exists t', chans'. split; [exact He|]. split; [exact Hst|].
  apply Hcl. cbn. set_solver.
Defined.

(** X18. [CreateScanTask] changes nothing when the id is taken or the
    file cannot be written: no record, no worker slot, no goroutine.
    Otherwise it stores the queued record under its id and in the
    directory of the user and leaves every other record alone; with a free
    worker slot it takes the slot and starts one goroutine for the task,
    with a full pool it takes none and starts none.  The arguments built
    for the new record always carry the scanners, the detection priority
    and the format, whatever the request left out. *)
Theorem CreateScanTask_submit (id userID : string) (req : ScanRequest)
    (now : Z) (disk_ok : bool) (s : State) :
  let task := NewScanTask id userID (ReqImage req) (scanConfig_of req) now in
  let s' := CreateScanTask id userID req now disk_ok s in
  (is_Some (tasks (st_repo s) !! id) \/ disk_ok = false -> s' = s)
  /\ (tasks (st_repo s) !! id = None -> disk_ok = true ->
      tasks (st_repo s') !! id = Some task
      /\ files (st_repo s') !! (userID, id) = Some task
      /\ (forall id', id' <> id ->
            tasks (st_repo s') !! id' = tasks (st_repo s) !! id')
      /\ ((st_pool s < pool_cap s)%nat ->
            st_pool s' = S (st_pool s)
            /\ st_scans s' = st_scans s ++ [(id, PcAcquired)])
      /\ ((pool_cap s <= st_pool s)%nat ->
            st_pool s' = st_pool s /\ st_scans s' = st_scans s))
  /\ (forall config,
        exists args,
          buildTrivyArgs config task = Some args
          /\ "--scanners" ∈ args
          /\ "--detection-priority" ∈ args
          /\ "--format" ∈ args).
Proof.
  intros task s'. split; [|split].
  - subst s'. unfold CreateScanTask, Create, saveTaskToFile. cbn [ID NewScanTask].
    intros [[t Ht]| ->]; [by rewrite Ht|].
    by destruct (tasks (st_repo s) !! id).
  - intros Hnone ->. subst s'.
    unfold CreateScanTask, Create, saveTaskToFile. cbn [ID NewScanTask].
    rewrite Hnone. fold task. unfold try_acquire, pool_cap.
    cbn [st_pool st_config record_status set_repo].
    destruct (Nat.ltb_spec (st_pool s) (Z.to_nat (maxWorkers (st_config s))))
      as [Hroom|Hfull]; cbn.
    + rewrite lookup_insert_eq. split; [done|]. split; [by rewrite lookup_insert_eq|].
      split; [intros id' Hne; by rewrite lookup_insert_ne|].
      split; [done|]. intros Hge. unfold pool_cap in Hge. lia.
    + rewrite lookup_insert_eq. split; [done|]. split; [by rewrite lookup_insert_eq|].
      split; [intros id' Hne; by rewrite lookup_insert_ne|].
      split; [|done]. intros Hlt. unfold pool_cap in Hlt. lia.
  - intros config. eexists.
    split; [by apply (Masking.buildTrivyArgs_split config task (scanConfig_of req))|].
    assert (Hs : (0 <? length (Scanners (scanConfig_of req)))%nat = true).
    { cbn. destruct (ReqScanners req); done. }
    assert (Hp : negb (bool_decide (DetectionPriority (scanConfig_of req) = ""))
                 = true).
    { cbn. destruct (decide (ReqDetectionPriority req = "")) as [He|He].
      - by rewrite (bool_decide_eq_true_2 _ He).
      - by rewrite (bool_decide_eq_false_2 _ He), (bool_decide_eq_false_2 _ He). }
    assert (Hf : negb (bool_decide (Format (scanConfig_of req) = "")) = true).
    { cbn. destruct (decide (ReqFormat req = "")) as [He|He].
      - by rewrite (bool_decide_eq_true_2 _ He).
      - by rewrite (bool_decide_eq_false_2 _ He), (bool_decide_eq_false_2 _ He). }
    unfold args_after. rewrite Hs, Hp, Hf.
    rewrite !elem_of_app, !elem_of_cons. tauto.
Qed.

Lemma CreateScanTask_submit_witness :
  st_scans (CreateScanTask "B" "alice" Samples.sample_request 2 true
              (NewScanService (mkFileScanRepository ∅ ∅) Samples.one_worker))
  = [("B", PcAcquired)].
Proof.
  destruct (CreateScanTask_submit "B" "alice" Samples.sample_request 2 true
              (NewScanService (mkFileScanRepository ∅ ∅) Samples.one_worker))
    as (_ & H & _).
  destruct (H eq_refl eq_refl) as (_ & _ & _ & Hroom & _).
  destruct Hroom as [_ Hs]; [vm_compute; lia|]. exact Hs.
Defined.

Section Waiting.

Variable RFC3339 : Z -> string.
Variable fs : gmap (string * string) ScanTask.
Variable config : TrivyConfig.

Lemma set_pc_ids i id pc pc' (scans : list (string * Pc)) :
  scans !! i = Some (id, pc) -> (<[i := (id, pc')]> scans).*1 = scans.*1.
Proof.
  intros Hi. rewrite list_fmap_insert. apply list_insert_id.
  by rewrite list_lookup_fmap, Hi.
Qed.

Lemma scan_id_in i id pc (scans : list (string * Pc)) :
  scans !! i = Some (id, pc) -> id ∈ scans.*1.
Proof.
  intros Hi. apply list_elem_of_fmap. exists (id, pc). split; [done|].
  by eapply list_elem_of_lookup_2.
Qed.

(** A task without a goroutine keeps its status history and stays without
    a goroutine, whatever event happens. *)
Lemma step_waiting ev s s' id h :
  step RFC3339 ev s = Some s' ->
  st_trace s !! id = Some h -> id ∉ (st_scans s).*1 ->
  st_trace s' !! id = Some h /\ id ∉ (st_scans s').*1.
Proof.
  intros Hstep Hh Hno.
  assert (Hscan : forall i pc id0 (s1 : State) f,
            scan_at i pc s = Some id0 -> update_task id0 f s = Some s1 ->
            id0 <> id /\ st_scans s !! i = Some (id0, pc)
            /\ st_scans s1 = st_scans s /\ st_trace s1 = st_trace s).
  { intros i pc id0 s1 f Hat Hu. apply Scheduler.scan_at_Some in Hat.
    split; [intros ->; apply Hno; by eapply scan_id_in|]. split; [done|].
    split; [apply (ServiceFacts.update_task_same _ _ _ _ Hu)
           |apply (ServiceFacts.update_task_trace _ _ _ _ Hu)]. }
  destruct ev; simpl in Hstep.
  - destruct (st_trace s !! id0) eqn:Hfresh; [done|]. injection Hstep as <-.
    assert (id0 <> id) by congruence.
    unfold CreateScanTask. destruct (Create _ _ _) as [r [e|]]; [done|].
    unfold try_acquire. destruct (_ <? _)%nat; simpl;
      rewrite lookup_insert_ne by done; (split; [done|]);
      rewrite ?fmap_app, ?not_elem_of_app; [|done].
    split; [done|]. cbn. rewrite list_elem_of_singleton. congruence.
  - destruct (decide _); [|done]. injection Hstep as <-.
    by rewrite Scheduler.processQueue_id.
  - destruct (scan_at i PcAcquired s) as [id0|] eqn:Hat; [|done].
    simpl in Hstep.
    destruct (update_task id0 _ s) as [s1|] eqn:Hu; [|done]. simpl in Hstep.
    injection Hstep as <-. destruct (Hscan _ _ _ _ _ Hat Hu) as (Hne & Hi & Hsc & Htr).
    simpl. rewrite ServiceFacts.repo_Update_trace. simpl. rewrite Htr.
    rewrite lookup_insert_ne by done. split; [done|].
    destruct (ServiceFacts.repo_Update_same disk_ok id0
                (record_status id0 ScanStatusRunning s1)) as (_ & _ & -> & _).
    simpl. rewrite Hsc. by erewrite set_pc_ids.
  - destruct (scan_at i PcStarted s) as [id0|] eqn:Hat; [|done].
    simpl in Hstep.
    destruct (update_task id0 _ s) as [s1|] eqn:Hu; [|done]. simpl in Hstep.
    injection Hstep as <-. destruct (Hscan _ _ _ _ _ Hat Hu) as (Hne & Hi & Hsc & Htr).
    simpl. destruct v as [err|version].
    + rewrite Htr, Hsc. split; [done|]. by erewrite set_pc_ids.
    + rewrite ServiceFacts.repo_Update_trace, Htr. split; [done|].
      destruct (ServiceFacts.repo_Update_same disk_ok id0 s1) as (_ & _ & -> & _).
      rewrite Hsc. by erewrite set_pc_ids.
  - destruct (scan_at i PcVersion s) as [id0|] eqn:Hat; [|done].
    simpl in Hstep.
    destruct (update_task id0 _ s) as [s1|] eqn:Hu; [|done]. simpl in Hstep.
    injection Hstep as <-. destruct (Hscan _ _ _ _ _ Hat Hu) as (Hne & Hi & Hsc & Htr).
    simpl. rewrite Htr, Hsc. split; [done|]. by erewrite set_pc_ids.
  - destruct (scan_at i PcStreaming s) as [id0|] eqn:Hat; [|done].
    simpl in Hstep.
    destruct (Hscan _ _ _ _ _ Hat Hstep) as (Hne & Hi & Hsc & Htr).
    by rewrite Htr, Hsc.
  - destruct (scan_at i PcStreaming s) as [id0|] eqn:Hat; [|done].
    simpl in Hstep.
    destruct (update_task id0 _ s) as [s1|] eqn:Hu; [|done]. simpl in Hstep.
    injection Hstep as <-. destruct (Hscan _ _ _ _ _ Hat Hu) as (Hne & Hi & Hsc & Htr).
    simpl. rewrite ServiceFacts.repo_Update_trace. simpl. rewrite Htr.
    rewrite lookup_insert_ne by done. split; [done|].
    destruct (ServiceFacts.repo_Update_same disk_ok id0
                (record_status id0 (outcome_status o) s1)) as (_ & _ & -> & _).
    simpl. rewrite Hsc. by erewrite set_pc_ids.
  - destruct (scan_at i PcFinished s) as [id0|] eqn:Hat; [|done].
    simpl in Hstep. injection Hstep as <-. simpl. split; [done|].
    intros Hin. apply Hno. eapply sublist_subseteq; [|exact Hin].
    rewrite list_fmap_delete. apply sublist_delete.
  - injection Hstep as <-. rewrite ServiceFacts.DeleteTask_trace.
    destruct (ServiceFacts.DeleteTask_same disk_ok id0 s) as (_ & _ & -> & _).
    done.
  - destruct (decide _); [|done]. injection Hstep as <-.
    rewrite Scheduler.cleanupOldReports_trace.
    destruct (ServiceFacts.cleanupOldReports_same cutoffTime disk_ok s)
      as (_ & _ & -> & _).
    done.
  - destruct (lookup_task id0 s) as [t|]; [|done]. simpl in Hstep.
    injection Hstep as <-. rewrite ServiceFacts.store_task_trace.
    match goal with
    | |- context [st_scans (store_task ?a ?b ?c ?d)] =>
        destruct (ServiceFacts.store_task_same a b c d) as (_ & _ & -> & _)
    end.
    done.
  - rewrite (ServiceFacts.update_task_trace _ _ _ _ Hstep).
    destruct (ServiceFacts.update_task_same _ _ _ _ Hstep) as (_ & _ & -> & _).
    done.
  - destruct (recv ch (st_chans s)) as [r|]; [|done]. simpl in Hstep.
    by injection Hstep as <-.
Qed.

Lemma run_waiting evs :
  forall s s' id h,
    run RFC3339 evs s = Some s' ->
    st_trace s !! id = Some h -> id ∉ (st_scans s).*1 ->
    st_trace s' !! id = Some h /\ id ∉ (st_scans s').*1.
Proof.
  induction evs as [|ev evs IH]; intros s s' id h Hrun Hh Hno; simpl in Hrun.
  - by injection Hrun as <-.
  - destruct (step RFC3339 ev s) as [s1|] eqn:Hstep; [|done]. simpl in Hrun.
    destruct (step_waiting _ _ _ _ _ Hstep Hh Hno) as [Hh1 Hno1].
    by eapply IH.
Qed.

(** X19. A task that is submitted while every worker slot is taken is
    never started.  Whatever events follow (ticks of the queue worker,
    other scans that end and give their slot back, new submissions,
    deletions, subscribers), no goroutine is ever started for it, no
    status is ever assigned to it again, and its record, as long as
    somebody can reach it, has status queued. *)
Theorem queued_task_never_starts (s s' : State) (id userID : string)
    (req : ScanRequest) (now : Z) (evs : list Event) :
  reachable RFC3339 fs config s ->
  st_trace s !! id = None ->
  (pool_cap s <= st_pool s)%nat ->
  run RFC3339 evs (CreateScanTask id userID req now true s) = Some s' ->
  st_trace s' !! id = Some [ScanStatusQueued]
  /\ id ∉ (st_scans s').*1
  /\ forall t, lookup_task id s' = Some t -> Status t = ScanStatusQueued.
Proof.
  intros Hr Hfresh Hfull Hrun.
  pose proof (Scheduler.reachable_inv RFC3339 fs config s Hr) as Hinv.
  assert (Hnone : tasks (st_repo s) !! id = None).
  { destruct (lookup_task id s) as [t|] eqn:Ht.
    - destruct (inv_last _ _ _ _ _ _ _ Hinv _ _ Ht) as (h & Hh & _). congruence.
    - unfold lookup_task in Ht. by destruct (tasks (st_repo s) !! id). }
  assert (Hno : id ∉ (st_scans s).*1).
  { intros ([id0 pc] & -> & Hin)%list_elem_of_fmap.
    apply list_elem_of_lookup in Hin as [i Hi].
    destruct (inv_scan _ _ _ _ _ _ _ Hinv _ _ _ Hi) as (_ & h & Hh & _).
    cbn in Hfresh. congruence. }
  assert (Hstep : step RFC3339 (EvCreateScanTask id userID req now true) s
                  = Some (CreateScanTask id userID req now true s)).
  { simpl. by rewrite Hfresh. }
  assert (H1 : st_trace (CreateScanTask id userID req now true s) !! id
               = Some [ScanStatusQueued]
               /\ id ∉ (st_scans (CreateScanTask id userID req now true s)).*1).
  { unfold CreateScanTask, Create, saveTaskToFile. cbn [ID NewScanTask].
    rewrite Hnone. unfold try_acquire, pool_cap in *.
    cbn [st_pool st_config record_status set_repo].
    destruct (Nat.ltb_spec (st_pool s) (Z.to_nat (maxWorkers (st_config s))));
      [lia|].
    cbn. rewrite lookup_insert_eq, Hfresh. done. }
  destruct H1 as [Htr1 Hno1].
  destruct (run_waiting _ _ _ _ _ Hrun Htr1 Hno1) as [Htr Hno'].
  split; [done|]. split; [done|]. intros t Ht.
  assert (Hr' : reachable RFC3339 fs config s').
  { eapply Scheduler.run_reachable; [|exact Hrun].
    by eapply reachable_step. }
  pose proof (Scheduler.reachable_inv RFC3339 fs config s' Hr') as Hinv'.
  destruct (inv_last _ _ _ _ _ _ _ Hinv' _ _ Ht) as (h & Hh & Hl).
  rewrite Htr in Hh. injection Hh as <-. cbn in Hl. congruence.
Qed.

End Waiting.

Lemma queued_task_never_starts_witness :
  exists s s',
    busy_state = Some s
    /\ run Samples.sample_format [EvTick; EvDeleteTask "A" true; EvTick]
         (CreateScanTask "B" "alice" Samples.sample_request 2 true s)
       = Some s'
    /\ st_trace s' !! "B" = Some [ScanStatusQueued]
    /\ "B" ∉ (st_scans s').*1.
Proof.
  unfold busy_state.
  destruct (boot Samples.sample_format ∅ Samples.one_worker (fun _ => 0)
              (fun _ => true)) as [s0|] eqn:Hboot;
    [|vm_compute in Hboot; discriminate].
  cbn [mbind option_bind].
  destruct (step Samples.sample_format
              (EvCreateScanTask "A" "alice" Samples.sample_request 1 true) s0)
    as [s|] eqn:Hstep.
  2:{ exfalso. vm_compute in Hboot. injection Hboot as <-.
      vm_compute in Hstep. discriminate. }
  assert (Hr : reachable Samples.sample_format ∅ Samples.one_worker s).
  { eapply reachable_step; [|exact Hstep]. by eapply reachable_boot. }
  assert (Hfacts : st_trace s !! "B" = None
                   /\ (pool_cap s <= st_pool s)%nat).
  { vm_compute in Hboot. injection Hboot as <-.
    vm_compute in Hstep. injection Hstep as <-. split; [reflexivity|].
    vm_compute. lia. }
  destruct Hfacts as [Hfresh Hfull].
  destruct (run Samples.sample_format [EvTick; EvDeleteTask "A" true; EvTick]
              (CreateScanTask "B" "alice" Samples.sample_request 2 true s))
    as [s'|] eqn:Hrun.
  2:{ exfalso. vm_compute in Hboot. injection Hboot as <-.
      vm_compute in Hstep. injection Hstep as <-.
      vm_compute in Hrun. discriminate. }
  exists s, s'. split; [reflexivity|]. split; [exact Hrun|].
  destruct (queued_task_never_starts Samples.sample_format ∅ Samples.one_worker
              s s' "B" "alice" Samples.sample_request 2 _ Hr Hfresh Hfull Hrun)
    as (Htr & Hno & _).
  split; [exact Htr|exact Hno].
Defined.

End Execution.

(** ** Summary and report of a finished scan *)

Module ReportFacts.
Import Models Repository Service Reports.

Lemma foldl_concat {A B} (f : A -> B -> A) (l : list (list B)) :
  forall a, foldl (fun a r => foldl f a r) a l = foldl f a (concat l).
Proof.
  induction l as [|r l IH]; intros a; [done|].
  cbn [foldl concat]. by rewrite foldl_app, IH.
Qed.

Lemma count_snoc (P : string -> Prop) `{!forall x, Decision (P x)}
    (l : list string) (x : string) :
  Z.of_nat (length (filter P (l ++ [x])))
  = Z.of_nat (length (filter P l)) + (if decide (P x) then 1 else 0).
Proof.
  rewrite filter_app, length_app, filter_cons, filter_nil.
  destruct (decide (P x)); cbn [length]; lia.
Qed.

Lemma count_le (P : string -> Prop) `{!forall x, Decision (P x)}
    (l : list string) :
  0 <= Z.of_nat (length (filter P l)) <= Z.of_nat (length l).
Proof. split; [lia|]. apply inj_le, length_filter. Qed.

(** One case of the [switch]: the tests are decided, the increments stay
    inside the integers. *)
Ltac count_case Hw :=
  repeat match goal with
  | |- context [bool_decide ?P] =>
      first [rewrite (bool_decide_eq_true_2 P) by done
            |rewrite (bool_decide_eq_false_2 P) by done]
  end;
  repeat match goal with
  | |- context [decide ?P] =>
      first [rewrite (decide_True (P:=P)) by done
            |rewrite (decide_False (P:=P)) by (try done; tauto)]
  end;
  cbn [Total Critical High Medium Low Unknown];
  rewrite !Hw by (try lia; apply count_le); repeat split; lia.

Lemma count_loop (l : list string) :
  Z.of_nat (length l) < 2 ^ 63 ->
  let s := foldl count_one (mkVulnerabilitySummary 0 0 0 0 0 0) l in
  Total s = Z.of_nat (length l)
  /\ Critical s = Z.of_nat (length (filter (fun x => x = "CRITICAL") l))
  /\ High s = Z.of_nat (length (filter (fun x => x = "HIGH") l))
  /\ Medium s = Z.of_nat (length (filter (fun x => x = "MEDIUM") l))
  /\ Low s = Z.of_nat (length (filter (fun x => x = "LOW") l))
  /\ Unknown s
     = Z.of_nat (length (filter (fun x => x <> "CRITICAL" /\ x <> "HIGH"
                                          /\ x <> "MEDIUM" /\ x <> "LOW") l)).
Proof.
  induction l as [|x l IH] using rev_ind; [done|].
  rewrite length_app. cbn [length]. intros Hb.
  destruct IH as (Ht & Hc & Hh & Hm & Hl & Hu); [lia|].
  rewrite foldl_app. cbn [foldl].
  set (s := foldl count_one (mkVulnerabilitySummary 0 0 0 0 0 0) l) in *.
  cbv zeta. rewrite !count_snoc.
  assert (Hw : forall z, 0 <= z <= Z.of_nat (length l) -> wrap64 (z + 1) = z + 1).
  { intros z Hz. apply wrap64_id. unfold int64_range. lia. }
  unfold count_one. rewrite Ht, Hc, Hh, Hm, Hl, Hu. clear Ht Hc Hh Hm Hl Hu.
  destruct (decide (x = "CRITICAL")) as [->|H1]; [count_case Hw|].
  destruct (decide (x = "HIGH")) as [->|H2]; [count_case Hw|].
  destruct (decide (x = "MEDIUM")) as [->|H3]; [count_case Hw|].
  destruct (decide (x = "LOW")) as [->|H4]; [count_case Hw|].
  count_case Hw.
Qed.

Lemma count_partition (l : list string) :
  Z.of_nat (length l)
  = Z.of_nat (length (filter (fun x => x = "CRITICAL") l))
    + Z.of_nat (length (filter (fun x => x = "HIGH") l))
    + Z.of_nat (length (filter (fun x => x = "MEDIUM") l))
    + Z.of_nat (length (filter (fun x => x = "LOW") l))
    + Z.of_nat (length (filter (fun x => x <> "CRITICAL" /\ x <> "HIGH"
                                         /\ x <> "MEDIUM" /\ x <> "LOW") l)).
Proof.
  induction l as [|x l IH]; [done|].
  rewrite !filter_cons. cbn [length].
  destruct (decide (x = "CRITICAL")) as [->|H1].
  { repeat match goal with
    | |- context [decide ?P] =>
        first [rewrite (decide_True (P:=P)) by done
              |rewrite (decide_False (P:=P)) by (try done; tauto)]
    end. cbn [length]. lia. }
  destruct (decide (x = "HIGH")) as [->|H2].
  { repeat match goal with
    | |- context [decide ?P] =>
        first [rewrite (decide_True (P:=P)) by done
              |rewrite (decide_False (P:=P)) by (try done; tauto)]
    end. cbn [length]. lia. }
  destruct (decide (x = "MEDIUM")) as [->|H3].
  { repeat match goal with
    | |- context [decide ?P] =>
        first [rewrite (decide_True (P:=P)) by done
              |rewrite (decide_False (P:=P)) by (try done; tauto)]
    end. cbn [length]. lia. }
  destruct (decide (x = "LOW")) as [->|H4].
  { repeat match goal with
    | |- context [decide ?P] =>
        first [rewrite (decide_True (P:=P)) by done
              |rewrite (decide_False (P:=P)) by (try done; tauto)]
    end. cbn [length]. lia. }
  rewrite decide_True by done. cbn [length]. lia.
Qed.

(** X20. For an output with fewer than 2^63 vulnerabilities,
    [parseVulnerabilitySummary] returns the summary in which the total is
    the number of all vulnerabilities of all results, the critical, high,
    medium and low counts are the numbers of vulnerabilities whose
    severity is exactly "CRITICAL", "HIGH", "MEDIUM" and "LOW", the
    unknown count is the number of all others, and the five counts add up
    to the total.  [parseScanResult] attaches the summary for the format
    "json" only. *)
Theorem vulnerability_counts (results : TrivyOutput) (stdout format : string) :
  Z.of_nat (length (concat results)) < 2 ^ 63 ->
  exists s,
    parseVulnerabilitySummary (Some results) = Some s
    /\ Total s = Z.of_nat (length (concat results))
    /\ Critical s = count_of "CRITICAL" results
    /\ High s = count_of "HIGH" results
    /\ Medium s = count_of "MEDIUM" results
    /\ Low s = count_of "LOW" results
    /\ Unknown s
       = Z.of_nat (length (filter (fun x => x <> "CRITICAL" /\ x <> "HIGH"
                                            /\ x <> "MEDIUM" /\ x <> "LOW")
                             (concat results)))
    /\ Total s = Critical s + High s + Medium s + Low s + Unknown s
    /\ ResSummary (parseScanResult stdout format
                     (parseVulnerabilitySummary (Some results)))
       = if bool_decide (format = "json") then Some s else None.
Proof.
  intros Hb.
  exists (foldl count_one (mkVulnerabilitySummary 0 0 0 0 0 0) (concat results)).
  assert (Hparse : parseVulnerabilitySummary (Some results)
                   = Some (foldl count_one (mkVulnerabilitySummary 0 0 0 0 0 0)
                             (concat results))).
  { unfold parseVulnerabilitySummary. by rewrite foldl_concat. }
  split; [exact Hparse|].
  destruct (count_loop (concat results) Hb) as (Ht & Hc & Hh & Hm & Hl & Hu).
  cbv zeta in Hu. unfold count_of.
  split; [exact Ht|]. split; [exact Hc|]. split; [exact Hh|].
  split; [exact Hm|]. split; [exact Hl|]. split; [exact Hu|].
  split; [|by rewrite Hparse].
  rewrite Ht, Hc, Hh, Hm, Hl, Hu. apply count_partition.
Qed.

Lemma vulnerability_counts_witness :
  parseVulnerabilitySummary (Some sample_output)
  = Some (mkVulnerabilitySummary 6 1 2 0 1 2).
Proof.
  destruct (vulnerability_counts sample_output "{}" "json") as (s & Hs & _).
  - simpl. lia.
  - rewrite Hs. injection Hs as <-. reflexivity.
Defined.


Lemma delete_ext_ok (dir taskID ext : string) (rs : ReportStore) (n : Z) :
  exists k,
    delete_ext (fun _ => true) dir taskID ext (rs, n)
    = Some (delete (dir, report_name taskID ext) rs, k).
Proof.
  unfold delete_ext. cbn [fst snd].
  destruct (rs !! (dir, report_name taskID ext)) as [data|] eqn:Hd.
  - eexists. reflexivity.
  - exists n. by rewrite delete_id.
Qed.

Lemma delete_ext_frame (disk_ok : string -> bool) (dir taskID ext : string)
    (acc acc' : ReportStore * Z) (p : string * string) :
  delete_ext disk_ok dir taskID ext acc = Some acc' ->
  p <> (dir, report_name taskID ext) -> acc'.1 !! p = acc.1 !! p.
Proof.
  unfold delete_ext. destruct (acc.1 !! _) as [data|]; [|by intros [= <-]].
  destruct (disk_ok _); [|done]. intros [= <-] Hne. cbn [fst].
  by rewrite lookup_delete_ne.
Qed.

(** X21. [deleteReport] never touches a file other than the two files
    [<id>.json] and [<id>.txt] in the directory of the user of the task,
    whatever the disk does, and touches nothing when the task is not in
    the repository.  When the disk works it removes these two files, as
    far as they exist, and returns without error. *)
Theorem deleteReport_spec (disk_ok : string -> bool) (taskID : string)
    (m : TaskMap) (rs : ReportStore) :
  (GetByID taskID m = None -> deleteReport disk_ok taskID m rs = (rs, None))
  /\ forall task,
       GetByID taskID m = Some task ->
       (forall p,
          p <> (UserID task, report_name taskID "json") ->
          p <> (UserID task, report_name taskID "txt") ->
          (deleteReport disk_ok taskID m rs).1 !! p = rs !! p)
       /\ exists size,
            deleteReport (fun _ => true) taskID m rs
            = (delete (UserID task, report_name taskID "txt")
                 (delete (UserID task, report_name taskID "json") rs),
               Some size).
Proof.
  split; [unfold deleteReport; by intros ->|].
  intros task Ht. unfold deleteReport. rewrite Ht. split.
  - intros p Hj Hx.
    destruct (delete_ext disk_ok (UserID task) taskID "json" (rs, 0))
      as [r1|] eqn:H1; [|done].
    pose proof (delete_ext_frame _ _ _ _ _ _ p H1 Hj) as Hf1.
    destruct (delete_ext disk_ok (UserID task) taskID "txt" r1)
      as [r2|] eqn:H2; cbn [fst]; [|exact Hf1].
    by rewrite (delete_ext_frame _ _ _ _ _ _ p H2 Hx).
  - destruct (delete_ext_ok (UserID task) taskID "json" rs 0) as [k1 ->].
    destruct (delete_ext_ok (UserID task) taskID "txt"
                (delete (UserID task, report_name taskID "json") rs) k1)
      as [k2 ->].
    by exists k2.
Qed.

Lemma deleteReport_spec_witness :
  (deleteReport (fun _ => false) "t1" {["t1" := report_task "json"]}
     {[("alice", "t2.json") := "{}"]}).1 !! ("alice", "t2.json")
  = Some "{}".
Proof.
  destruct (deleteReport_spec (fun _ => false) "t1"
              {["t1" := report_task "json"]} {[("alice", "t2.json") := "{}"]})
    as [_ H].
  destruct (H (report_task "json") eq_refl) as [Hframe _].
  rewrite Hframe; [reflexivity|discriminate|discriminate].
Defined.



End ReportFacts.

(** ** Directory names of the users *)

Module SanitizeFacts.
Import Stdlib.Strings.Ascii Sanitize.

(** No two dots in a row. *)
Definition no_dots2 (s : list ascii) : Prop :=
  forall i, s !! i = Some "."%char -> s !! S i <> Some "."%char.

Lemma no_dots2_cons c s :
  no_dots2 s -> (c = "."%char -> head s <> Some "."%char) -> no_dots2 (c :: s).
Proof.
  intros Hs Hc [|i]; cbn.
  - intros [= ->]. destruct s; [done|]. cbn in *. by apply Hc.
  - apply Hs.
Qed.

Lemma ReplaceAll_dots_spec (n : nat) :
  forall s, (length s <= n)%nat ->
    no_dots2 (ReplaceAll_dots s)
    /\ (forall c, head s = Some c -> c <> "."%char ->
          head (ReplaceAll_dots s) = Some c)
    /\ (forall P : ascii -> Prop, P "-"%char -> Forall P s ->
          Forall P (ReplaceAll_dots s)).
Proof.
  induction n as [|n IH]; intros s Hn.
  { destruct s; [|cbn in Hn; lia]. repeat split; [by intros i|done|done]. }
  destruct s as [|c [|d rest]].
  - repeat split; [by intros i|done|done].
  - cbn. split; [|split].
    + intros [|i]; [by cbn|done].
    + done.
    + done.
  - assert (Heq : ReplaceAll_dots (c :: d :: rest)
                  = if bool_decide (c = "."%char) && bool_decide (d = "."%char)
                    then "-"%char :: ReplaceAll_dots rest
                    else c :: ReplaceAll_dots (d :: rest)) by reflexivity.
    rewrite Heq. clear Heq. cbn [length] in Hn.
    destruct (IH rest ltac:(lia)) as (Hr1 & Hr2 & Hr3).
    destruct (IH (d :: rest) ltac:(cbn [length]; lia)) as (Hd1 & Hd2 & Hd3).
    destruct (bool_decide (c = "."%char) && bool_decide (d = "."%char)) eqn:Hb.
    + split; [|split].
      * by apply no_dots2_cons.
      * intros c' [= ->] Hne. apply andb_true_iff in Hb as [Hc _].
        by apply bool_decide_eq_true in Hc.
      * intros P Hm HP. constructor; [done|]. apply Hr3; [done|].
        by do 2 apply Forall_cons in HP as [_ HP].
    + split; [|split].
      * apply no_dots2_cons; [done|]. intros ->.
        assert (Hdne : d <> "."%char).
        { intros ->. by rewrite !bool_decide_eq_true_2 in Hb. }
        by rewrite (Hd2 d eq_refl Hdne); intros [= ->].
      * by intros c' [= ->] _.
      * intros P Hm HP. apply Forall_cons in HP as [Hc HP].
        constructor; [done|]. by apply Hd3.
Qed.

Lemma TrimLeft_drop s : exists k, TrimLeft s = drop k s.
Proof.
  induction s as [|c s [k IH]]; [by exists 0%nat|]. cbn.
  destruct (in_cutset c); [by exists (S k)|by exists 0%nat].
Qed.

Lemma TrimLeft_head s c : head (TrimLeft s) = Some c -> in_cutset c = false.
Proof.
  induction s as [|d s IH]; [done|]. cbn.
  destruct (in_cutset d) eqn:Hd; [done|]. by intros [= <-].
Qed.

Lemma TrimRight_take s : exists k, TrimRight s = take k s.
Proof.
  induction s as [|c s [k IH]]; [by exists 0%nat|]. cbn.
  destruct (TrimRight s) as [|d kept] eqn:Hk.
  - destruct (in_cutset c); [by exists 0%nat|]. exists 1%nat. cbn.
    by rewrite take_0.
  - exists (S k). cbn. by rewrite <- IH.
Qed.

Lemma take_head {A} k (s : list A) : take k s <> [] -> head (take k s) = head s.
Proof. destruct k, s; done. Qed.

Lemma no_dots2_drop k s : no_dots2 s -> no_dots2 (drop k s).
Proof.
  intros Hs i. rewrite !lookup_drop. replace (k + S i)%nat with (S (k + i)) by lia.
  apply Hs.
Qed.

Lemma no_dots2_take k s : no_dots2 s -> no_dots2 (take k s).
Proof.
  intros Hs i Hi Hsi.
  apply lookup_take_Some in Hi as [Hi _]. apply lookup_take_Some in Hsi as [Hsi _].
  by apply (Hs i).
Qed.

Lemma hex_digit_in n :
  hex_digit n ∈ String.list_ascii_of_string "0123456789abcdef".
Proof.
  unfold hex_digit.
  destruct (decide (N.to_nat n < 16)%nat) as [Hlt|Hge].
  - apply list_elem_of_In, nth_In. cbn. lia.
  - rewrite nth_overflow by (cbn; lia). cbn. left.
Qed.

Lemma EncodeToString_chars src :
  Forall (fun c => c ∈ String.list_ascii_of_string "0123456789abcdef")
    (EncodeToString src).
Proof.
  unfold EncodeToString. induction src as [|b src IH]; [done|].
  cbn. by repeat (constructor; [apply hex_digit_in|]).
Qed.

Lemma EncodeToString_length src :
  length (EncodeToString src) = (2 * length src)%nat.
Proof.
  unfold EncodeToString. induction src as [|b src IH]; [done|].
  cbn in *. lia.
Qed.

(** What holds of each hexadecimal digit. *)
Lemma hex_chars c :
  c ∈ String.list_ascii_of_string "0123456789abcdef" ->
  c ∈ String.list_ascii_of_string allowed /\ in_cutset c = false /\ c <> "."%char.
Proof.
  cbn. rewrite !elem_of_cons, elem_of_nil.
  intros H. repeat (destruct H as [->|H]; [by vm_compute; repeat split; try discriminate; set_solver|]).
  done.
Qed.

Lemma write_rune_allowed r : write_rune r ∈ String.list_ascii_of_string allowed.
Proof.
  unfold write_rune, ContainsRune.
  destruct (decide (r ∈ Ascii.N_of_ascii <$> String.list_ascii_of_string allowed))
    as [Hin|Hout].
  - rewrite (bool_decide_eq_true_2 _ Hin).
    apply list_elem_of_fmap in Hin as (c & -> & Hc).
    by rewrite Ascii.ascii_N_embedding.
  - rewrite (bool_decide_eq_false_2 _ Hout).
    apply (bool_decide_unpack _). vm_compute. exact I.
Qed.

Section WithLibraries.

Variable decode_runes : string -> list rune.
Variable Sum256 : string -> list Byte.byte.
Hypothesis Sum256_length : forall s, length (Sum256 s) = 32%nat.

(** X23. [sanitizeUserIdentifier] returns the empty string for the empty
    identifier only.  Every other result has between 1 and 128 bytes, all
    of them letters, digits or one of ". _ - @"; it holds no separator
    and no two dots in a row and does not begin with a dot, a dash or an
    underscore: it is the name of one directory below the directory of
    the users, never "." or "..". *)
Theorem sanitize_safe (identifier : string) :
  let safe := sanitizeUserIdentifier decode_runes Sum256 identifier in
  (identifier = "" -> safe = [])
  /\ (identifier <> "" -> safe <> [])
  /\ (length safe <= 128)%nat
  /\ (forall c, c ∈ safe -> c ∈ String.list_ascii_of_string allowed)
  /\ "/"%char ∉ safe
  /\ (forall i, safe !! i = Some "."%char -> safe !! S i <> Some "."%char)
  /\ (forall c, head safe = Some c ->
        c <> "-"%char /\ c <> "_"%char /\ c <> "."%char).
Proof.
  intros safe.
  assert (Hcut : forall c, in_cutset c = false ->
            c <> "-"%char /\ c <> "_"%char /\ c <> "."%char).
  { intros c Hc. unfold in_cutset in Hc.
    apply orb_false_iff in Hc as [[H1 H2]%orb_false_iff H3].
    apply bool_decide_eq_false in H1, H2, H3. done. }
  assert (Hslash : forall l : list ascii,
            (forall c, c ∈ l -> c ∈ String.list_ascii_of_string allowed) ->
            "/"%char ∉ l).
  { intros l Hl Hin.
    assert (Hnot : "/"%char ∉ String.list_ascii_of_string allowed)
      by (apply (bool_decide_unpack _); vm_compute; exact I).
    exact (Hnot (Hl _ Hin)). }
  assert (Hmain :
            (identifier = "" -> safe = [])
            /\ (identifier <> "" -> safe <> [])
            /\ (length safe <= 128)%nat
            /\ (forall c, c ∈ safe -> c ∈ String.list_ascii_of_string allowed)
            /\ no_dots2 safe
            /\ (forall c, head safe = Some c -> in_cutset c = false)).
  { subst safe. unfold sanitizeUserIdentifier.
    destruct (decide (identifier = "")) as [->|Hne].
    { rewrite bool_decide_eq_true_2 by done.
      split; [done|]. split; [done|]. split; [cbn; lia|].
      split; [by intros c Hc%elem_of_nil|]. split; [by intros i|done]. }
    rewrite (bool_decide_eq_false_2 _ Hne). cbv zeta.
    set (raw := write_rune <$> decode_runes identifier).
    assert (Hraw : Forall (fun c => c ∈ String.list_ascii_of_string allowed) raw).
    { subst raw. apply Forall_fmap, Forall_forall. intros r _.
      apply write_rune_allowed. }
    destruct (ReplaceAll_dots_spec (length raw) raw (Nat.le_refl _))
      as (Hnd & _ & Hall).
    assert (Hdash : "-"%char ∈ String.list_ascii_of_string allowed)
      by (apply (bool_decide_unpack _); vm_compute; exact I).
    specialize (Hall (fun c => c ∈ String.list_ascii_of_string allowed)
                  Hdash Hraw).
    set (rep := ReplaceAll_dots raw) in *.
    unfold Trim. destruct (TrimLeft_drop rep) as [k0 Hk0].
    destruct (TrimRight_take (TrimLeft rep)) as [k1 Hk1].
    set (tr := TrimRight (TrimLeft rep)) in *.
    assert (Htr_all : Forall (fun c => c ∈ String.list_ascii_of_string allowed) tr).
    { rewrite Hk1, Hk0. by apply Forall_take, Forall_drop. }
    assert (Htr_nd : no_dots2 tr).
    { rewrite Hk1, Hk0. by apply no_dots2_take, no_dots2_drop. }
    assert (Htr_head : forall c, head tr = Some c -> in_cutset c = false).
    { intros c Hc. destruct tr as [|c' tr'] eqn:Htr; [done|].
      rewrite Hk1, take_head in Hc by (rewrite <- Hk1; done).
      by eapply TrimLeft_head. }
    destruct (decide (tr = [])) as [Hemp|Hnemp].
    - rewrite (bool_decide_eq_true_2 _ Hemp).
      pose proof (EncodeToString_chars (take 8 (Sum256 identifier))) as Hhex.
      pose proof (EncodeToString_length (take 8 (Sum256 identifier))) as Hlen.
      rewrite length_take, Sum256_length in Hlen. cbn in Hlen.
      set (h := EncodeToString (take 8 (Sum256 identifier))) in *.
      rewrite Forall_forall in Hhex.
      split; [done|]. split; [intros _ ->; done|]. split; [lia|].
      split; [intros c Hc; by apply hex_chars, Hhex|].
      split.
      + intros i Hi. exfalso.
        apply list_elem_of_lookup_2, Hhex, hex_chars in Hi. tauto.
      + intros c Hc. destruct h as [|c' h']; [done|]. injection Hc as ->.
        apply hex_chars, Hhex. left.
    - rewrite (bool_decide_eq_false_2 _ Hnemp).
      rewrite Forall_forall in Htr_all.
      destruct (Nat.ltb_spec 128 (length tr)) as [Hlong|Hshort].
      + split; [done|].
        split; [intros _ Ht; apply (f_equal length) in Ht;
                rewrite length_take in Ht; cbn [length] in Ht; lia|].
        split; [rewrite length_take; lia|].
        split; [intros c Hc%subseteq_take; by apply Htr_all|].
        split; [by apply no_dots2_take|].
        intros c Hc. apply Htr_head. rewrite <- Hc. symmetry. apply take_head.
        intros Ht. apply (f_equal length) in Ht.
        rewrite length_take in Ht. cbn [length] in Ht. lia.
      + split; [done|]. split; [done|]. split; [done|].
        split; [intros c Hc; by apply Htr_all|]. done. }
  destruct Hmain as (H1 & H2 & H3 & H4 & H5 & H6).
  split; [done|]. split; [done|]. split; [done|]. split; [done|].
  split; [by apply Hslash|]. split; [exact H5|].
  intros c Hc. by apply Hcut, H6.
Qed.

End WithLibraries.

Lemma sanitize_safe_witness :
  sanitizeUserIdentifier ascii_runes zero_sum "../../etc/passwd"
  = String.list_ascii_of_string "etc-passwd"
  /\ "/"%char ∉ sanitizeUserIdentifier ascii_runes zero_sum "../../etc/passwd".
Proof.
  split; [vm_compute; reflexivity|].
  destruct (sanitize_safe ascii_runes zero_sum (fun _ => eq_refl)
              "../../etc/passwd") as (_ & _ & _ & _ & H & _).
  exact H.
Defined.

End SanitizeFacts.
